(** * The atom viewer of ase.gui: a shallow embedding of [ase/gui/view.py]

    The class [View] turns a trajectory (positions, cell, radii, flags) and a
    camera (axes, scale, center) into draw primitives, and pointer events into
    selection and camera updates.  Its methods are embedded here as Rocq
    functions over explicit state.

    Conventions.
    - NumPy [float64] values are modelled by the real numbers [R]; rounding
      of the arithmetic itself is not modelled, the conversions to integers
      ([round().astype(int)], [int(...)]) are.
    - A Python exception is the result [None] of an [option]-valued function.
    - Arrays are lists; [l !! i] is a read that can fail, slices follow NumPy
      (a slice is clipped to the array, a one-element value is broadcast),
      and a boolean mask used as an index must have one flag per row. *)

From Stdlib Require Import Reals Lra Lia ZArith RNsatz Permutation Sorted.
From stdpp Require Import base option list strings gmap.

(** ** Numbers and small vectors *)

#[global] Instance Rlt_decision (x y : R) : Decision (x < y)%R := Rlt_dec x y.
#[global] Instance Rle_decision (x y : R) : Decision (x <= y)%R := Rle_dec x y.
#[global] Instance R_eq_decision : EqDecision R := Req_dec_T.

Module Np.
Local Open Scope R_scope.

(** A row of three floats, and a 3x3 array as its three rows. *)
Definition V3 : Type := R * R * R.
Definition M3 : Type := V3 * V3 * V3.

Definition zero3 : V3 := (0, 0, 0).

(** [v[c]] and [v[c] = x] for a column number already reduced modulo 3. *)
Definition get3 (c : nat) (v : V3) : R :=
  let '(a, b, d) := v in
  match c with O => a | S O => b | _ => d end.

Definition set3 (c : nat) (x : R) (v : V3) : V3 :=
  let '(a, b, d) := v in
  match c with O => (x, b, d) | S O => (a, x, d) | _ => (a, b, x) end.

Definition row3 (c : nat) (m : M3) : V3 :=
  let '(r0, r1, r2) := m in
  match c with O => r0 | S O => r1 | _ => r2 end.

Definition add3 (u v : V3) : V3 :=
  let '(a, b, c) := u in let '(x, y, z) := v in (a + x, b + y, c + z).
Definition sub3 (u v : V3) : V3 :=
  let '(a, b, c) := u in let '(x, y, z) := v in (a - x, b - y, c - z).
Definition scale3 (k : R) (v : V3) : V3 :=
  let '(x, y, z) := v in (k * x, k * y, k * z).
Definition neg3 (v : V3) : V3 :=
  let '(x, y, z) := v in (- x, - y, - z).

(** [np.dot(u, v)] of two vectors. *)
Definition dot3 (u v : V3) : R :=
  let '(a, b, c) := u in let '(x, y, z) := v in a * x + b * y + c * z.

(** [np.cross(u, v)]. *)
Definition cross3 (u v : V3) : V3 :=
  let '(a, b, c) := u in let '(x, y, z) := v in
  (b * z - c * y, c * x - a * z, a * y - b * x).

(** Column [j] of a matrix and the transpose [m.T]. *)
Definition col3 (j : nat) (m : M3) : V3 :=
  let '(r0, r1, r2) := m in (get3 j r0, get3 j r1, get3 j r2).
Definition transpose (m : M3) : M3 := (col3 0 m, col3 1 m, col3 2 m).

(** [np.dot(v, m)]: a row vector times a matrix. *)
Definition vecmat (v : V3) (m : M3) : V3 :=
  (dot3 v (col3 0 m), dot3 v (col3 1 m), dot3 v (col3 2 m)).

(** [np.dot(a, b)] of two matrices. *)
Definition matmul (a b : M3) : M3 :=
  let '(r0, r1, r2) := a in (vecmat r0 b, vecmat r1 b, vecmat r2 b).

(** [int(x)]: truncation towards zero. *)
Definition py_int (x : R) : Z :=
  if decide (0 <= x) then Zfloor x else Zceil x.

(** [x.round().astype(int)]: the nearest integer, a tie going to the even
    neighbour. *)
Definition np_round (x : R) : Z :=
  let f := Zfloor x in
  let frac := x - IZR f in
  if decide (frac < 1 / 2) then f
  else if decide (1 / 2 < frac) then (f + 1)%Z
  else if Z.even f then f else (f + 1)%Z.

(** [math.atan2(y, x)], by quadrant. *)
Definition atan2 (y x : R) : R :=
  if decide (0 < x) then atan (y / x)
  else if decide (x < 0) then
    if decide (0 <= y) then atan (y / x) + PI else atan (y / x) - PI
  else if decide (0 < y) then PI / 2
  else if decide (y < 0) then - (PI / 2)
  else 0.

(** The result of a float division: NumPy does not raise on a zero
    divisor, it stores a not-a-number or an infinity. *)
Inductive npfloat : Type :=
  | Finite (x : R)
  | NaN
  | Inf (positive : bool).

Definition np_div (x y : R) : npfloat :=
  if decide (y = 0) then
    if decide (x = 0) then NaN else Inf (bool_decide (0 < x))
  else Finite (x / y).

End Np.
Export Np.

(** ** Geometry builder: the cell grid *)

Module Box.
Local Open Scope R_scope.

(** [n = max(2, int(d / 0.3))] with [d = sqrt(np.dot(v, v))]. *)
Definition ticks (v : V3) : nat :=
  Z.to_nat (Z.max 2 (py_int (sqrt (dot3 v v) / 0.3))).

(** The rows [B1[i, j, n1:n2]] of one lattice vector [c] with [n] ticks:
    column [c] holds [R = np.arange(n) * (2 * h)], the next two columns
    (modulo 3) hold [i] and [j]. *)
Definition edge_rows1 (c n : nat) (i j : R) : list V3 :=
  let h := 1 / (2 * INR n - 1) in
  (λ k : nat,
     set3 ((c + 2) mod 3) j
       (set3 ((c + 1) mod 3) i
          (set3 c (INR k * (2 * h)) zero3))) <$> seq 0 n.

(** The rows [B2[i, j, n1:n2]]: a copy of those of [B1], then
    [B2[:, :, n1:n2, c] += h]. *)
Definition edge_rows2 (c n : nat) (i j : R) : list V3 :=
  let h := 1 / (2 * INR n - 1) in
  (λ row, set3 c (get3 c row + h) row) <$> edge_rows1 c n i j.

(** The block [B[i, j, :, :]]: the three lattice vectors one after the other
    ([n1], [n2] advance by [n]). *)
Definition block (nn : list nat) (second : bool) (i j : R) : list V3 :=
  concat (imap (λ c n, if second then edge_rows2 c n i j
                       else edge_rows1 c n i j) nn).

(** [make_box]: returns the arrays stored in [self.B1] and [self.B2] after
    the final reshape to [(-1, 3)], which lists the blocks in the order
    (0,0), (0,1), (1,0), (1,1).  [V] is [self.images.A[0]]. *)
Definition make_box (show_unit_cell : bool) (V : M3) : list V3 * list V3 :=
  if negb show_unit_cell then ([], [])
  else
    let nn := (λ c, ticks (row3 c V)) <$> [0; 1; 2]%nat in
    let blocks second :=
      concat ((λ ij : R * R, block nn second ij.1 ij.2)
                <$> [(0, 0); (0, 1); (1, 0); (1, 1)]) in
    (blocks false, blocks true).

(** [plot_cell]: the two arrays it returns, the start and the end points of
    the ticks in world coordinates.  For lattice vector [c] the rows of [R]
    (here [R_]) are [k * (2 * h)] with [h = v / (2 * n - 1)]; each of the four corners
    [(i, j)] adds [i * V[(c + 1) % 3] + j * V[(c + 2) % 3]]. *)
Definition plot_cell (V : M3) : list V3 * list V3 :=
  let per_axis (c : nat) : list (list V3 * list V3) :=
    let v := row3 c V in
    let n := ticks v in
    let h := scale3 (/ (2 * INR n - 1)) v in
    let R_ := (λ k : nat, scale3 (INR k) (scale3 2 h)) <$> seq 0 n in
    (λ ij : R * R,
       let R1 := (λ row, add3 (add3 row (scale3 ij.1 (row3 ((c + 1) mod 3) V)))
                           (scale3 ij.2 (row3 ((c + 2) mod 3) V))) <$> R_ in
       (R1, (λ row, add3 row h) <$> R1))
      <$> [(0, 0); (0, 1); (1, 0); (1, 1)] in
  let pieces := concat (per_axis <$> [0; 1; 2]%nat) in
  (concat (fst <$> pieces), concat (snd <$> pieces)).

(** The cubic cell of side 1. *)
Definition unit_cube : M3 := ((1, 0, 0), (0, 1, 0), (0, 0, 1)).

(** The number of segments the specification announces for that cell:
    [4 * 3 * max(2, ceil(1 / 0.3))]. *)
Definition announced_segments : Z := 4 * 3 * Z.max 2 (Zceil (1 / 0.3)).

(** A point in fractional coordinates lies in the unit cell. *)
Definition in_unit_cube (v : V3) : Prop :=
  let '(x, y, z) := v in 0 <= x <= 1 ∧ 0 <= y <= 1 ∧ 0 <= z <= 1.

(** The length of a vector, [sqrt(np.dot(v, v))]. *)
Definition norm3 (v : V3) : R := sqrt (dot3 v v).

End Box.

(** ** Geometry builder: the bond graph *)

Module Bonds.

(** The periodic offset of a bond: three integers. *)
Definition Offset : Type := Z * Z * Z.

(** One row of the integer array [self.bonds] of shape [(nb, 5)]: column 0,
    column 1 and columns [2:]. *)
Record Row : Type := mkRow { first : Z; second : Z; offset : Offset }.

Definition set_first (x : Z) (r : Row) : Row := mkRow x (second r) (offset r).
Definition set_second (x : Z) (r : Row) : Row := mkRow (first r) x (offset r).
Definition set_offset (o : Offset) (r : Row) : Row := mkRow (first r) (second r) o.

Definition neg_offset (o : Offset) : Offset :=
  let '(x, y, z) := o in (- x, - y, - z)%Z.

(** [o.any()]: some component is not zero. *)
Definition any_nonzero (o : Offset) : bool :=
  let '(x, y, z) := o in
  negb (Z.eqb x 0) || negb (Z.eqb y 0) || negb (Z.eqb z 0).

(** What [View.bind] reads from [ase.neighborlist.NeighborList] after
    [update]: the two counters and, per atom, the arrays returned by
    [get_neighbors].  The class is not part of the embedded file; its result
    is a parameter of [bind]. *)
Record NeighborList : Type := {
  nneighbors : nat;
  npbcneighbors : nat;
  get_neighbors : nat → list nat * list Offset }.

(** [arr[lo:hi, col] = v] for a scalar [v]: the slice is clipped to the
    array, nothing can fail. *)
Definition slice_fill {A B : Type} (set : B → A → A)
    (lo hi : nat) (v : B) (arr : list A) : list A :=
  let m := (hi `min` length arr) - lo in
  take lo arr ++ (set v <$> take m (drop lo arr)) ++ drop (lo + m) arr.

(** [arr[lo:hi, col] = vals] for an array [vals]: the lengths must agree,
    except that a single value is broadcast over the slice; otherwise NumPy
    raises [ValueError]. *)
Definition slice_assign {A B : Type} (set : B → A → A)
    (lo hi : nat) (vals : list B) (arr : list A) : option (list A) :=
  let m := (hi `min` length arr) - lo in
  if decide (length vals = m) then
    Some (take lo arr ++ zip_with set vals (take m (drop lo arr))
            ++ drop (lo + m) arr)
  else
    match vals with
    | [v] => Some (slice_fill set lo hi v arr)
    | _ => None
    end.

(** The rows of [arr] whose flag in [i] is set, flag and row taken pair by
    pair. *)
Definition mask_rows {A : Type} (i : list bool) (arr : list A) : list A :=
  snd <$> filter (λ p : bool * A, p.1 = true) (zip i arr).

(** [arr[i]] for a boolean mask [i]: the rows whose flag is set.  The mask
    must have one flag per row; otherwise NumPy raises [IndexError] ("boolean
    index did not match indexed array"). *)
Definition mask_index {A : Type} (i : list bool) (arr : list A)
    : option (list A) :=
  guard (length i = length arr);; Some (mask_rows i arr).

(** [coordination[a] += k]. *)
Definition bump (a : nat) (k : Z) (coordination : list Z) : option (list Z) :=
  x ← coordination !! a; Some (<[a := (x + k)%Z]> coordination).

(** The local variables of the loop over the atoms; [n2] is unbound until
    the body has run once. *)
Record Loop : Type := mkLoop {
  l_bonds : list Row;
  l_coordination : list Z;
  l_n1 : nat;
  l_n2 : option nat }.

(** One turn of [for a in range(self.images.natoms)]. *)
Definition bind_body (nl : NeighborList) (st : Loop) (a : nat) : option Loop :=
  let '(indices, offsets) := get_neighbors nl a in
  c1 ← bump a (Z.of_nat (length indices)) (l_coordination st);
  c2 ← foldl (λ acc a2, acc ≫= bump a2 1) (Some c1) indices;
  let n1 := l_n1 st in
  let n2 := n1 + length indices in
  let b1 := slice_fill set_first n1 n2 (Z.of_nat a) (l_bonds st) in
  b2 ← slice_assign set_second n1 n2 (Z.of_nat <$> indices) b1;
  b3 ← slice_assign set_offset n1 n2 offsets b2;
  Some (mkLoop b3 c2 n2 (Some n2)).

(** The loop [for a in range(self.images.natoms)] of [bind], run on the
    arrays just assigned to [self.bonds] ([nb] rows of [np.empty]) and to
    [self.coordination].  The loop writes into these two arrays, so its
    result is what the attributes hold when a later line raises. *)
Definition fill_pairs (nl : NeighborList) (natoms nb : nat) (junk : Row)
    : option Loop :=
  foldl (λ acc a, acc ≫= λ st, bind_body nl st a)
    (Some (mkLoop (replicate nb junk) (replicate natoms 0%Z) 0 None))
    (seq 0 natoms).

(** [View.bind]: the arrays left in [self.bonds] and [self.coordination]
    when the method returns.  [junk] is the content of a row of [np.empty],
    [coordination0] the attribute before the call (it is left alone when
    bonds are not shown).  The mask [i] has [n2] flags and indexes the whole
    array of [nb] rows. *)
Definition bind (show_bonds : bool) (natoms : nat) (nl : NeighborList)
    (junk : Row) (coordination0 : option (list Z))
    : option (list Row * option (list Z)) :=
  if negb show_bonds then Some ([], coordination0)
  else
    let nb := nneighbors nl + npbcneighbors nl in
    let bonds := replicate nb junk in
    let coordination := replicate natoms 0%Z in
    if decide (nb = 0) then Some (bonds, Some coordination)
    else
      st ← fill_pairs nl natoms nb junk;
      n2 ← l_n2 st;
      let bonds := l_bonds st in
      let i := (any_nonzero ∘ offset) <$> take n2 bonds in
      r1 ← mask_index i bonds;
      b1 ← slice_assign set_first n2 (length bonds) (second <$> r1) bonds;
      r2 ← mask_index i b1;
      b2 ← slice_assign set_second n2 (length b1) (first <$> r2) b1;
      r3 ← mask_index i b2;
      b3 ← slice_assign set_offset n2 (length b2)
              ((neg_offset ∘ offset) <$> r3) b2;
      Some (b3, Some (l_coordination st)).

(** The bonds of atom [a] as the neighbour list gives them. *)
Definition rows_of (nl : NeighborList) (a : nat) : list Row :=
  zip_with (λ a2 o, mkRow (Z.of_nat a) (Z.of_nat a2) o)
    (get_neighbors nl a).1 (get_neighbors nl a).2.

Definition forward (nl : NeighborList) (natoms : nat) : list Row :=
  concat (rows_of nl <$> seq 0 natoms).

(** What [bind] relies on in the neighbour list of [natoms] atoms: the two
    arrays of an atom have one length, neighbours are atoms, the counters
    count all pairs and the pairs with a non-zero offset, and a pair is
    listed once. *)
Record NeighborList_ok (natoms : nat) (nl : NeighborList) : Prop := {
  ok_lengths : ∀ a, a < natoms →
    length (get_neighbors nl a).1 = length (get_neighbors nl a).2;
  ok_atoms : ∀ a a2, a < natoms → a2 ∈ (get_neighbors nl a).1 → a2 < natoms;
  ok_nneighbors : nneighbors nl = length (forward nl natoms);
  ok_npbcneighbors :
    npbcneighbors nl =
    length (filter (λ b, any_nonzero (offset b) = true) (forward nl natoms));
  ok_once : ∀ a, a < natoms → NoDup (rows_of nl a) }.

(** A neighbour list of two atoms: atom 0 sees atom 1 inside the cell and
    once more through the cell boundary along the first lattice vector. *)
Definition two_atoms : NeighborList := {|
  nneighbors := 2;
  npbcneighbors := 1;
  get_neighbors a :=
    match a with
    | 0 => ([1; 1], [(0, 0, 0); (1, 0, 0)]%Z)
    | _ => ([], [])
    end |}.

(** A neighbour list of two atoms without periodic pair: atom 0 sees atom 1
    inside the cell. *)
Definition one_pair : NeighborList := {|
  nneighbors := 1;
  npbcneighbors := 0;
  get_neighbors a :=
    match a with
    | 0 => ([1], [(0, 0, 0)%Z])
    | _ => ([], [])
    end |}.

(** The number of listed pairs that touch atom [x]: those it starts plus
    those it ends (a pair of an atom with its own image counts twice). *)
Definition touching (nl : NeighborList) (natoms x : nat) : nat :=
  length (filter (λ b, first b = Z.of_nat x) (forward nl natoms))
  + length (filter (λ b, second b = Z.of_nat x) (forward nl natoms)).

End Bonds.

(** ** The viewer: state, projection and painting *)

Module Gui.
Local Open Scope R_scope.

(** What the viewer calls in NumPy and in [ase.quaternions]; none of it is
    implemented in the embedded file. *)
Class Toolkit : Type := {
  (** the entries of the list returned by [get_colors()] *)
  Color : Type;
  (** the entries of [self.labels[frame]], as shown by [str] *)
  Label : Type;
  (** the graphics contexts handed to the pixmap *)
  GC : Type;
  (** [ndarray.argsort()] with its default sorting kind *)
  argsort : list R → list nat;
  (** [Quaternion(q).rotation_matrix()] *)
  rotation_matrix : R * R * R * R → M3;
  (** [np.linalg.eig] of a 2x2 array: eigenvalues, then the array of
      eigenvectors *)
  eig : (R * R) * (R * R) → (R * R) * ((R * R) * (R * R)) }.

(** What NumPy documents for [argsort]: the result lists every index of the
    array once, and the keys read in that order never decrease.  Nothing is
    promised about the order of equal keys for the default kind. *)
Record numpy_argsort (sort : list R → list nat) : Prop := {
  argsort_perm : ∀ keys, sort keys ≡ₚ seq 0 (length keys);
  argsort_sorted : ∀ keys i j a b x y,
    (i < j)%nat → sort keys !! i = Some a → sort keys !! j = Some b →
    keys !! a = Some x → keys !! b = Some y → x <= y }.

(** The optional modifier tag of a pointer event. *)
Inductive Modifier : Type := Ctrl | Shift.
#[global] Instance Modifier_eq_dec : EqDecision Modifier.
Proof. solve_decision. Defined.

(** A pointer event: [event.button], [event.x], [event.y], [event.time]
    (milliseconds) and [event.modifier]. *)
Record Event : Type := mkEvent {
  e_button : Z;
  e_x : R;
  e_y : R;
  e_time : Z;
  e_modifier : option Modifier }.

(** The three tool modes of the menu. *)
Inductive Mode : Type := Rotate | Orient | Move.

Section State.
Context `{Toolkit}.

(** The calls issued to the window, its canvas and the pixmap, in the
    order they are made. *)
Inductive Call : Type :=
  | Clear                                        (* window.clear() *)
  | Update                                       (* window.update() *)
  | Circle (color : Color) (selected : bool) (x0 y0 x1 y1 : Z)
                                                 (* window.circle(...) *)
  | Line (x0 y0 x1 y1 : Z) (width : option R)    (* window.line(...) *)
  | TextLabel (x y : Z) (label : Label)          (* window.text(x, y, str(label)) *)
  | TextAxis (x y : Z) (i : nat)       (* window.text(x, y, 'XYZ'[i], color=rgb[i]) *)
  | TextFrame (x y : Z) (frame nimages : nat)
                            (* window.text(x, y, 'frame/nimages', anchor='SE') *)
  | Rectangle (x y : R) (x0 y0 : Z)    (* window.canvas.create_rectangle(...) *)
  | PixLine (gc : GC) (x0 y0 x1 y1 : Z)          (* pixmap.draw_line(...) *)
  | PixArc (gc : GC) (fill : bool) (x y w h : Z) (angle1 angle2 : Z)
                                                 (* pixmap.draw_arc(...) *)
  | PixPolygon (gc : GC) (fill : bool) (points : list (Z * Z)).
                                                 (* pixmap.draw_polygon(...) *)

(** [self.images]: the part of the trajectory the viewer reads and writes. *)
Record Images : Type := mkImages {
  natoms : nat;
  nimages : nat;
  r : list R;                          (* covalent radii *)
  A : list M3;                         (* A[frame]: the cell *)
  D : list V3;                         (* D[frame]: the displacement *)
  selected : list bool;
  selected_ordered : list nat;
  visible : list bool;
  dynamic : list bool;
  shapes : option (list V3);           (* semi-axes per atom, or None *)
  Q : list (list (R * R * R * R)) }.   (* Q[frame][j]: a quaternion *)

(** The toggles and the size read from [self.window]. *)
Record Window : Type := mkWindow {
  show_unit_cell : bool;
  show_bonds : bool;
  show_axes : bool;
  show_velocities : bool;
  show_forces : bool;
  size : Z * Z }.

(** The camera: [self.axes], [self.scale], [self.center]. *)
Record Camera : Type := mkCamera {
  axes : M3;
  scale : R;
  center : V3 }.

(** What [press] records; the attributes exist once [press] has run. *)
Record Pressed : Type := mkPressed {
  button : Z;
  xy : R * R;
  t0 : Z;
  axes0 : M3;
  center0 : V3 }.

(** The attributes of a [View] object, with the sequence of drawing calls
    made so far. *)
Record View : Type := mkView {
  images : Images;
  window : Window;
  camera : Camera;
  X : list V3;                      (* atoms, then grid and bond start points *)
  B : list V3;                      (* grid and bond end points *)
  B1 : list V3;
  frame : nat;
  indices : list nat;               (* the draw order of the last [draw] *)
  P : list (R * R);                 (* the screen positions of the last [draw] *)
  labels : option (list (list Label));
  light_green_markings : bool;
  atoms_to_rotate_0 : option (list bool);    (* None: attribute not set *)
  vectors : option (list (list V3));         (* None: attribute not set *)
  menu_change : bool;
  orient_normal : option (npfloat * npfloat * npfloat);
  pressed : Pressed;
  foreground_gc : GC;
  trace : list Call }.

Definition set_selection (sel : list bool) (ord : list nat) (s : View) : View :=
  let im := images s in
  mkView (mkImages (natoms im) (nimages im) (r im) (A im) (D im) sel ord
            (visible im) (dynamic im) (shapes im) (Q im))
    (window s) (camera s) (X s) (B s) (B1 s) (frame s) (indices s) (P s)
    (labels s) (light_green_markings s) (atoms_to_rotate_0 s) (vectors s)
    (menu_change s) (orient_normal s) (pressed s) (foreground_gc s) (trace s).

Definition set_selected_ordered (ord : list nat) (s : View) : View :=
  set_selection (selected (images s)) ord s.

Definition set_camera (c : Camera) (s : View) : View :=
  mkView (images s) (window s) c (X s) (B s) (B1 s) (frame s) (indices s)
    (P s) (labels s) (light_green_markings s) (atoms_to_rotate_0 s)
    (vectors s) (menu_change s) (orient_normal s) (pressed s)
    (foreground_gc s) (trace s).

Definition set_projection (ind : list nat) (pos : list (R * R))
    (calls : list Call) (s : View) : View :=
  mkView (images s) (window s) (camera s) (X s) (B s) (B1 s) (frame s) ind
    pos (labels s) (light_green_markings s) (atoms_to_rotate_0 s)
    (vectors s) (menu_change s) (orient_normal s) (pressed s)
    (foreground_gc s) (trace s ++ calls).

Definition set_orient_normal (n : npfloat * npfloat * npfloat) (s : View) : View :=
  mkView (images s) (window s) (camera s) (X s) (B s) (B1 s) (frame s)
    (indices s) (P s) (labels s) (light_green_markings s)
    (atoms_to_rotate_0 s) (vectors s) (menu_change s) (Some n) (pressed s)
    (foreground_gc s) (trace s).

Definition set_pressed (p : Pressed) (s : View) : View :=
  mkView (images s) (window s) (camera s) (X s) (B s) (B1 s) (frame s)
    (indices s) (P s) (labels s) (light_green_markings s)
    (atoms_to_rotate_0 s) (vectors s) (menu_change s) (orient_normal s) p
    (foreground_gc s) (trace s).

Definition log (calls : list Call) (s : View) : View :=
  set_projection (indices s) (P s) calls s.

(** What the embedded methods call and take as given: the colour mapper
    [get_colors] (a method of [View], embedded on its own in [Colors]), the
    scroll handler of the GUI, and the bookkeeping of the tool-mode menu
    [toggle_mode] (a method of [View] that reads the menu widgets). *)
Class Collaborators : Type := {
  get_colors : View → option (list Color);
  scroll_event : View → Event → option View;
  toggle_mode : Mode → View → option View }.

Context `{Collaborators}.

(** *** Projection *)

(** [axes = self.scale * self.axes * (1, -1, 1)]. *)
Definition view_axes (s : View) : M3 :=
  let k := scale (camera s) in
  let f (row : V3) :=
    let '(a, b, c) := row in (k * a * 1, k * b * -1, k * c * 1) in
  let '(r0, r1, r2) := axes (camera s) in (f r0, f r1, f r2).

(** [offset = np.dot(self.center, axes)]; [offset[:2] -= 0.5 * size]. *)
Definition view_offset (s : View) : V3 :=
  let '(o0, o1, o2) := vecmat (center (camera s)) (view_axes s) in
  let '(w, h) := size (window s) in
  (o0 - 0.5 * IZR w, o1 - 0.5 * IZR h, o2).

(** One row of [np.dot(..., axes) - offset]. *)
Definition project (s : View) (x : V3) : V3 :=
  sub3 (vecmat x (view_axes s)) (view_offset s).

(** The local [X] of [draw]. *)
Definition projected (s : View) : list V3 := project s <$> X s.

(** [X[:, 2]], the depth of every drawable point, and its [argsort()]. *)
Definition depths (s : View) : list R := get3 2 <$> projected s.
Definition draw_order (s : View) : list nat := argsort (depths s).

(** [r]: the radii on screen, smaller when bonds are shown. *)
Definition screen_radii (s : View) : list R :=
  if show_bonds (window s)
  then (λ x, x * (0.65 * scale (camera s))) <$> r (images s)
  else (λ x, x * scale (camera s)) <$> r (images s).

Definition round2 (v : V3) : Z * Z :=
  let '(x, y, _) := v in (np_round x, np_round y).
Definition round3 (v : V3) : Z * Z * Z :=
  let '(x, y, z) := v in (np_round x, np_round y, np_round z).

(** [P = X[:n, :2]]. *)
Definition screen_positions (s : View) : list (R * R) :=
  (λ v : V3, let '(x, y, _) := v in (x, y))
    <$> take (natoms (images s)) (projected s).

(** [A = (P - r[:, None]).round().astype(int)]: the shapes must agree (the
    broadcast of a single radius or a single position is left out). *)
Definition corners (s : View) : option (list (Z * Z)) :=
  guard (length (screen_radii s) = length (screen_positions s));;
  Some (zip_with (λ (p : R * R) rad, (np_round (p.1 - rad), np_round (p.2 - rad)))
          (screen_positions s) (screen_radii s)).

(** [d = (2 * r).round().astype(int)]. *)
Definition diameters (s : View) : list Z :=
  (λ rad, np_round (2 * rad)) <$> screen_radii s.

(** [X1 = X[n:, :2].round().astype(int)]. *)
Definition starts (s : View) : list (Z * Z) :=
  round2 <$> drop (natoms (images s)) (projected s).

(** [X2 = (np.dot(self.B, axes) - offset).round().astype(int)]. *)
Definition ends (s : View) : list (Z * Z * Z) :=
  (λ b, round3 (project s b)) <$> B s.

(** [disp = np.dot(self.images.D[self.frame], axes).round().astype(int)]. *)
Definition displacement (s : View) : option (Z * Z * Z) :=
  d ← D (images s) !! frame s; Some (round3 (vecmat d (view_axes s))).

(** *** Painting *)

(** [arrow(begin, end)]: the shaft, then the two lines of the head. *)
Definition arrow (s : View) (begin end_ : V3) : list Call :=
  let vec := sub3 end_ begin in
  let length := sqrt ((get3 0 vec)² + (get3 1 vec)²) in
  let length := Rmin length (0.3 * scale (camera s)) in
  let beg := round3 begin in
  let en := round3 end_ in
  let angle := atan2 (IZR (en.1.2 - beg.1.2)) (IZR (en.1.1 - beg.1.1)) + PI in
  let x1 := np_round (get3 0 end_ + length * cos (angle - 0.3)) in
  let y1 := np_round (get3 1 end_ + length * sin (angle - 0.3)) in
  let x2 := np_round (get3 0 end_ + length * cos (angle + 0.3)) in
  let y2 := np_round (get3 1 end_ + length * sin (angle + 0.3)) in
  [PixLine (foreground_gc s) beg.1.1 beg.1.2 en.1.1 en.1.2;
   PixLine (foreground_gc s) x1 y1 en.1.1 en.1.2;
   PixLine (foreground_gc s) x2 y2 en.1.1 en.1.2].

(** The sixteen corners of the polygon drawn for an ellipsoid whose rounded
    semi-axes [rx], [ry], [rz] differ; [q] is the quaternion of the atom and
    [xj] is [X[j]]. *)
Definition ellipse_points (s : View) (rx ry rz : Z) (q : R * R * R * R)
    (xj : V3) : list (Z * Z) :=
  let Ellipsoid : M3 :=
    ((1 / IZR (rx * rx), 0, 0),
     (0, 1 / IZR (ry * ry), 0),
     (0, 0, 1 / IZR (rz * rz))) in
  let Rq := rotation_matrix q in
  let El_r := matmul Rq (matmul Ellipsoid (transpose Rq)) in
  let ax := axes (camera s) in
  let El_v := matmul (transpose ax) (matmul El_r ax) in
  let '((e00, e01, e02), (_, e11, e12), (_, _, e22)) := El_v in
  let El_p :=
    ((e00 - e02 * e02 / e22, e01 - e02 * e12 / e22),
     (e01 - e02 * e12 / e22, e11 - e12 * e12 / e22)) in
  let '((w0, w1), ((v00, v01), _)) := eig El_p in
  let phi := atan (v01 / v00) in
  (λ k : nat,
     let alpha := INR k * 2 * PI / 16 in
     let ex := sqrt (1 / w0) * cos alpha * cos phi
               - sqrt (1 / w1) * sin alpha * sin phi in
     let ey := sqrt (1 / w0) * cos alpha * sin phi
               + sqrt (1 / w1) * sin alpha * cos phi in
     (np_round (ex * scale (camera s) + get3 0 xj),
      np_round (ey * scale (camera s) + get3 1 xj))) <$> seq 0 16.

(** [my_arc(gc, fill, j, X, r, n, A, d)]: the call it makes on the pixmap.
    The arguments [r] and [n] are not read. *)
Definition my_arc (s : View) (gc : GC) (fill : bool) (j : nat)
    (X : list V3) (r : list R) (n : nat) (A : list (Z * Z)) (d : list Z)
    : option Call :=
  let arc :=
    a ← A !! j; dj ← d !! j; Some (PixArc gc fill a.1 a.2 dj dj 0 23040) in
  match shapes (images s) with
  | Some sh =>
      shape ← sh !! j;
      let rx := np_round (get3 0 shape) in
      let ry := np_round (get3 1 shape) in
      let rz := np_round (get3 2 shape) in
      let circle := bool_decide (rx = ry) && bool_decide (ry = rz) in
      if negb circle then
        qs ← Q (images s) !! frame s;
        q ← qs !! j;
        xj ← X !! j;
        Some (PixPolygon gc fill (ellipse_points s rx ry rz q xj))
      else arc
  | None => arc
  end.

(** The body of the loop of [draw] for an index [a < n]: the calls made for
    atom [a].  The name [arc] used for the light-green marking is not bound
    anywhere in the module, so reaching that line raises [NameError]. *)
Definition paint_atom (s : View) (colors : list Color) (A : list (Z * Z))
    (V : option (list V3)) (a : nat) : option (list Call) :=
  ra ← diameters s !! a;
  vis ← visible (images s) !! a;
  calls ←
    (if vis : bool then
       col ← colors !! a;
       sel ← selected (images s) !! a;
       c ← A !! a;
       let circle := [Circle col sel c.1 c.2 (c.1 + ra) (c.2 + ra)] in
       label ←
         match labels s with
         | None => Some []
         | Some ls => row ← ls !! frame s; l ← row !! a;
                      Some [TextLabel c.1 c.2 l]
         end;
       dyn ← dynamic (images s) !! a;
       let cross :=
         if negb dyn then
           let R1 := py_int (0.14644 * IZR ra) in
           let R2 := py_int (0.85355 * IZR ra) in
           [Line (c.1 + R1) (c.2 + R1) (c.1 + R2) (c.2 + R2) None;
            Line (c.1 + R2) (c.2 + R1) (c.1 + R1) (c.2 + R2) None]
         else [] in
       vector ←
         match V with
         | None => Some []
         | Some V => xa ← projected s !! a; va ← V !! a;
                     Some (arrow s xa (add3 xa va))
         end;
       Some (circle ++ label ++ cross ++ vector)
     else Some []);
  marked ←
    (if light_green_markings s
     then atr ← atoms_to_rotate_0 s; atr !! a
     else Some false);
  if marked : bool then None else Some calls.

(** The body of the loop for an index past the atoms ([a] is already
    reduced by [n]): a grid line, or a bond line of width [bw]. *)
Definition paint_segment (s : View) (disp : Z * Z * Z) (a : nat)
    : option (list Call) :=
  x1 ← starts s !! a;
  x2 ← ends s !! a;
  let bw := scale (camera s) * 0.15 in
  Some [Line (x1.1 + disp.1.1) (x1.2 + disp.1.2)
             (x2.1.1 + disp.1.1) (x2.1.2 + disp.1.2)
             (if decide (a < length (B1 s))%nat then None else Some bw)].

(** [draw_axes]. *)
Definition draw_axes (s : View) : option (list Call) :=
  let ax := axes (camera s) in
  calls ←
    mapM (λ i : nat,
            guard (i < 3)%nat;;
            let a := 20%Z in
            let b := ((size (window s)).2 - 20)%Z in
            let c := py_int (get3 0 (row3 i ax) * 15 + IZR a) in
            let d := py_int (- get3 1 (row3 i ax) * 15 + IZR b) in
            Some [Line a b c d None; TextAxis c d i])
      (argsort (get3 2 <$> [row3 0 ax; row3 1 ax; row3 2 ax]));
  Some (concat calls).

(** [draw_frame_number]. *)
Definition draw_frame_number (s : View) : list Call :=
  [TextFrame (size (window s)).1 (size (window s)).2
     (frame s) (nimages (images s))].

(** [draw(status)].  It stores the draw order and the screen positions and
    issues the drawing calls; the status bar written by [self.status()]
    belongs to the toolkit and is not part of the state. *)
Definition draw (status : bool) (s : View) : option View :=
  let n := natoms (images s) in
  let order := draw_order s in
  A ← corners s;
  disp ← displacement s;
  V ← (if show_velocities (window s) || show_forces (window s) then
         vs ← vectors s; vf ← (vs : list (list V3)) !! frame s;
         Some (Some ((λ v, vecmat v (view_axes s)) <$> (vf : list V3)))
       else Some None);
  colors ← get_colors s;
  painted ←
    mapM (λ a : nat,
            if decide (a < n)%nat then paint_atom s colors A V a
            else paint_segment s disp (a - n)) order;
  ax ← (if show_axes (window s) then draw_axes s else Some []);
  let number :=
    if decide (1 < nimages (images s))%nat then draw_frame_number s else [] in
  Some (set_projection order (screen_positions s)
          (Clear :: concat painted ++ ax ++ number ++ [Update]) s).

(** *** Pointer events *)

(** [press(event)]. *)
Definition press (s : View) (e : Event) : View :=
  set_pressed
    (mkPressed (e_button e) (e_x e, e_y e) (e_time e)
       (axes (camera s)) (center (camera s))) s.

(** [hit = np.less((d**2).sum(1), (self.scale * self.images.r)**2)] with
    [d = self.P - self.xy]: the shapes must agree (the broadcast of a single
    radius or a single position is left out). *)
Definition hit_circles (s : View) : option (list bool) :=
  guard (length (r (images s)) = length (P s));;
  Some (zip_with
          (λ (p : R * R) rad,
             bool_decide ((p.1 - (xy (pressed s)).1)²
                          + (p.2 - (xy (pressed s)).2)²
                          < (scale (camera s) * rad)²))
          (P s) (r (images s))).

(** [for a in self.indices[::-1]: if a < natoms and hit[a]: ... break]:
    the atom at which the loop breaks, if any.  [order] is the reversed
    draw order. *)
Fixpoint first_hit (natoms : nat) (hit : list bool) (order : list nat)
    : option (option nat) :=
  match order with
  | [] => Some None
  | a :: rest =>
      if decide (a < natoms)%nat then
        h ← hit !! a;
        if h : bool then Some (Some a) else first_hit natoms hit rest
      else first_hit natoms hit rest
  end.

(** [selected[a] = b] on the flag array. *)
Definition set_flag (a : nat) (b : bool) (sel : list bool) : option (list bool) :=
  guard (a < length sel)%nat;; Some (<[a := b]> sel).

(** [selected[:] = False]. *)
Definition clear_flags (sel : list bool) : list bool :=
  replicate (length sel) false.

(** The tap branch of [release], up to the call of [draw]: the flags, the
    local name [selected_ordered], and the list held by
    [self.images.selected_ordered] (which [+=] extends in place while the
    other assignments only rebind the local name). *)
Definition tap (s : View) (e : Event)
    : option (list bool * list nat * list nat) :=
  let sel := selected (images s) in
  let ord := selected_ordered (images s) in
  hit ← hit_circles s;
  found ← first_hit (natoms (images s)) hit (reverse (indices s));
  match found with
  | Some a =>
      if decide (e_modifier e = Some Ctrl) then
        old ← sel !! a;
        let sel' := <[a := negb old]> sel in
        if negb old then Some (sel', ord ++ [a], ord ++ [a])
        else if decide (0 < length ord)%nat then
          if decide (last ord = Some a)
          then Some (sel', take (length ord - 1) ord, ord)
          else Some (sel', [], ord)
        else Some (sel', ord, ord)
      else
        sel' ← set_flag a true (clear_flags sel);
        Some (sel', [a], ord)
  | None => Some (clear_flags sel, [], ord)
  end.

(** The box branch of [release], up to the call of [draw]. *)
Definition box (s : View) (e : Event)
    : option (list bool * list nat * list nat) :=
  let sel := selected (images s) in
  let ord := selected_ordered (images s) in
  let '(x0, y0) := xy (pressed s) in
  let C1 := (Rmin (e_x e) x0, Rmin (e_y e) y0) in
  let C2 := (Rmax (e_x e) x0, Rmax (e_y e) y0) in
  let hit :=
    (λ p : R * R,
       bool_decide (C1.1 < p.1) && bool_decide (p.1 < C2.1)
       && (bool_decide (C1.2 < p.2) && bool_decide (p.2 < C2.2))) <$> P s in
  let inside := Bonds.mask_rows hit (seq 0 (length hit)) in
  let sel0 := if decide (e_modifier e = Some Ctrl) then sel else clear_flags sel in
  sel' ← foldl (λ acc a, acc ≫= set_flag a true) (Some sel0) inside;
  match inside with
  | [a] => if decide (a ∈ ord) then Some (sel', ord, ord)
           else Some (sel', ord ++ [a], ord ++ [a])
  | [] => Some (sel', ord, ord)
  | _ => Some (sel', [], ord)
  end.

(** [release(event)]. *)
Definition release (s : View) (e : Event) : option View :=
  if decide (e_button e = 4 ∨ e_button e = 5)%Z then scroll_event s e
  else if decide (e_button e ≠ 1)%Z then Some s
  else
    '(sel, ord, held) ←
      (if decide (e_time e < t0 (pressed s) + 200)%Z then tap s e else box s e);
    s1 ← draw true (set_selection sel held s);
    let chosen :=
      Bonds.mask_rows (selected (images s1)) (seq 0 (natoms (images s1))) in
    let ord := if decide (length chosen ≠ length ord) then [] else ord in
    Some (set_selected_ordered ord s1).

(** [np.dot(m, v)]: a matrix times a column vector. *)
Definition matvec (m : M3) (v : V3) : V3 :=
  let '(r0, r1, r2) := m in (dot3 r0 v, dot3 r1 v, dot3 r2 v).

(** [rows.mean(0)]. *)
Definition mean3 (rows : list V3) : V3 :=
  scale3 (/ INR (length rows)) (foldr add3 zero3 rows).

(** The rotation matrix that [move] builds from the pointer positions. *)
Definition drag_rotation (x y x0 y0 : R) : M3 :=
  let a := x - x0 in
  let b := y0 - y in
  let t := sqrt (a * a + b * b) in
  let '(a, b) := if decide (0 < t) then (a / t, b / t) else (1, 0) in
  let c := cos (0.01 * t) in
  let s := - sin (0.01 * t) in
  ((c * a * a + b * b, (c - 1) * b * a, s * a),
   ((c - 1) * a * b, c * b * b + a * a, s * b),
   (- s * a, - s * b, c)).

(** [move(event)]. *)
Definition move (s : View) (e : Event) : option View :=
  let x := e_x e in
  let y := e_y e in
  let '(x0, y0) := xy (pressed s) in
  if decide (button (pressed s) = 1)%Z then
    Some (log [Rectangle x y (np_round x0) (np_round y0)] s)
  else if decide (button (pressed s) = 2)%Z then Some s
  else
    s1 ←
      (if decide (e_modifier e = Some Shift) then
         let c := camera s in
         Some (set_camera
                 (mkCamera (axes c) (scale c)
                    (sub3 (center0 (pressed s))
                       (scale3 (/ scale c)
                          (matvec (axes c) (x - x0, y0 - y, 0))))) s)
       else
         let rotation := drag_rotation x y x0 y0 in
         let ax := matmul (axes0 (pressed s)) rotation in
         com ←
           (if decide (0 < natoms (images s))%nat
            then Some (mean3 (take (natoms (images s)) (X s)))
            else cell ← A (images s) !! frame s;
                 Some (mean3 [row3 0 cell; row3 1 cell; row3 2 cell]));
         Some (set_camera
                 (mkCamera ax (scale (camera s))
                    (sub3 com
                       (vecmat (sub3 com (center0 (pressed s)))
                          (matmul (axes0 (pressed s)) (transpose ax))))) s));
    draw false s1.

(** *** The orient mode *)

(** [sel_pos]: the rows [self.R[i]] of the atoms flagged in
    [atoms_to_rotate_0]; [self.R] is the view [X[:n]]. *)
Definition selected_positions (s : View) (flags : list bool)
    : option (list V3) :=
  mapM (λ i : nat, take (natoms (images s)) (X s) !! i)
    (Bonds.mask_rows flags (seq 0 (length flags))).

(** The vector stored in [self.orient_normal] before it is normalised. *)
Definition raw_normal (sel_pos : list V3) : V3 :=
  match sel_pos with
  | [p0; p1] => sub3 p0 p1
  | [p0; p1; p2] => cross3 (sub3 p1 p0) (sub3 p1 p2)
  | _ => (1, 0, 0)
  end.

(** [v /= sum(v ** 2) ** 0.5]. *)
Definition normalise (v : V3) : npfloat * npfloat * npfloat :=
  let '(x, y, z) := v in
  let norm := sqrt (x * x + y * y + z * z) in
  (np_div x norm, np_div y norm, np_div z norm).

(** [toggle_orient_mode()]. *)
Definition toggle_orient_mode (s : View) : option View :=
  s1 ← (if negb (menu_change s) then toggle_mode Orient s else Some s);
  flags ← atoms_to_rotate_0 s1;
  sel_pos ← selected_positions s1 flags;
  Some (set_orient_normal (normalise (raw_normal sel_pos)) s1).

(** *** Vocabulary of the properties *)

(** The state is well formed for painting: the per-atom arrays have one
    entry per atom, the atoms come first in [X], every further point of [X]
    has its end point in [B], the frame exists, labels and vectors cover
    the atoms when they are shown, and no light-green marking is active. *)
Record wf_view (s : View) : Prop := {
  wf_X : (natoms (images s) ≤ length (X s))%nat;
  wf_B : (length (X s) - natoms (images s) ≤ length (B s))%nat;
  wf_r : length (r (images s)) = natoms (images s);
  wf_P : length (P s) = natoms (images s);
  wf_selected : length (selected (images s)) = natoms (images s);
  wf_visible : length (visible (images s)) = natoms (images s);
  wf_dynamic : length (dynamic (images s)) = natoms (images s);
  wf_D : (frame s < length (D (images s)))%nat;
  wf_A : (frame s < length (A (images s)))%nat;
  wf_labels :
    match labels s with
    | None => True
    | Some ls => ∃ row, ls !! frame s = Some row
                        ∧ (natoms (images s) ≤ length row)%nat
    end;
  wf_vectors :
    show_velocities (window s) || show_forces (window s) = true →
    ∃ vs vf, vectors s = Some vs ∧ vs !! frame s = Some vf
             ∧ (natoms (images s) ≤ length vf)%nat;
  wf_markings : light_green_markings s = false }.

(** The colour mapper gives one colour per atom. *)
Definition colors_per_atom : Prop :=
  ∀ s, ∃ cs, get_colors s = Some cs ∧ length cs = natoms (images s).

(** The pointer position recorded by [press] lies in the circle of atom
    [a]: centre [P[a]], radius [scale * r[a]] (the full radius, also when
    bonds are shown). *)
Definition is_hit (s : View) (a : nat) : Prop :=
  (a < natoms (images s))%nat
  ∧ ∃ p rad, P s !! a = Some p ∧ r (images s) !! a = Some rad
      ∧ (p.1 - (xy (pressed s)).1)² + (p.2 - (xy (pressed s)).2)²
        < (scale (camera s) * rad)².


(** [k] is the front-most hit atom: it is hit, and nothing painted after it
    in the draw order is a hit atom. *)
Definition front_most_hit (s : View) (k : nat) : Prop :=
  ∃ before after, indices s = before ++ k :: after
    ∧ is_hit s k ∧ ∀ a, a ∈ after → ¬ is_hit s a.



(** The atoms whose selected flag is true:
    [np.arange(natoms)[self.images.selected]]. *)
Definition selected_atoms (s : View) : list nat :=
  Bonds.mask_rows (selected (images s)) (seq 0 (natoms (images s))).

(** The columns of a matrix have unit length and are mutually orthogonal. *)
Definition orthonormal (m : M3) : Prop :=
  dot3 (col3 0 m) (col3 0 m) = 1 ∧ dot3 (col3 1 m) (col3 1 m) = 1
  ∧ dot3 (col3 2 m) (col3 2 m) = 1 ∧ dot3 (col3 0 m) (col3 1 m) = 0
  ∧ dot3 (col3 0 m) (col3 2 m) = 0 ∧ dot3 (col3 1 m) (col3 2 m) = 0.

(** The same view with other quaternions in [self.images.Q]. *)
Definition set_quaternions (q : list (list (R * R * R * R))) (s : View) : View :=
  let im := images s in
  mkView (mkImages (natoms im) (nimages im) (r im) (A im) (D im)
            (selected im) (selected_ordered im) (visible im) (dynamic im)
            (shapes im) q)
    (window s) (camera s) (X s) (B s) (B1 s) (frame s) (indices s) (P s)
    (labels s) (light_green_markings s) (atoms_to_rotate_0 s) (vectors s)
    (menu_change s) (orient_normal s) (pressed s) (foreground_gc s) (trace s).

(** The screen radius the specification announces for an atom of world
    radius [rad]: [rad * scale], and half of it when bonds are shown. *)
Definition announced_radius (s : View) (rad : R) : R :=
  if show_bonds (window s) then rad * scale (camera s) / 2
  else rad * scale (camera s).


(** The view with the axes [m], the scale as it is and the center recorded
    by [press]; for [m = axes0] this is the camera of the press. *)
Definition at_press (m : M3) (s : View) : View :=
  set_camera (mkCamera m (scale (camera s)) (center0 (pressed s))) s.

(** The pivot of a rotation drag: the mean of the atoms, or of the cell
    vectors when there is no atom. *)
Definition pivot (s : View) : option V3 :=
  if decide (0 < natoms (images s))%nat
  then Some (mean3 (take (natoms (images s)) (X s)))
  else cell ← A (images s) !! frame s;
       Some (mean3 [row3 0 cell; row3 1 cell; row3 2 cell]).

(** *** Fitting the view to the scene *)

(** [P.min(0)] and [P.max(0)]: the extreme of every column; an array
    without rows raises [ValueError]. *)
Definition pointwise3 (f : R → R → R) (u v : V3) : V3 :=
  let '(a, b, c) := u in let '(x, y, z) := v in (f a x, f b y, f c z).

Definition reduce0 (f : R → R → R) (rows : list V3) : option V3 :=
  match rows with
  | [] => None
  | row :: rest => Some (foldl (pointwise3 f) row rest)
  end.

(** [r[:, None]] broadcast against [m] rows: one radius per row, or a single
    radius for all of them. *)
Definition broadcast_radii (m : nat) (rad : list R) : option (list R) :=
  if decide (length rad = m) then Some rad
  else match rad with
       | [x] => Some (replicate m x)
       | _ => None
       end.

(** The corners [P1] and [P2] that [focus] computes: the box around all
    points of [X] seen along the axes, the atoms with their radii. *)
Definition focus_box (s : View) : option (V3 * V3) :=
  let n := natoms (images s) in
  let P := (λ x, vecmat x (axes (camera s))) <$> X s in
  rad ← broadcast_radii (length (take n P)) (r (images s));
  let Plow :=
    zip_with (λ p x, sub3 p (x, x, x)) (take n P) rad ++ drop n P in
  P1 ← reduce0 Rmin Plow;
  let Phigh :=
    zip_with (λ p x, add3 p (2 * x, 2 * x, 2 * x)) (take n Plow) rad
    ++ drop n Plow in
  P2 ← reduce0 Rmax Phigh;
  Some (P1, P2).

Definition half3 (v : V3) : V3 := let '(x, y, z) := v in (x / 2, y / 2, z / 2).

(** [focus()].  For a box without width or height the quotient is an
    infinity or not-a-number in NumPy; here it is the unspecified [x / 0] of
    the real numbers. *)
Definition focus (s : View) : option View :=
  if bool_decide (natoms (images s) = 0%nat)
     && negb (show_unit_cell (window s))
  then draw true (set_camera (mkCamera (axes (camera s)) 1 (0, 0, 0)) s)
  else
    box ← focus_box s;
    let '(P1, P2) := box in
    let center := matvec (axes (camera s)) (half3 (add3 P1 P2)) in
    let S := scale3 1.3 (sub3 P2 P1) in
    let '(w, h) := size (window s) in
    let scale :=
      if decide (get3 0 S * IZR h < get3 1 S * IZR w)
      then IZR h / get3 1 S else IZR w / get3 0 S in
    draw true (set_camera (mkCamera (axes (camera s)) scale center) s).

(** *** Hiding and showing the selected atoms *)

Definition set_visible (vis : list bool) (s : View) : View :=
  let im := images s in
  mkView (mkImages (natoms im) (nimages im) (r im) (A im) (D im)
            (selected im) (selected_ordered im) vis (dynamic im)
            (shapes im) (Q im))
    (window s) (camera s) (X s) (B s) (B1 s) (frame s) (indices s) (P s)
    (labels s) (light_green_markings s) (atoms_to_rotate_0 s) (vectors s)
    (menu_change s) (orient_normal s) (pressed s) (foreground_gc s) (trace s).

(** The entries of [arr] whose flag in [mask] is set, overwritten by [v]. *)
Definition mask_fill (mask : list bool) (v : bool) (arr : list bool) : list bool :=
  imap (λ i x, if mask !! i is Some true then v else x) arr.

(** [arr[mask] = v] for a boolean mask; the mask must have one flag per
    entry, otherwise NumPy raises [IndexError]. *)
Definition mask_assign (mask : list bool) (v : bool) (arr : list bool)
    : option (list bool) :=
  guard (length mask = length arr);; Some (mask_fill mask v arr).

(** [hide_selected(button)] and [show_selected(button)]. *)
Definition hide_selected (s : View) : option View :=
  vis ← mask_assign (selected (images s)) false (visible (images s));
  draw true (set_visible vis s).

Definition show_selected (s : View) : option View :=
  vis ← mask_assign (selected (images s)) true (visible (images s));
  draw true (set_visible vis s).

(** *** Looking along a plane *)

(** The local names [i], [j] of [set_view] for the lattice planes; they stay
    unbound for any other name, and reading them raises [NameError]. *)
Definition plane_indices (plane_rotation : string) : option (nat * nat) :=
  if decide (plane_rotation = "a1a2Plane"%string) then Some (0, 1)%nat
  else if decide (plane_rotation = "a2a3Plane"%string) then Some (1, 2)%nat
  else if decide (plane_rotation = "a3a1Plane"%string) then Some (2, 0)%nat
  else if decide (plane_rotation = "a2a1Plane"%string) then Some (1, 0)%nat
  else if decide (plane_rotation = "a3a2Plane"%string) then Some (2, 1)%nat
  else if decide (plane_rotation = "a1a3Plane"%string) then Some (0, 2)%nat
  else None.

(** The axes built from two lattice vectors: [x1] normalised, [x2] made
    orthogonal to it and normalised, and their cross product, as columns. *)
Definition lattice_axes (x1 x2 : V3) : M3 :=
  let norm := Box.norm3 in
  let x1 := scale3 (/ norm x1) x1 in
  let x2 := sub3 x2 (scale3 (dot3 x1 x2) x1) in
  let x2 := scale3 (/ norm x2) x2 in
  let x3 := cross3 x1 x2 in
  transpose (x1, x2, x3).

(** [set_view(menuitem)] up to its last line, the call of
    [set_coordinates]: the array stored in [self.axes].  [rotate] is
    [ase.utils.rotate] and [plane_rotation] is [menuitem.get_name()]. *)
Definition set_view_axes (rotate : string → M3) (s : View)
    (plane_rotation : string) : option M3 :=
  if decide (plane_rotation = "xyPlane"%string)
  then Some (rotate "0.0x,0.0y,0.0z"%string)
  else if decide (plane_rotation = "yzPlane"%string)
  then Some (rotate "-90.0x,-90.0y,0.0z"%string)
  else if decide (plane_rotation = "zxPlane"%string)
  then Some (rotate "90.0x,0.0y,90.0z"%string)
  else if decide (plane_rotation = "yxPlane"%string)
  then Some (rotate "180.0x,0.0y,90.0z"%string)
  else if decide (plane_rotation = "zyPlane"%string)
  then Some (rotate "0.0x,90.0y,0.0z"%string)
  else if decide (plane_rotation = "xzPlane"%string)
  then Some (rotate "-90.0x,0.0y,0.0z"%string)
  else
    ij ← plane_indices plane_rotation;
    cell ← A (images s) !! frame s;
    Some (lattice_axes (row3 ij.1 cell) (row3 ij.2 cell)).

(** The calls that a run of [draw] appended to the trace. *)
Definition drawn (s s' : View) (calls : list Call) : Prop :=
  trace s' = trace s ++ calls.

End State.

(** *** A small scene to run the viewer on *)

(** An [argsort] by insertion: index [a] goes in front of the first index
    whose key is not smaller.  It meets [numpy_argsort] and lists equal keys
    with the later index first. *)
Definition key_at (keys : list R) (a : nat) : R := default 0 (keys !! a).

Fixpoint insert_index (keys : list R) (a : nat) (sorted : list nat) : list nat :=
  match sorted with
  | [] => [a]
  | b :: rest =>
      if decide (key_at keys a <= key_at keys b)
      then a :: b :: rest
      else b :: insert_index keys a rest
  end.

Definition insertion_argsort (keys : list R) : list nat :=
  foldl (λ acc a, insert_index keys a acc) [] (seq 0 (length keys)).

Definition identity3 : M3 := ((1, 0, 0), (0, 1, 0), (0, 0, 1)).

Definition demo_toolkit : Toolkit := {|
  Color := unit;
  Label := unit;
  GC := unit;
  argsort := insertion_argsort;
  rotation_matrix := λ _, identity3;
  eig := λ _, ((1, 1), ((1, 0), (0, 1))) |}.

Definition demo_collaborators : @Collaborators demo_toolkit := {|
  get_colors := λ s, Some (replicate (natoms (images s)) (tt : @Color demo_toolkit));
  scroll_event := λ s _, Some s;
  toggle_mode := λ _ s, Some s |}.

(** Two atoms of radius 1 at the same depth, five units apart, seen along
    the z axis at scale 100; the pointer was pressed on atom 0; bonds are
    shown. *)
Definition demo_images : @Images := {|
  natoms := 2;
  nimages := 1;
  r := [1; 1];
  A := [identity3];
  D := [zero3];
  selected := [false; false];
  selected_ordered := [];
  visible := [true; true];
  dynamic := [true; true];
  shapes := Some [(1, 1, 1); (1, 1, 1)];
  Q := [[(1, 0, 0, 0); (1, 0, 0, 0)]] |}.

Definition demo_view : @View demo_toolkit := {|
  images := demo_images;
  window := mkWindow true true false false false (0, 0)%Z;
  camera := mkCamera identity3 100 zero3;
  X := [(0, 0, 0); (5, 0, 0)];
  B := [];
  B1 := [];
  frame := 0;
  indices := [1; 0]%nat;
  P := [(0, 0); (500, 0)];
  labels := None;
  light_green_markings := false;
  atoms_to_rotate_0 := None;
  vectors := None;
  menu_change := false;
  orient_normal := None;
  pressed := mkPressed 1 (0, 0) 0 identity3 zero3;
  foreground_gc := (tt : @GC demo_toolkit);
  trace := [] |}.

(** The same scene in orient mode with two coincident atoms flagged; the
    menu bookkeeping is already running ([menu_change] set). *)
Definition coincident_view : @View demo_toolkit := {|
  images := demo_images;
  window := mkWindow true true false false false (0, 0)%Z;
  camera := mkCamera identity3 1 zero3;
  X := [(2, 3, 4); (2, 3, 4)];
  B := [];
  B1 := [];
  frame := 0;
  indices := [1; 0]%nat;
  P := [(2, -3); (2, -3)];
  labels := None;
  light_green_markings := false;
  atoms_to_rotate_0 := Some [true; true];
  vectors := None;
  menu_change := true;
  orient_normal := None;
  pressed := mkPressed 3 (0, 0) 0 identity3 zero3;
  foreground_gc := (tt : @GC demo_toolkit);
  trace := [] |}.


(** The demo scene in a window of 800 by 600 pixels. *)
Definition wide_view : @View demo_toolkit := {|
  images := demo_images;
  window := mkWindow true true false false false (800, 600)%Z;
  camera := mkCamera identity3 100 zero3;
  X := [(0, 0, 0); (5, 0, 0)];
  B := [];
  B1 := [];
  frame := 0;
  indices := [1; 0]%nat;
  P := [(0, 0); (500, 0)];
  labels := None;
  light_green_markings := false;
  atoms_to_rotate_0 := None;
  vectors := None;
  menu_change := false;
  orient_normal := None;
  pressed := mkPressed 1 (0, 0) 0 identity3 zero3;
  foreground_gc := (tt : @GC demo_toolkit);
  trace := [] |}.

(** A scene in orient mode: atoms of radius 1 at the positions [xs], flagged
    by [flags]; the menu bookkeeping is already running. *)
Definition orient_scene (xs : list V3) (flags : list bool) : @View demo_toolkit := {|
  images := {|
    natoms := length xs;
    nimages := 1;
    r := replicate (length xs) 1;
    A := [identity3];
    D := [zero3];
    selected := replicate (length xs) false;
    selected_ordered := [];
    visible := replicate (length xs) true;
    dynamic := replicate (length xs) true;
    shapes := None;
    Q := [] |};
  window := mkWindow true true false false false (0, 0)%Z;
  camera := mkCamera identity3 1 zero3;
  X := xs;
  B := [];
  B1 := [];
  frame := 0;
  indices := [];
  P := [];
  labels := None;
  light_green_markings := false;
  atoms_to_rotate_0 := Some flags;
  vectors := None;
  menu_change := true;
  orient_normal := None;
  pressed := mkPressed 3 (0, 0) 0 identity3 zero3;
  foreground_gc := (tt : @GC demo_toolkit);
  trace := [] |}.

End Gui.

(** ** The colour of every atom *)

(** [get_colors] and [get_color_scalars] on the attributes they read; the
    painting code above takes the resulting list through [Gui.get_colors]. *)
Module Colors.
Local Open Scope R_scope.

Section Palette.
Context {Color : Type}.

(** What [get_colors] reads: the colour mode with its tables, and the
    per-frame arrays of the trajectory. *)
Record Palette : Type := mkPalette {
  colormode : string;
  colors : gmap Z Color;               (* self.colors, by atomic number *)
  colormode_data : option (list Color * R * R);   (* None: attribute not set *)
  frame : nat;
  numbers : list Z;                    (* self.images.Z *)
  T : list (list Z);                   (* tags *)
  F : list (list V3);                  (* forces *)
  V : list (list V3);                  (* velocities *)
  q : list (list R);                   (* charges *)
  M : list (list R);                   (* magnetic moments *)
  dynamic : list bool }.

(** [(v**2).sum(1)**0.5], row by row. *)
Definition lengths (rows : list V3) : list R :=
  (λ v : V3, let '(x, y, z) := v in sqrt (x * x + y * y + z * z)) <$> rows.

(** [f * dynamic]: a flag counts as 1 or 0; the shapes must agree, a single
    entry on either side being broadcast. *)
Definition times_flags (f : list R) (flags : list bool) : option (list R) :=
  let mul (x : R) (b : bool) := x * (if b then 1 else 0) in
  if decide (length f = length flags) then Some (zip_with mul f flags)
  else match f, flags with
       | [x], _ => Some (mul x <$> flags)
       | _, [b] => Some ((λ x, mul x b) <$> f)
       | _, _ => None
       end.

(** [get_color_scalars()]; in any other mode the method returns [None],
    and the arithmetic of the caller raises [TypeError]. *)
Definition get_color_scalars (p : Palette) : option (list R) :=
  let i := frame p in
  if decide (colormode p = "tag"%string) then
    tags ← T p !! i; Some (IZR <$> (tags : list Z))
  else if decide (colormode p = "force"%string) then
    f ← F p !! i; times_flags (lengths f) (dynamic p)
  else if decide (colormode p = "velocity"%string) then
    v ← V p !! i; Some (lengths v)
  else if decide (colormode p = "charge"%string) then q p !! i
  else if decide (colormode p = "magmom"%string) then M p !! i
  else None.

(** [np.clip(x, lo, hi)]: [minimum(maximum(x, lo), hi)]. *)
Definition clip (x lo hi : Z) : Z := Z.min (Z.max x lo) hi.

(** [l[i]] for a Python list: a negative index counts from the end. *)
Definition py_item {A : Type} (l : list A) (i : Z) : option A :=
  if decide (0 ≤ i)%Z then l !! Z.to_nat i
  else if decide (- Z.of_nat (length l) ≤ i)%Z
       then l !! Z.to_nat (Z.of_nat (length l) + i)
       else None.

(** The entry of [indices] computed for one scalar; the cast [astype(int)]
    is taken in the unbounded integers. *)
Definition scale_index (N : nat) (cmin cmax x : R) : Z :=
  clip (py_int ((x - cmin) / (cmax - cmin) * INR N + 0.5)) 0 (Z.of_nat N - 1).

(** [get_colors()] with [rgb] left at [False]. *)
Definition get_colors (p : Palette) : option (list Color) :=
  if decide (colormode p = "jmol"%string) then
    mapM (λ z, colors p !! z) (numbers p)
  else
    scalars ← get_color_scalars p;
    data ← colormode_data p;
    let '(colorscale, cmin, cmax) := data in
    let N := length colorscale in
    mapM (λ x, py_item colorscale (scale_index N cmin cmax x)) scalars.

End Palette.

Arguments Palette : clear implicits.

(** Three atoms coloured by charge on a scale of four colours between
    0 and 1. *)
Definition charge_palette : Palette nat := {|
  colormode := "charge";
  colors := ∅;
  colormode_data := Some ([10; 11; 12; 13]%nat, 0, 1);
  frame := 0;
  numbers := [1; 8; 1]%Z;
  T := [];
  F := [];
  V := [];
  q := [[-1; 0.5; 3]];
  M := [];
  dynamic := [true; true; true] |}.

End Colors.

(** ** The line drawn for a bond *)

Module Segments.
Import Bonds.
Local Open Scope R_scope.

(** [arr[i]] for an integer index of an array: a negative index counts
    from the end. *)
Definition np_item {A : Type} (l : list A) (i : Z) : option A :=
  if decide (0 ≤ i)%Z then l !! Z.to_nat i
  else if decide (- Z.of_nat (length l) ≤ i)%Z
       then l !! Z.to_nat (Z.of_nat (length l) + i)
       else None.

(** [Af = repeat[:, np.newaxis] * A[frame]]. *)
Definition repeated_cell (repeat : Z * Z * Z) (cell : M3) : M3 :=
  let '(n0, n1, n2) := repeat in
  let '(a0, a1, a2) := cell in
  (scale3 (IZR n0) a0, scale3 (IZR n1) a1, scale3 (IZR n2) a2).

Definition times3 (v : V3) (k : R) : V3 :=
  let '(x, y, z) := v in (x * k, y * k, z * k).

(** The block of [set_frame] that places the bond lines, for one row of
    [self.bonds]: the start point written to [self.X[n + nc:]] and the end
    point written to [self.B[nc:]].  [P] is [self.images.P[frame]] and [rad]
    is [self.images.r]. *)
Definition bond_segment (P : list V3) (Af : M3) (rad : list R) (bond : Row)
    : option (V3 * V3) :=
  a ← np_item P (first bond);
  p2 ← np_item P (second bond);
  let '(o0, o1, o2) := offset bond in
  let b := sub3 (add3 p2 (vecmat (IZR o0, IZR o1, IZR o2) Af)) a in
  let d := sqrt (dot3 b b) in
  let r := (λ x, 0.65 * x) <$> rad in
  ra ← np_item r (first bond);
  rb ← np_item r (second bond);
  let x0 := ra / d in
  let x1 := rb / d in
  let start := add3 a (times3 b x0) in
  let b := times3 b (1.0 - x0 - x1) in
  let b := if any_nonzero (offset bond) then times3 b 0.5 else b in
  Some (start, add3 start b).

(** The rows of [self.X[n + nc:]] and of [self.B[nc:]]. *)
Definition bond_segments (P : list V3) (repeat : Z * Z * Z) (cell : M3)
    (rad : list R) (bonds : list Row) : option (list V3 * list V3) :=
  rows ← mapM (bond_segment P (repeated_cell repeat cell) rad) bonds;
  Some (rows.*1, rows.*2).

(** The far end of a bond as seen from its first atom: the second atom, or
    its periodic image. *)
Definition partner (P : list V3) (Af : M3) (bond : Row) : option V3 :=
  p2 ← np_item P (second bond);
  let '(o0, o1, o2) := offset bond in
  Some (add3 p2 (vecmat (IZR o0, IZR o1, IZR o2) Af)).

End Segments.

(** * Properties *)

(** Splitting an equation between rows, or between 3x3 arrays, into its
    components. *)
Ltac split_v3 := apply (f_equal2 pair); [apply (f_equal2 pair)|].
Ltac split_m3 :=
  apply (f_equal2 pair); [apply (f_equal2 pair)|]; split_v3.

(** ** Facts about the numeric helpers *)

Section NpFacts.
Local Open Scope R_scope.

Lemma py_int_between (x : R) (z : Z) :
  0 <= x -> IZR z <= x < IZR z + 1 -> py_int x = z.
Proof.
  intros Hx Hz. unfold py_int. destruct (decide (0 <= x)); [|lra].
  by apply Zfloor_eq.
Qed.

Lemma np_round_IZR (z : Z) : np_round (IZR z) = z.
Proof.
  unfold np_round. rewrite ZfloorZ.
  destruct (decide (IZR z - IZR z < 1 / 2)); [done|lra].
Qed.

End NpFacts.

(** ** The cell grid: segment counts *)

Section BoxFacts.
Local Open Scope R_scope.
Import Box.

Lemma length_block nn second i j :
  length (block nn second i j) = sum_list nn.
Proof.
  unfold block.
  assert (G : ∀ (f : nat → nat → list V3),
             (∀ c n, length (f c n) = n) →
             length (concat (imap f nn)) = sum_list nn).
  { induction nn as [|n nn' IH]; intros f Hf; [done|].
    rewrite imap_cons. simpl. rewrite length_app, Hf.
    f_equal. apply IH. intros c m. apply Hf. }
  apply G. intros c n. destruct second; unfold edge_rows2, edge_rows1;
    by rewrite ?length_fmap, length_seq.
Qed.

Lemma length_make_box V :
  length (make_box true V).1 = (4 * sum_list ((λ c, ticks (row3 c V)) <$> [0; 1; 2]))%nat
  ∧ length (make_box true V).2 = length (make_box true V).1.
Proof.
  unfold make_box. simpl.
  rewrite !length_app, !length_block. simpl. lia.
Qed.

Lemma length_plot_cell V :
  length (plot_cell V).1
    = (4 * sum_list ((λ c, ticks (row3 c V)) <$> [0; 1; 2]))%nat
  ∧ length (plot_cell V).2 = length (plot_cell V).1.
Proof.
  unfold plot_cell. simpl.
  rewrite !length_app, !length_fmap, !length_seq. simpl. lia.
Qed.

Lemma ticks_unit (v : V3) : dot3 v v = 1 -> ticks v = 3%nat.
Proof.
  intros Hv. unfold ticks. rewrite Hv, sqrt_1.
  rewrite (py_int_between _ 3); [done|lra|lra].
Qed.

Lemma announced_segments_value : announced_segments = 48%Z.
Proof.
  unfold announced_segments. rewrite (Zceil_eq 4); [done|lra].
Qed.

End BoxFacts.

(** C6, as the specification states it, fails: for the cubic cell of side 1
    the grid has 36 segments, not the announced
    [4 * 3 * max(2, ceil(1 / 0.3)) = 48]. *)
Lemma make_box_unit_cube_not_announced :
  Z.of_nat (length (Box.make_box true Box.unit_cube).1) ≠ Box.announced_segments.
Proof.
  rewrite announced_segments_value.
  destruct (length_make_box Box.unit_cube) as [-> _]. simpl.
  rewrite !ticks_unit by (simpl; lra). simpl. lia.
Qed.

(** C6, amended: for the cubic cell of side 1 and the step 0.3 the cell-grid
    builder stores [4 * 3 * max(2, floor(1 / 0.3)) = 36] segments, that is 36
    start points in [B1] and as many end points in [B2]; [plot_cell] returns
    as many. *)
Theorem make_box_unit_cube_segments :
  Z.of_nat (length (Box.make_box true Box.unit_cube).1)
    = (4 * 3 * Z.max 2 (Zfloor (1 / 0.3)))%Z
  ∧ length (Box.make_box true Box.unit_cube).1 = 36
  ∧ length (Box.make_box true Box.unit_cube).2 = 36
  ∧ length (Box.plot_cell Box.unit_cube).1 = 36
  ∧ length (Box.plot_cell Box.unit_cube).2 = 36.
Proof.
  destruct (length_make_box Box.unit_cube) as [E1 E2].
  destruct (length_plot_cell Box.unit_cube) as [E3 E4].
  rewrite E2, E1, E4, E3. simpl.
  rewrite !ticks_unit by (simpl; lra).
  rewrite (Zfloor_eq 3) by lra. simpl. split; [lia|done].
Qed.

(** ** More on the cell grid *)

Section BoxMoreFacts.
Local Open Scope R_scope.
Import Box.

Lemma ticks_ge_2 v : (2 ≤ ticks v)%nat.
Proof. unfold ticks. lia. Qed.

(** X1. Whatever the cell is, [make_box] stores as many start points as end
    points, [plot_cell] returns the same number of each, there are at least
    two ticks per edge, hence 24 segments or more, and nothing is stored
    when the unit cell is not shown. *)
Theorem make_box_segment_counts V :
  length (make_box true V).2 = length (make_box true V).1
  ∧ length (plot_cell V).1 = length (make_box true V).1
  ∧ length (plot_cell V).2 = length (make_box true V).1
  ∧ (24 ≤ length (make_box true V).1)%nat
  ∧ make_box false V = ([], []).
Proof.
  destruct (length_make_box V) as [E1 E2].
  destruct (length_plot_cell V) as [E3 E4].
  rewrite E2, E4, E3, E1. split_and!; try done.
  simpl. pose proof (ticks_ge_2 (row3 0 V)). pose proof (ticks_ge_2 (row3 1 V)).
  pose proof (ticks_ge_2 (row3 2 V)). lia.
Qed.

Lemma tick_fraction_bounds (n k : nat) :
  (k < n)%nat →
  0 <= INR k * (2 * (1 / (2 * INR n - 1)))
  ∧ INR k * (2 * (1 / (2 * INR n - 1))) + 1 / (2 * INR n - 1) <= 1.
Proof.
  intros Hk.
  assert (HK : 0 <= INR k) by apply pos_INR.
  assert (HN : INR k + 1 <= INR n).
  { rewrite <-S_INR. apply le_INR. lia. }
  set (D := 2 * INR n - 1). assert (HD : 0 < D) by (unfold D; lra).
  assert (Hu : D * (1 / D) = 1) by (field; lra).
  assert (Hpos : 0 < 1 / D) by (apply Rdiv_lt_0_compat; lra).
  set (u := 1 / D) in *. clearbody u. unfold D in *. split; nra.
Qed.

Lemma edge_rows_in_unit_cube c n i j row :
  (c < 3)%nat → (i = 0 ∨ i = 1) → (j = 0 ∨ j = 1) →
  row ∈ edge_rows1 c n i j ∨ row ∈ edge_rows2 c n i j → in_unit_cube row.
Proof.
  intros Hc Hi Hj Hrow.
  assert (∃ k, (k < n)%nat
            ∧ (row = set3 ((c + 2) mod 3) j
                       (set3 ((c + 1) mod 3) i
                          (set3 c (INR k * (2 * (1 / (2 * INR n - 1)))) zero3))
               ∨ row = set3 c
                         (INR k * (2 * (1 / (2 * INR n - 1)))
                          + 1 / (2 * INR n - 1))
                         (set3 ((c + 2) mod 3) j
                            (set3 ((c + 1) mod 3) i
                               (set3 c (INR k * (2 * (1 / (2 * INR n - 1))))
                                  zero3)))))
    as (k & Hk & Hcase).
  { destruct Hrow as [Hrow|Hrow].
    - unfold edge_rows1 in Hrow.
      apply list_elem_of_fmap in Hrow as (k & -> & Hk%elem_of_seq).
      exists k. split; [lia|by left].
    - unfold edge_rows2, edge_rows1 in Hrow.
      apply list_elem_of_fmap in Hrow as (row' & -> & Hrow').
      apply list_elem_of_fmap in Hrow' as (k & -> & Hk%elem_of_seq).
      exists k. split; [lia|right].
      destruct c as [|[|[|c]]]; try lia; reflexivity. }
  destruct (tick_fraction_bounds n k Hk) as [H0 H1].
  assert (0 <= 1 / (2 * INR n - 1)).
  { apply Rlt_le, Rdiv_lt_0_compat; [lra|].
    assert (1 <= INR n); [|lra]. rewrite <-INR_1. apply le_INR. lia. }
  destruct c as [|[|[|c]]]; try lia;
    destruct Hcase as [->| ->], Hi as [-> | ->], Hj as [-> | ->];
    simpl; repeat split; lra.
Qed.

(** X2. The grid built by [make_box] stays in the unit cell: every start point
    and every end point has its three fractional coordinates between 0 and
    1, so that multiplying by the cell matrix lands on the cell's edges. *)
Theorem make_box_in_unit_cube V :
  Forall in_unit_cube (make_box true V).1
  ∧ Forall in_unit_cube (make_box true V).2.
Proof.
  split; apply Forall_forall; intros row;
    unfold make_box, block; simpl; rewrite !app_nil_r, !elem_of_app;
    intros Hrow;
    repeat match goal with H : _ ∨ _ |- _ => destruct H as [H|H] end;
    (eapply edge_rows_in_unit_cube; [| | |(by left) || (by right)];
     [lia|lra|lra]).
Qed.

Lemma norm3_scale (k : R) (v : V3) : 0 <= k → norm3 (scale3 k v) = k * norm3 v.
Proof.
  intros Hk. destruct v as [[x y] z]. unfold norm3, scale3, dot3.
  replace (k * x * (k * x) + k * y * (k * y) + k * z * (k * z))
    with (k² * (x * x + y * y + z * z)) by (unfold Rsqr; ring).
  rewrite sqrt_mult; [|apply Rle_0_sqr|nra].
  by rewrite sqrt_Rsqr.
Qed.

(** However long a lattice vector is, the tick [h = v / (2 * n - 1)] that
    [plot_cell] steps along it is shorter than the step length 0.3. *)
Lemma tick_norm v :
  norm3 (scale3 (/ (2 * INR (ticks v) - 1)) v) < 0.3.
Proof.
  pose proof (ticks_ge_2 v) as H2.
  assert (HN2 : 2 <= INR (ticks v)).
  { change 2 with (INR 2). apply le_INR. lia. }
  assert (Hq : sqrt (dot3 v v) / 0.3 < 2 * INR (ticks v) - 1).
  { unfold ticks in *. set (q := sqrt (dot3 v v) / 0.3) in *.
    assert (0 <= q).
    { unfold q. apply Rmult_le_pos; [apply sqrt_pos|lra]. }
    rewrite INR_IZR_INZ, Z2Nat.id by lia.
    assert (py_int q = Zfloor q) as ->.
    { unfold py_int. by rewrite decide_True. }
    pose proof (Zfloor_bound q) as [_ Hq].
    destruct (Z.max_spec 2 (Zfloor q)) as [[Hlt ->]|[Hle ->]].
    - apply IZR_lt in Hlt. lra.
    - apply IZR_le in Hle. lra. }
  rewrite norm3_scale.
  2:{ apply Rlt_le, Rinv_0_lt_compat. lra. }
  unfold norm3.
  apply (Rmult_lt_reg_l (2 * INR (ticks v) - 1)); [lra|].
  rewrite <-Rmult_assoc, Rinv_r, Rmult_1_l by lra.
  unfold Rdiv in Hq. lra.
Qed.

Lemma Forall2_add_tick (h : V3) (l : list V3) :
  norm3 h < 0.3 →
  Forall2 (λ a b, norm3 (sub3 b a) < 0.3) l ((λ row, add3 row h) <$> l).
Proof.
  intros Hh. induction l as [|row l IH]; simpl; constructor; [|done].
  replace (sub3 (add3 row h) row) with h; [done|].
  destruct row as [[x y] z], h as [[a b] c]. simpl. split_v3; ring.
Qed.

(** X3. Every tick returned by [plot_cell] is shorter than the step length 0.3:
    the end point at an index lies less than 0.3 from the start point at
    that index, whatever the cell is. *)
Theorem plot_cell_ticks_short V :
  Forall2 (λ a b, norm3 (sub3 b a) < 0.3) (plot_cell V).1 (plot_cell V).2.
Proof.
  unfold plot_cell. simpl. rewrite !app_nil_r.
  repeat apply Forall2_app; apply Forall2_add_tick, tick_norm.
Qed.

End BoxMoreFacts.

(** ** The bond graph *)

Section BondFacts.
Import Bonds.

Lemma slice_fill_mid {A B} (set : B → A → A) v (pre mid post : list A) :
  slice_fill set (length pre) (length pre + length mid) v (pre ++ mid ++ post)
  = pre ++ (set v <$> mid) ++ post.
Proof.
  unfold slice_fill. rewrite !length_app.
  replace ((length pre + length mid)
             `min` (length pre + (length mid + length post)) - length pre)
    with (length mid) by lia.
  rewrite take_app_length, drop_app_length, take_app_length.
  by rewrite (assoc_L (++) pre mid post), <-length_app, drop_app_length.
Qed.

Lemma slice_assign_mid {A B} (set : B → A → A) vals (pre mid post : list A) :
  length vals = length mid →
  slice_assign set (length pre) (length pre + length mid) vals
    (pre ++ mid ++ post)
  = Some (pre ++ zip_with set vals mid ++ post).
Proof.
  intros Hlen. unfold slice_assign. rewrite !length_app.
  replace ((length pre + length mid)
             `min` (length pre + (length mid + length post)) - length pre)
    with (length mid) by lia.
  rewrite decide_True by done.
  rewrite take_app_length, drop_app_length, take_app_length.
  by rewrite (assoc_L (++) pre mid post), <-length_app, drop_app_length.
Qed.

Lemma build_rows (a : Z) (indices : list nat) (offsets : list Offset) junk :
  length indices = length offsets →
  zip_with set_offset offsets
    (zip_with set_second (Z.of_nat <$> indices)
       (set_first a <$> replicate (length indices) junk))
  = zip_with (λ a2 o, mkRow a (Z.of_nat a2) o) indices offsets.
Proof.
  revert offsets. induction indices as [|i indices IH]; intros [|o offsets] H;
    simplify_eq/=; [done|]. f_equal. by apply IH.
Qed.

Lemma mask_rows_prefix {A} (f : A → bool) (l rest : list A) :
  mask_rows (f <$> l) (l ++ rest) = filter (λ x, f x = true) l.
Proof.
  unfold mask_rows. induction l as [|x l IH]; simpl.
  - by destruct rest.
  - rewrite !filter_cons. simpl.
    destruct (decide (f x = true)); simpl; by rewrite <-IH.
Qed.

Lemma bumps_ok (indices : list nat) (c : list Z) :
  (∀ a2, a2 ∈ indices → a2 < length c) →
  ∃ c', foldl (λ acc a2, acc ≫= bump a2 1) (Some c) indices = Some c'
        ∧ length c' = length c.
Proof.
  revert c. induction indices as [|i indices IH]; intros c Hin; simpl.
  - by exists c.
  - destruct (lookup_lt_is_Some_2 c i) as [x Hx]; [apply Hin; left|].
    unfold bump at 2. rewrite Hx. simpl.
    destruct (IH (<[i:=(x + 1)%Z]> c)) as (c' & E & L).
    { intros a2 Ha2. rewrite length_insert. apply Hin. by right. }
    exists c'. split; [done|]. by rewrite L, length_insert.
Qed.

Lemma forward_S nl n : forward nl (S n) = forward nl n ++ rows_of nl n.
Proof.
  unfold forward. rewrite seq_S, fmap_app, concat_app. simpl.
  by rewrite app_nil_r.
Qed.

Lemma length_rows_of nl natoms a :
  NeighborList_ok natoms nl → a < natoms →
  length (rows_of nl a) = length (get_neighbors nl a).1.
Proof.
  intros Hok Ha. unfold rows_of. apply length_zip_with_l_eq.
  by apply (ok_lengths _ _ Hok).
Qed.

Lemma forward_le nl n m :
  n ≤ m → length (forward nl n) ≤ length (forward nl m).
Proof.
  induction 1 as [|m _ IH]; [done|]. rewrite forward_S, length_app. lia.
Qed.

(** The loop over the atoms fills the first rows with the pairs of the
    neighbour list, atom after atom. *)
Lemma bind_loop nl natoms nb junk n :
  NeighborList_ok natoms nl → n ≤ natoms →
  length (forward nl natoms) ≤ nb →
  ∃ c,
    foldl (λ acc a, acc ≫= λ st, bind_body nl st a)
      (Some (mkLoop (replicate nb junk) (replicate natoms 0%Z) 0 None))
      (seq 0 n)
    = Some (mkLoop (forward nl n
                      ++ replicate (nb - length (forward nl n)) junk)
              c (length (forward nl n))
              (match n with 0 => None | S _ => Some (length (forward nl n)) end))
    ∧ length c = natoms.
Proof.
  intros Hok Hn Hnb. induction n as [|n IH].
  - exists (replicate natoms 0%Z). simpl. rewrite Nat.sub_0_r.
    by rewrite length_replicate.
  - destruct IH as (c & E & Lc); [lia|].
    rewrite seq_S, foldl_app, E. simpl. clear E.
    unfold bind_body. simpl.
    pose proof (length_rows_of nl natoms n Hok) as Lrows.
    pose proof (ok_lengths _ _ Hok n) as Llen.
    pose proof (ok_atoms _ _ Hok n) as Hatoms.
    pose proof (forward_le nl (S n) natoms) as Hle.
    rewrite forward_S, length_app in Hle.
    rewrite forward_S.
    unfold rows_of in *.
    destruct (get_neighbors nl n) as [indices offsets]. simpl in *.
    destruct (lookup_lt_is_Some_2 c n) as [x Hx]; [lia|].
    unfold bump at 2. rewrite Hx. simpl.
    destruct (bumps_ok indices (<[n:=(x + Z.of_nat (length indices))%Z]> c))
      as (c' & -> & Lc').
    { intros a2 Ha2. rewrite length_insert, Lc. apply Hatoms; [lia|done]. }
    simpl. rewrite length_insert in Lc'.
    set (F := forward nl n) in *.
    set (k := length indices) in *.
    assert (Hk : length (zip_with (λ a2 o, mkRow (Z.of_nat n) (Z.of_nat a2) o)
                           indices offsets) = k) by (apply Lrows; lia).
    replace (nb - length F) with (k + (nb - (length F + k))) by lia.
    rewrite replicate_add.
    replace (length F + k) with (length F + length (replicate k junk))
      by (by rewrite length_replicate).
    rewrite slice_fill_mid.
    replace (length (replicate k junk))
      with (length (set_first (Z.of_nat n) <$> replicate k junk))
      by (by rewrite length_fmap).
    rewrite slice_assign_mid
      by (by rewrite !length_fmap, length_replicate).
    simpl.
    replace (length (set_first (Z.of_nat n) <$> replicate k junk))
      with (length (zip_with set_second (Z.of_nat <$> indices)
                      (set_first (Z.of_nat n) <$> replicate k junk))).
    2:{ rewrite length_zip_with_l_eq; by rewrite !length_fmap, ?length_replicate. }
    rewrite slice_assign_mid.
    2:{ rewrite length_zip_with_l_eq; rewrite !length_fmap, ?length_replicate;
        [symmetry; apply Llen; lia|done]. }
    simpl. unfold k at 2. rewrite build_rows by (apply Llen; lia).
    exists c'. split; [|lia].
    subst k.
    assert (Hk2 : length (zip_with set_second (Z.of_nat <$> indices)
                            (set_first (Z.of_nat n)
                               <$> replicate (length indices) junk))
                  = length indices).
    { rewrite length_zip_with_l_eq; by rewrite !length_fmap, ?length_replicate. }
    rewrite !Hk2, length_app, Hk.
    by rewrite <-(assoc_L (++)).
Qed.

(** Without periodic pair [bind] returns the pairs of the neighbour list,
    atom after atom. *)
Lemma bind_no_periodic nl natoms junk c0 :
  NeighborList_ok natoms nl → npbcneighbors nl = 0 →
  ∃ c, bind true natoms nl junk c0 = Some (forward nl natoms, Some c)
       ∧ length c = natoms.
Proof.
  intros Hok Hp. unfold bind. simpl.
  pose proof (ok_npbcneighbors _ _ Hok) as Hfilter. rewrite Hp in Hfilter.
  rewrite Hp, Nat.add_0_r, (ok_nneighbors _ _ Hok).
  set (F := forward nl natoms) in *.
  assert (filter (λ b, any_nonzero (offset b) = true) F = []) as Hnone.
  { apply length_zero_iff_nil. lia. }
  destruct (decide (length F = 0)) as [E0|Hne].
  { exists (replicate natoms 0%Z). rewrite E0, length_replicate.
    by assert (F = []) as -> by (by apply length_zero_iff_nil). }
  unfold fill_pairs.
  destruct (bind_loop nl natoms (length F) junk natoms Hok)
    as (c & E & Lc); [done|subst F; lia|].
  fold F in E. rewrite E. clear E. simpl.
  rewrite Nat.sub_diag. simpl. rewrite app_nil_r.
  destruct natoms as [|natoms'].
  { exfalso. subst F. simpl in Hne. lia. }
  simpl. rewrite firstn_all.
  assert (Hpick : mask_index ((any_nonzero ∘ offset) <$> F) F = Some []).
  { unfold mask_index. rewrite option_guard_True by (by rewrite length_fmap).
    simpl. f_equal. rewrite <-Hnone.
    pose proof (mask_rows_prefix (any_nonzero ∘ offset) F []) as Hm.
    by rewrite app_nil_r in Hm. }
  assert (Hassign : ∀ {B} (set : B → Row → Row),
             slice_assign set (length F) (length F) [] F = Some F).
  { intros B set. unfold slice_assign.
    replace (length F `min` length F - length F) with 0 by lia.
    rewrite decide_True by done. simpl.
    by rewrite firstn_all, Nat.add_0_r, drop_all, app_nil_r. }
  rewrite Hpick. simpl. rewrite Hassign. simpl.
  rewrite Hpick. simpl. rewrite Hassign. simpl.
  rewrite Hpick. simpl. rewrite Hassign. simpl.
  by exists c.
Qed.

(** With a periodic pair the mask has fewer flags than the array has rows,
    and the first read through it raises. *)
Lemma bind_periodic nl natoms junk c0 :
  NeighborList_ok natoms nl → 0 < npbcneighbors nl →
  bind true natoms nl junk c0 = None.
Proof.
  intros Hok Hp. unfold bind. simpl.
  rewrite (ok_nneighbors _ _ Hok).
  set (F := forward nl natoms) in *.
  destruct (decide (length F + npbcneighbors nl = 0)) as [E0|_]; [lia|].
  unfold fill_pairs.
  destruct (bind_loop nl natoms (length F + npbcneighbors nl) junk natoms Hok)
    as (c & E & Lc); [done|subst F; lia|].
  fold F in E. rewrite E. clear E. simpl.
  destruct natoms as [|natoms'].
  { exfalso. pose proof (ok_npbcneighbors _ _ Hok) as Hf. simpl in Hf. lia. }
  simpl. rewrite take_app_length.
  unfold mask_index. rewrite option_guard_False; [done|].
  rewrite length_fmap, length_app, length_replicate. lia.
Qed.

End BondFacts.

Lemma two_atoms_ok : Bonds.NeighborList_ok 2 Bonds.two_atoms.
Proof.
  split.
  - intros [|[|a]] Ha; simpl; (done || lia).
  - intros [|[|a]] a2 Ha; simpl; rewrite ?elem_of_cons, ?elem_of_nil;
      intros; (lia || naive_solver lia).
  - reflexivity.
  - reflexivity.
  - intros [|[|a]] Ha; vm_compute; repeat constructor;
      rewrite ?elem_of_cons, ?elem_of_nil; intros Hin;
      repeat (destruct Hin as [Hin|Hin]); done.
Defined.

Lemma one_pair_ok : Bonds.NeighborList_ok 2 Bonds.one_pair.
Proof.
  split.
  - intros [|[|a]] Ha; simpl; (done || lia).
  - intros [|[|a]] a2 Ha; simpl; rewrite ?elem_of_cons, ?elem_of_nil;
      intros; (lia || naive_solver lia).
  - reflexivity.
  - reflexivity.
  - intros [|[|a]] Ha; vm_compute; repeat constructor;
      rewrite ?elem_of_cons, ?elem_of_nil; intros Hin;
      repeat (destruct Hin as [Hin|Hin]); done.
Defined.

(** C1 at its failing input: the neighbour list of two atoms in which atom
    0 sees atom 1 inside the cell and once more through the cell boundary.
    The loop stores both pairs in the array held by [self.bonds] and leaves
    the third row as [np.empty] made it; the mask built from the two filled
    rows is then used on all three rows, the read raises, and the periodic
    pair stays in the array without its mirror. *)
Theorem bind_periodic_pair_raises :
  Bonds.NeighborList_ok 2 Bonds.two_atoms
  ∧ Bonds.fill_pairs Bonds.two_atoms 2 3 (Bonds.mkRow 7 7 (7, 7, 7)%Z)
    = Some (Bonds.mkLoop
              [Bonds.mkRow 0 1 (0, 0, 0)%Z; Bonds.mkRow 0 1 (1, 0, 0)%Z;
               Bonds.mkRow 7 7 (7, 7, 7)%Z]
              [2; 2]%Z 2 (Some 2))
  ∧ Bonds.mask_index [false; true]
      [Bonds.mkRow 0 1 (0, 0, 0)%Z; Bonds.mkRow 0 1 (1, 0, 0)%Z;
       Bonds.mkRow 7 7 (7, 7, 7)%Z] = None
  ∧ Bonds.bind true 2 Bonds.two_atoms (Bonds.mkRow 7 7 (7, 7, 7)%Z) None
    = None.
Proof. split; [apply two_atoms_ok|]. by split_and!. Qed.

(** ** More on the bond graph *)

Section BondMoreFacts.
Import Bonds.

(** X4. For a neighbour list without periodic pair the array built by
    [bind] is the list of its pairs, atom after atom: it has [nneighbors]
    rows, none of the uninitialised rows of [np.empty] is left, and there is
    one coordination number per atom.  For a neighbour list with a periodic
    pair [bind] raises: its mask has one flag per filled row and is used on
    the whole array. *)
Theorem bind_layout natoms nl junk c0 :
  NeighborList_ok natoms nl →
  (npbcneighbors nl = 0%nat →
   ∃ c, bind true natoms nl junk c0 = Some (forward nl natoms, Some c)
        ∧ length (forward nl natoms) = nneighbors nl
        ∧ length c = natoms)
  ∧ ((0 < npbcneighbors nl)%nat → bind true natoms nl junk c0 = None).
Proof.
  intros Hok. split.
  - intros Hp. destruct (bind_no_periodic nl natoms junk c0 Hok Hp) as (c & E & Lc).
    exists c. split; [done|]. split; [|done].
    by rewrite (ok_nneighbors _ _ Hok).
  - by apply bind_periodic.
Qed.

Lemma bumps_None (indices : list nat) :
  foldl (λ acc a2, acc ≫= bump a2 1) None indices = None.
Proof. by induction indices. Qed.

Lemma bump_lookup a k c c' x :
  bump a k c = Some c' →
  c' !! x = (if decide (x = a) then (λ v, (v + k)%Z) <$> c !! x else c !! x).
Proof.
  unfold bump. intros Hb. apply bind_Some in Hb as (v & Hv & [= <-]).
  destruct (decide (x = a)) as [->|Hne].
  - rewrite list_lookup_insert_eq by (by eapply lookup_lt_Some).
    by rewrite Hv.
  - by rewrite list_lookup_insert_ne.
Qed.

Lemma bumps_lookup (indices : list nat) c c' x v :
  foldl (λ acc a2, acc ≫= bump a2 1) (Some c) indices = Some c' →
  c !! x = Some v →
  c' !! x = Some (v + Z.of_nat (length (filter (λ a2, a2 = x) indices)))%Z.
Proof.
  revert c v. induction indices as [|a indices IH]; intros c v Hf Hx; simpl in *.
  - simplify_eq. rewrite Hx. f_equal. lia.
  - destruct (bump a 1 c) as [c1|] eqn:Hb; [|by rewrite bumps_None in Hf].
    simpl in Hf. pose proof (bump_lookup _ _ _ _ x Hb) as Hx1.
    rewrite Hx in Hx1. rewrite filter_cons.
    destruct (decide (x = a)) as [->|Hne]; simpl in Hx1.
    + rewrite decide_True by done. rewrite (IH c1 _ Hf Hx1). simpl.
      f_equal. lia.
    + rewrite decide_False by done. by rewrite (IH c1 _ Hf Hx1).
Qed.

Lemma rows_of_first (a : nat) (indices : list nat) (offsets : list Offset) x :
  length indices = length offsets →
  length (filter (λ b, first b = Z.of_nat x)
            (zip_with (λ a2 o, mkRow (Z.of_nat a) (Z.of_nat a2) o)
               indices offsets))
  = (if decide (x = a) then length indices else 0%nat).
Proof.
  revert offsets. induction indices as [|i indices IH]; intros [|o offsets] H;
    simplify_eq/=; [by destruct (decide _)|].
  rewrite filter_cons. simpl. specialize (IH offsets H).
  destruct (decide (x = a)) as [->|Hne].
  - rewrite decide_True by done. simpl. by rewrite IH.
  - rewrite decide_False by lia. done.
Qed.

Lemma rows_of_second (a : nat) (indices : list nat) (offsets : list Offset) x :
  length indices = length offsets →
  length (filter (λ b, second b = Z.of_nat x)
            (zip_with (λ a2 o, mkRow (Z.of_nat a) (Z.of_nat a2) o)
               indices offsets))
  = length (filter (λ a2, a2 = x) indices).
Proof.
  revert offsets. induction indices as [|i indices IH]; intros [|o offsets] H;
    simplify_eq/=; [done|].
  rewrite !filter_cons. simpl. specialize (IH offsets H).
  destruct (decide (i = x)) as [->|Hne].
  - rewrite decide_True by done. simpl. by rewrite IH.
  - rewrite decide_False by lia. done.
Qed.

Lemma touching_S nl natoms n x :
  NeighborList_ok natoms nl → (n < natoms)%nat →
  touching nl (S n) x
  = (touching nl n x
     + (if decide (x = n) then length (get_neighbors nl n).1 else 0)
     + length (filter (λ a2, a2 = x) (get_neighbors nl n).1))%nat.
Proof.
  intros Hok Hn. unfold touching. rewrite forward_S, !filter_app, !length_app.
  unfold rows_of.
  rewrite rows_of_first, rows_of_second by (by apply (ok_lengths _ _ Hok)).
  lia.
Qed.

Lemma loop_None nl (l : list nat) :
  foldl (λ acc a, acc ≫= λ st, bind_body nl st a) None l = None.
Proof. by induction l. Qed.

Lemma bind_loop_coordination nl natoms junk nb n st :
  NeighborList_ok natoms nl → (n ≤ natoms)%nat →
  foldl (λ acc a, acc ≫= λ st, bind_body nl st a)
    (Some (mkLoop (replicate nb junk) (replicate natoms 0%Z) 0 None))
    (seq 0 n) = Some st →
  ∀ x, (x < natoms)%nat →
       l_coordination st !! x = Some (Z.of_nat (touching nl n x)).
Proof.
  intros Hok. revert st. induction n as [|n IH]; intros st Hn Hf x Hx.
  - simpl in Hf. simplify_eq. simpl. by rewrite lookup_replicate_2.
  - rewrite seq_S, foldl_app in Hf. simpl in Hf.
    destruct (foldl _ _ (seq 0 n)) as [st0|] eqn:Hf0; [|done].
    simpl in Hf. specialize (IH st0 ltac:(lia) eq_refl x Hx).
    rewrite (touching_S nl natoms n x Hok) by lia.
    unfold bind_body in Hf.
    destruct (get_neighbors nl n) as [indices offsets]. simpl.
    apply bind_Some in Hf as (c1 & Hc1 & Hf).
    apply bind_Some in Hf as (c2 & Hc2 & Hf).
    apply bind_Some in Hf as (b2 & _ & Hf).
    apply bind_Some in Hf as (b3 & _ & Hf). simplify_eq. simpl.
    pose proof (bump_lookup _ _ _ _ x Hc1) as Hx1. rewrite IH in Hx1.
    destruct (decide (x = n)) as [->|Hne]; simpl in Hx1;
      rewrite (bumps_lookup _ _ _ _ _ Hc2 Hx1); f_equal; lia.
Qed.

(** X5. The coordination numbers left by [bind]: the entry of an atom is the
    number of listed pairs that touch it, those it starts plus those it
    ends. *)
Theorem bind_coordination natoms nl junk c0 bonds c x :
  NeighborList_ok natoms nl →
  bind true natoms nl junk c0 = Some (bonds, Some c) →
  (x < natoms)%nat →
  c !! x = Some (Z.of_nat (touching nl natoms x)).
Proof.
  intros Hok Hbind Hx. unfold bind in Hbind. simpl in Hbind.
  destruct (decide (nneighbors nl + npbcneighbors nl = 0)%nat) as [E0|Hne].
  - simplify_eq. rewrite lookup_replicate_2 by done.
    assert (forward nl natoms = []) as HF.
    { apply length_zero_iff_nil. rewrite <-(ok_nneighbors _ _ Hok). lia. }
    unfold touching. by rewrite HF.
  - apply bind_Some in Hbind as (st & Hloop & Hbind).
    apply bind_Some in Hbind as (n2 & _ & Hbind).
    apply bind_Some in Hbind as (r1 & _ & Hbind).
    apply bind_Some in Hbind as (b1 & _ & Hbind).
    apply bind_Some in Hbind as (r2 & _ & Hbind).
    apply bind_Some in Hbind as (b2 & _ & Hbind).
    apply bind_Some in Hbind as (r3 & _ & Hbind).
    apply bind_Some in Hbind as (b3 & _ & Hbind). simplify_eq.
    by eapply bind_loop_coordination.
Qed.

End BondMoreFacts.

Lemma bind_layout_witness :
  (∃ c, Bonds.bind true 2 Bonds.one_pair (Bonds.mkRow 7 7 (7, 7, 7)%Z) None
        = Some (Bonds.forward Bonds.one_pair 2, Some c)
        ∧ length (Bonds.forward Bonds.one_pair 2) = 1%nat
        ∧ length c = 2%nat)
  ∧ Bonds.bind true 2 Bonds.two_atoms (Bonds.mkRow 7 7 (7, 7, 7)%Z) None
    = None.
Proof.
  split.
  - apply (proj1 (bind_layout 2 Bonds.one_pair (Bonds.mkRow 7 7 (7, 7, 7)%Z)
                    None one_pair_ok)).
    reflexivity.
  - apply (proj2 (bind_layout 2 Bonds.two_atoms (Bonds.mkRow 7 7 (7, 7, 7)%Z)
                    None two_atoms_ok)).
    simpl. lia.
Defined.

Lemma bind_coordination_witness :
  ([1; 1]%Z : list Z) !! 0%nat
  = Some (Z.of_nat (Bonds.touching Bonds.one_pair 2 0)).
Proof.
  apply (bind_coordination 2 Bonds.one_pair (Bonds.mkRow 7 7 (7, 7, 7)%Z) None
           [Bonds.mkRow 0 1 (0, 0, 0)%Z] [1; 1]%Z 0 one_pair_ok);
    [reflexivity|lia].
Defined.

(** ** The insertion argsort meets NumPy's contract *)

Section ArgsortFacts.
Import Gui.
Local Open Scope R_scope.

Lemma insert_index_perm keys a l : insert_index keys a l ≡ₚ a :: l.
Proof.
  induction l as [|b l IH]; simpl; [done|].
  destruct (decide _); [done|]. rewrite IH. apply Permutation_swap.
Qed.

Lemma insertion_fold_perm keys l acc :
  foldl (λ acc a, insert_index keys a acc) acc l ≡ₚ l ++ acc.
Proof.
  revert acc. induction l as [|a l IH]; intros acc; simpl; [done|].
  rewrite IH, insert_index_perm. by rewrite Permutation_middle.
Qed.

Lemma insert_index_sorted keys a l :
  StronglySorted (λ a b, key_at keys a <= key_at keys b) l →
  StronglySorted (λ a b, key_at keys a <= key_at keys b) (insert_index keys a l).
Proof.
  induction 1 as [|b l Hs IH Hb]; simpl.
  - repeat constructor.
  - destruct (decide _) as [Hle|Hgt].
    + constructor; [by constructor|]. constructor; [done|].
      eapply Forall_impl; [exact Hb|]. simpl. intros c Hc. lra.
    + constructor; [done|].
      rewrite (insert_index_perm keys a l). constructor; [lra|done].
Qed.

Lemma insertion_fold_sorted keys l acc :
  StronglySorted (λ a b, key_at keys a <= key_at keys b) acc →
  StronglySorted (λ a b, key_at keys a <= key_at keys b)
    (foldl (λ acc a, insert_index keys a acc) acc l).
Proof.
  revert acc. induction l as [|a l IH]; intros acc Hacc; simpl; [done|].
  by apply IH, insert_index_sorted.
Qed.

Lemma strongly_sorted_lookup {A} (rel : A → A → Prop) l i j a b :
  StronglySorted rel l → (i < j)%nat →
  l !! i = Some a → l !! j = Some b → rel a b.
Proof.
  intros Hs. revert i j. induction Hs as [|c l Hs IH Hc]; intros i j Hij Hi Hj.
  - by rewrite lookup_nil in Hi.
  - destruct j as [|j]; [lia|]. destruct i as [|i]; simpl in *.
    + simplify_eq. eapply Forall_forall; [exact Hc|].
      by eapply list_elem_of_lookup_2.
    + eapply (IH i j); [lia|done..].
Qed.

Lemma insertion_argsort_contract : numpy_argsort insertion_argsort.
Proof.
  split.
  - intros keys. unfold insertion_argsort.
    by rewrite insertion_fold_perm, app_nil_r.
  - intros keys i j a b x y Hij Hi Hj Ha Hb.
    pose proof (strongly_sorted_lookup _ _ i j a b
                  (insertion_fold_sorted keys (seq 0 (length keys)) []
                     (SSorted_nil _)) Hij Hi Hj) as Hle.
    unfold key_at in Hle. by rewrite Ha, Hb in Hle.
Qed.


End ArgsortFacts.

(** ** The viewer *)

Section GuiFacts.
Import Gui.
Context `{T : Toolkit} `{C : !Collaborators}.
Local Open Scope R_scope.

Lemma draw_inv st s s' :
  draw st s = Some s' →
  ∃ calls, s' = set_projection (draw_order s) (screen_positions s) calls s.
Proof.
  unfold draw. intros Hd. simplify_option_eq; by eexists.
Qed.

Lemma length_projected s : length (projected s) = length (X s).
Proof. unfold projected. by rewrite length_fmap. Qed.

Lemma length_screen_positions s :
  wf_view s → length (screen_positions s) = natoms (images s).
Proof.
  intros Hwf. unfold screen_positions.
  rewrite length_fmap, length_take, length_projected.
  pose proof (wf_X s Hwf). lia.
Qed.

Lemma length_screen_radii s : length (screen_radii s) = length (r (images s)).
Proof. unfold screen_radii. destruct (show_bonds _); by rewrite length_fmap. Qed.

Lemma corners_total s :
  wf_view s → ∃ A, corners s = Some A ∧ length A = natoms (images s).
Proof.
  intros Hwf. unfold corners.
  pose proof (length_screen_positions s Hwf) as LP.
  pose proof (length_screen_radii s) as LR. rewrite (wf_r s Hwf) in LR.
  rewrite option_guard_True by congruence. simpl.
  eexists. split; [done|]. rewrite length_zip_with_l_eq; congruence.
Qed.

Lemma paint_atom_total s colors A V a :
  wf_view s → length colors = natoms (images s) →
  length A = natoms (images s) →
  match V with Some V => (natoms (images s) ≤ length V)%nat | None => True end →
  (a < natoms (images s))%nat →
  is_Some (paint_atom s colors A V a).
Proof.
  intros Hwf Hcol HA HV Ha. unfold paint_atom.
  destruct (lookup_lt_is_Some_2 (diameters s) a) as [ra ->].
  { unfold diameters. rewrite length_fmap, length_screen_radii, (wf_r s Hwf). lia. }
  destruct (lookup_lt_is_Some_2 (visible (images s)) a) as [vis ->].
  { rewrite (wf_visible s Hwf). lia. }
  rewrite (wf_markings s Hwf). simpl.
  destruct vis; [|done].
  destruct (lookup_lt_is_Some_2 colors a) as [col ->]; [lia|].
  destruct (lookup_lt_is_Some_2 (selected (images s)) a) as [sel ->].
  { rewrite (wf_selected s Hwf). lia. }
  destruct (lookup_lt_is_Some_2 A a) as [c ->]; [lia|].
  destruct (lookup_lt_is_Some_2 (dynamic (images s)) a) as [dyn ->].
  { rewrite (wf_dynamic s Hwf). lia. }
  simpl.
  assert (∃ l, match labels s with
               | Some ls => ls !! frame s ≫= λ row, row !! a ≫= λ l,
                              Some [TextLabel c.1 c.2 l]
               | None => Some []
               end = Some l) as [l ->].
  { pose proof (wf_labels s Hwf) as Hl. destruct (labels s) as [ls|]; [|by eexists].
    destruct Hl as (row & -> & Hrow). simpl.
    destruct (lookup_lt_is_Some_2 row a) as [x ->]; [lia|]. by eexists. }
  simpl. destruct V as [V|]; [|done].
  destruct (lookup_lt_is_Some_2 (projected s) a) as [xa ->].
  { rewrite length_projected. pose proof (wf_X s Hwf). lia. }
  destruct (lookup_lt_is_Some_2 V a) as [va ->]; [lia|]. done.
Qed.

Lemma paint_segment_total s disp a :
  wf_view s → (a < length (X s) - natoms (images s))%nat →
  is_Some (paint_segment s disp a).
Proof.
  intros Hwf Ha. unfold paint_segment.
  destruct (lookup_lt_is_Some_2 (starts s) a) as [x1 ->].
  { unfold starts. by rewrite length_fmap, length_drop, length_projected. }
  destruct (lookup_lt_is_Some_2 (ends s) a) as [x2 ->].
  { unfold ends. rewrite length_fmap. pose proof (wf_B s Hwf). lia. }
  done.
Qed.

Lemma argsort_range keys a :
  numpy_argsort argsort → a ∈ argsort keys → (a < length keys)%nat.
Proof.
  intros Hsort Ha. rewrite (argsort_perm _ Hsort keys) in Ha.
  apply elem_of_seq in Ha. lia.
Qed.

Lemma draw_axes_total s : numpy_argsort argsort → is_Some (draw_axes s).
Proof.
  intros Hsort. unfold draw_axes.
  match goal with |- is_Some (mapM ?f ?l ≫= _) =>
    destruct (mapM_is_Some_2 f l) as [calls ->]; [|done] end.
  apply Forall_forall. intros i Hi. apply argsort_range in Hi; [|done].
  simpl in *. by rewrite option_guard_True.
Qed.

(** On a well-formed view [draw] raises nothing. *)
Lemma draw_total st s :
  numpy_argsort argsort → colors_per_atom → wf_view s → is_Some (draw st s).
Proof.
  intros Hsort Hcol Hwf. unfold draw.
  destruct (corners_total s Hwf) as (A & -> & LA).
  unfold displacement.
  destruct (lookup_lt_is_Some_2 (D (images s)) (frame s)) as [d ->];
    [apply (wf_D s Hwf)|]. simpl.
  assert (∃ V, (if show_velocities (window s) || show_forces (window s)
                then vectors s ≫= λ vs : list (list V3),
                       vs !! frame s ≫= λ vf : list V3,
                         Some (Some ((λ v, vecmat v (view_axes s)) <$> vf))
                else Some None) = Some V
               ∧ match V with
                 | Some V => (natoms (images s) ≤ length V)%nat
                 | None => True
                 end) as (V & -> & HV).
  { pose proof (wf_vectors s Hwf) as Hv.
    destruct (_ || _); [|by eexists].
    destruct Hv as (vs & vf & -> & Hvf & Hlen); [done|]. simpl.
    rewrite Hvf. simpl. eexists. split; [done|]. simpl. by rewrite length_fmap. }
  simpl. destruct (Hcol s) as (cs & -> & Lcs). simpl.
  match goal with |- is_Some (mapM ?f ?l ≫= _) =>
    destruct (mapM_is_Some_2 f l) as [painted ->] end.
  { apply Forall_forall. intros a Ha. simpl.
    apply (argsort_range _ _ Hsort) in Ha.
    unfold depths in Ha. rewrite length_fmap, length_projected in Ha.
    destruct (decide _).
    - by apply paint_atom_total.
    - apply paint_segment_total; [done|lia]. }
  simpl. destruct (show_axes _); [|done].
  by destruct (draw_axes_total s Hsort) as [ax ->].
Qed.

Lemma wf_set_projection ind pos calls s :
  wf_view s → length pos = natoms (images s) →
  wf_view (set_projection ind pos calls s).
Proof. intros [] Hpos. by split. Qed.

Lemma wf_set_selection sel ord s :
  wf_view s → length sel = natoms (images s) →
  wf_view (set_selection sel ord s).
Proof. intros [] Hsel. by split. Qed.

Lemma wf_set_camera c s : wf_view s → wf_view (set_camera c s).
Proof. intros []. by split. Qed.

Lemma wf_press s e : wf_view s → wf_view (press s e).
Proof. intros []. by split. Qed.

Lemma wf_draw st s s' : wf_view s → draw st s = Some s' → wf_view s'.
Proof.
  intros Hwf Hd. destruct (draw_inv _ _ _ Hd) as [calls ->].
  apply wf_set_projection; [done|]. by apply length_screen_positions.
Qed.

(** *** Releasing the pointer *)

Lemma first_hit_total n hit order :
  (n ≤ length hit)%nat →
  ∃ res, first_hit n hit order = Some res
         ∧ ∀ a, res = Some a → (a < n)%nat ∧ hit !! a = Some true.
Proof.
  intros Hn. induction order as [|a order IH]; simpl.
  - by eexists.
  - destruct (decide (a < n)%nat) as [Ha|Ha]; [|done].
    destruct (lookup_lt_is_Some_2 hit a) as [h Hh]; [lia|].
    rewrite Hh. simpl. destruct h; [|done].
    eexists. split; [done|]. by intros ? [= <-].
Qed.

Lemma first_hit_skip n hit l1 l2 :
  (n ≤ length hit)%nat →
  (∀ a, a ∈ l1 → ¬ ((a < n)%nat ∧ hit !! a = Some true)) →
  first_hit n hit (l1 ++ l2) = first_hit n hit l2.
Proof.
  intros Hn. induction l1 as [|a l1 IH]; intros Hl1; simpl; [done|].
  assert (Hrest : first_hit n hit (l1 ++ l2) = first_hit n hit l2).
  { apply IH. intros b Hb. apply Hl1. by right. }
  destruct (decide (a < n)%nat) as [Ha|Ha]; [|done].
  destruct (lookup_lt_is_Some_2 hit a) as [h Hh]; [lia|].
  rewrite Hh. simpl. destruct h; [|done].
  exfalso. apply (Hl1 a); [by left|done].
Qed.

Lemma hit_circles_total s :
  wf_view s →
  ∃ hit, hit_circles s = Some hit ∧ length hit = natoms (images s)
         ∧ ∀ a, ((a < natoms (images s))%nat ∧ hit !! a = Some true)
                ↔ is_hit s a.
Proof.
  intros Hwf. unfold hit_circles.
  rewrite option_guard_True by (by rewrite (wf_r s Hwf), (wf_P s Hwf)).
  simpl. eexists. split; [done|]. split.
  { rewrite length_zip_with_l_eq; by rewrite (wf_P s Hwf), ?(wf_r s Hwf). }
  intros a. unfold is_hit. rewrite lookup_zip_with. split.
  - intros [Ha Hhit]. split; [done|].
    destruct (P s !! a) as [p|] eqn:Hp; [|done]. simpl in Hhit.
    destruct (r (images s) !! a) as [rad|] eqn:Hr; [|done]. simpl in Hhit.
    exists p, rad. split_and!; [done..|].
    simplify_eq. by eapply bool_decide_eq_true_1.
  - intros [Ha (p & rad & -> & -> & Hlt)]. split; [done|]. simpl.
    by rewrite bool_decide_eq_true_2.
Qed.


Lemma mask_rows_cons {A} (b : bool) (flags : list bool) (x : A) (l : list A) :
  Bonds.mask_rows (b :: flags) (x :: l)
  = (if b then [x] else []) ++ Bonds.mask_rows flags l.
Proof.
  unfold Bonds.mask_rows. simpl. rewrite filter_cons. by destruct b.
Qed.



(** The two branches of [release] run through on a well-formed view and
    keep one flag per atom. *)
Lemma tap_total s e :
  wf_view s →
  ∃ sel ord held, tap s e = Some (sel, ord, held)
                  ∧ length sel = natoms (images s).
Proof.
  intros Hwf. unfold tap.
  destruct (hit_circles_total s Hwf) as (hit & -> & Lhit & _). simpl.
  destruct (first_hit_total (natoms (images s)) hit (reverse (indices s)))
    as (res & -> & Hres); [lia|]. simpl.
  pose proof (wf_selected s Hwf) as Lsel.
  destruct res as [a|].
  - destruct (Hres a eq_refl) as [Ha _].
    destruct (decide (e_modifier e = Some Ctrl)).
    + destruct (lookup_lt_is_Some_2 (selected (images s)) a) as [old ->]; [lia|].
      simpl. destruct old; simpl; repeat case_decide;
        eexists _, _, _; (split; [done|]); by rewrite length_insert.
    + unfold set_flag, clear_flags.
      rewrite option_guard_True by (rewrite length_replicate; lia). simpl.
      eexists _, _, _. split; [done|].
      by rewrite length_insert, length_replicate.
  - eexists _, _, _. split; [done|]. unfold clear_flags.
    by rewrite length_replicate.
Qed.

Lemma set_flags_total (inside : list nat) sel :
  (∀ a, a ∈ inside → (a < length sel)%nat) →
  ∃ sel', foldl (λ acc a, acc ≫= set_flag a true) (Some sel) inside = Some sel'
          ∧ length sel' = length sel.
Proof.
  revert sel. induction inside as [|a inside IH]; intros sel Hin; simpl.
  - by eexists.
  - unfold set_flag at 2. rewrite option_guard_True by (apply Hin; by left).
    simpl. destruct (IH (<[a:=true]> sel)) as (sel' & -> & L).
    { intros b Hb. rewrite length_insert. apply Hin. by right. }
    eexists. split; [done|]. by rewrite L, length_insert.
Qed.

Lemma elem_of_mask_rows (flags : list bool) n a :
  a ∈ Bonds.mask_rows flags (seq 0 n) → (a < n)%nat.
Proof.
  unfold Bonds.mask_rows. intros Ha.
  apply list_elem_of_fmap in Ha as ([b a'] & -> & Ha).
  apply list_elem_of_filter in Ha as [_ Ha].
  apply elem_of_zip_r, elem_of_seq in Ha. simpl. lia.
Qed.

Lemma box_total s e :
  wf_view s →
  ∃ sel ord held, box s e = Some (sel, ord, held)
                  ∧ length sel = natoms (images s).
Proof.
  intros Hwf. unfold box. destruct (xy (pressed s)) as [x0 y0].
  pose proof (wf_selected s Hwf) as Lsel.
  match goal with |- context [foldl _ (Some ?sel0) ?inside] =>
    destruct (set_flags_total inside sel0) as (sel' & -> & L) end.
  { intros a Ha. apply elem_of_mask_rows in Ha.
    rewrite length_fmap, (wf_P s Hwf) in Ha.
    case_decide; unfold clear_flags; rewrite ?length_replicate; lia. }
  simpl.
  assert (length sel' = natoms (images s)) as L'.
  { rewrite L. case_decide; unfold clear_flags;
      by rewrite ?length_replicate. }
  clear L.
  destruct (Bonds.mask_rows _ _) as [|a [|b rest]]; repeat case_decide;
    (eexists _, _, _; split; [reflexivity|done]).
Qed.

(** What a release of the primary button does, step by step. *)
Lemma release_inv s e s' :
  e_button e = 1%Z → release s e = Some s' →
  ∃ sel ord held s1,
    (if decide (e_time e < t0 (pressed s) + 200)%Z then tap s e else box s e)
      = Some (sel, ord, held)
    ∧ draw true (set_selection sel held s) = Some s1
    ∧ s' = set_selected_ordered
             (if decide (length (selected_atoms s1) ≠ length ord)
              then [] else ord) s1.
Proof.
  intros Hb. unfold release.
  rewrite decide_False by lia. rewrite decide_False by (by intros []).
  intros Hr. apply bind_Some in Hr as ([[sel ord] held] & Hbranch & Hr).
  apply bind_Some in Hr as (s1 & Hd & Hr). simplify_eq.
  by eexists _, _, _, _.
Qed.

Lemma release_total s e :
  numpy_argsort argsort → colors_per_atom → wf_view s →
  e_button e = 1%Z → ∃ s', release s e = Some s' ∧ wf_view s'.
Proof.
  intros Hsort Hcol Hwf Hb. unfold release.
  rewrite decide_False by lia. rewrite decide_False by (by intros []).
  assert (∃ sel ord held,
             (if decide (e_time e < t0 (pressed s) + 200)%Z
              then tap s e else box s e) = Some (sel, ord, held)
             ∧ length sel = natoms (images s))
    as (sel & ord & held & -> & Lsel).
  { case_decide; [by apply tap_total|by apply box_total]. }
  simpl.
  pose proof (wf_set_selection sel held s Hwf Lsel) as Hwf1.
  destruct (draw_total true _ Hsort Hcol Hwf1) as [s1 Hd].
  rewrite Hd. simpl. eexists. split; [done|].
  pose proof (wf_draw _ _ _ Hwf1 Hd) as Hwf2.
  destruct Hwf2. by split.
Qed.

(** C10. A release whose button is neither the primary button nor a scroll
    button returns at once: the call gives back the very state it was
    given, so the selection flags, the ordered selection, the camera (axes,
    scale, center) and the sequence of drawing calls are unchanged. *)
Theorem release_other_button_is_noop s e :
  e_button e ≠ 1%Z → e_button e ≠ 4%Z → e_button e ≠ 5%Z →
  ∃ s', release s e = Some s'
    ∧ s' = s
    ∧ selected (images s') = selected (images s)
    ∧ selected_ordered (images s') = selected_ordered (images s)
    ∧ camera s' = camera s
    ∧ trace s' = trace s.
Proof.
  intros H1 H4 H5. exists s. unfold release.
  rewrite decide_False by (by intros []). by rewrite decide_True.
Qed.

(** C4. After a release of the primary button has been handled (tap or box
    selection), the ordered selection is as long as the list of atoms whose
    selected flag is true, or it is empty; and on a well-formed view the
    handler does return a state (the disagreement raises nothing). *)
Theorem release_ordered_selection_consistent s e :
  e_button e = 1%Z →
  (∀ s', release s e = Some s' →
         length (selected_ordered (images s')) = length (selected_atoms s')
         ∨ selected_ordered (images s') = [])
  ∧ (numpy_argsort argsort → colors_per_atom → wf_view s →
     ∃ s', release s e = Some s').
Proof.
  intros Hb. split.
  - intros s' Hr.
    destruct (release_inv s e s' Hb Hr) as (sel & ord & held & s1 & _ & _ & ->).
    clear Hr. unfold selected_atoms. simpl.
    destruct (decide _) as [Hlen|Hlen]; [by right|left].
    apply dec_stable in Hlen. done.
  - intros Hsort Hcol Hwf.
    destruct (release_total s e Hsort Hcol Hwf Hb) as (s' & Hr & _). eauto.
Qed.

(** *** Selecting by a tap *)

Lemma first_hit_front s hit k :
  (natoms (images s) ≤ length hit)%nat →
  (∀ a, ((a < natoms (images s))%nat ∧ hit !! a = Some true) ↔ is_hit s a) →
  front_most_hit s k →
  first_hit (natoms (images s)) hit (reverse (indices s)) = Some (Some k).
Proof.
  intros Hlen Hspec (before & after & -> & Hk & Hafter).
  rewrite reverse_app, reverse_cons, <-(assoc_L (++)).
  rewrite first_hit_skip; [|done|].
  2:{ intros a Ha. rewrite Hspec. apply Hafter. by apply elem_of_reverse. }
  apply Hspec in Hk as [Hk Hhit]. simpl.
  rewrite decide_True by done. by rewrite Hhit.
Qed.





(** A release of the primary button whose branch gave [(sel, ord, held)]. *)
Lemma release_result s e sel ord held :
  numpy_argsort argsort → colors_per_atom → wf_view s →
  e_button e = 1%Z →
  (if decide (e_time e < t0 (pressed s) + 200)%Z then tap s e else box s e)
    = Some (sel, ord, held) →
  length sel = natoms (images s) →
  ∃ s1, release s e = Some s1
    ∧ wf_view s1
    ∧ natoms (images s1) = natoms (images s)
    ∧ selected (images s1) = sel
    ∧ selected_ordered (images s1)
      = (if decide (length (Bonds.mask_rows sel (seq 0 (natoms (images s))))
                    ≠ length ord) then [] else ord).
Proof.
  intros Hsort Hcol Hwf Hb Hbranch Lsel. unfold release.
  rewrite decide_False by lia. rewrite decide_False by (by intros []).
  rewrite Hbranch. simpl.
  pose proof (wf_set_selection sel held s Hwf Lsel) as Hwf1.
  destruct (draw_total true _ Hsort Hcol Hwf1) as [s1 Hd].
  rewrite Hd. simpl.
  pose proof (wf_draw _ _ _ Hwf1 Hd) as Hwf2.
  destruct (draw_inv _ _ _ Hd) as [calls ->].
  eexists. split; [done|]. split; [|done].
  destruct Hwf2. by split.
Qed.




(** *** Rotating by a drag *)

Lemma rotation_entries_orthonormal (a b c s : R) :
  a * a + b * b = 1 → c * c + s * s = 1 →
  orthonormal ((c * a * a + b * b, (c - 1) * b * a, s * a),
               ((c - 1) * a * b, c * b * b + a * a, s * b),
               (- s * a, - s * b, c)).
Proof.
  intros Hab Hcs. unfold orthonormal. simpl. split_and!; nsatz.
Qed.

Lemma drag_rotation_orthonormal x y x0 y0 :
  orthonormal (drag_rotation x y x0 y0).
Proof.
  unfold drag_rotation.
  set (a := x - x0). set (b := y0 - y). set (t := sqrt (a * a + b * b)).
  assert (Hcs : cos (0.01 * t) * cos (0.01 * t)
                + - sin (0.01 * t) * - sin (0.01 * t) = 1).
  { pose proof (sin2_cos2 (0.01 * t)) as Hsc. unfold Rsqr in Hsc. lra. }
  destruct (decide (0 < t)) as [Ht|Ht].
  - apply rotation_entries_orthonormal; [|done].
    assert (Htt : t * t = a * a + b * b).
    { apply sqrt_sqrt. nra. }
    clearbody t a b.
    transitivity ((a * a + b * b) / (t * t)); [field; lra|].
    rewrite <-Htt. field. lra.
  - apply rotation_entries_orthonormal; [lra|done].
Qed.

Lemma orthonormal_matmul (m rot : M3) :
  orthonormal m → orthonormal rot → orthonormal (matmul m rot).
Proof.
  destruct m as [[[[m00 m01] m02] [[m10 m11] m12]] [[m20 m21] m22]].
  destruct rot as [[[[r00 r01] r02] [[r10 r11] r12]] [[r20 r21] r22]].
  unfold orthonormal. simpl.
  intros (G00 & G11 & G22 & G01 & G02 & G12) (R00 & R11 & R22 & R01 & R02 & R12).
  split_and!.
  - transitivity
      (r00 * r00 * (m00 * m00 + m10 * m10 + m20 * m20)
       + r10 * r10 * (m01 * m01 + m11 * m11 + m21 * m21)
       + r20 * r20 * (m02 * m02 + m12 * m12 + m22 * m22)
       + 2 * r00 * r10 * (m00 * m01 + m10 * m11 + m20 * m21)
       + 2 * r00 * r20 * (m00 * m02 + m10 * m12 + m20 * m22)
       + 2 * r10 * r20 * (m01 * m02 + m11 * m12 + m21 * m22)); [ring|].
    rewrite G00, G11, G22, G01, G02, G12. lra.
  - transitivity
      (r01 * r01 * (m00 * m00 + m10 * m10 + m20 * m20)
       + r11 * r11 * (m01 * m01 + m11 * m11 + m21 * m21)
       + r21 * r21 * (m02 * m02 + m12 * m12 + m22 * m22)
       + 2 * r01 * r11 * (m00 * m01 + m10 * m11 + m20 * m21)
       + 2 * r01 * r21 * (m00 * m02 + m10 * m12 + m20 * m22)
       + 2 * r11 * r21 * (m01 * m02 + m11 * m12 + m21 * m22)); [ring|].
    rewrite G00, G11, G22, G01, G02, G12. lra.
  - transitivity
      (r02 * r02 * (m00 * m00 + m10 * m10 + m20 * m20)
       + r12 * r12 * (m01 * m01 + m11 * m11 + m21 * m21)
       + r22 * r22 * (m02 * m02 + m12 * m12 + m22 * m22)
       + 2 * r02 * r12 * (m00 * m01 + m10 * m11 + m20 * m21)
       + 2 * r02 * r22 * (m00 * m02 + m10 * m12 + m20 * m22)
       + 2 * r12 * r22 * (m01 * m02 + m11 * m12 + m21 * m22)); [ring|].
    rewrite G00, G11, G22, G01, G02, G12. lra.
  - transitivity
      (r00 * r01 * (m00 * m00 + m10 * m10 + m20 * m20)
       + r10 * r11 * (m01 * m01 + m11 * m11 + m21 * m21)
       + r20 * r21 * (m02 * m02 + m12 * m12 + m22 * m22)
       + (r00 * r11 + r10 * r01) * (m00 * m01 + m10 * m11 + m20 * m21)
       + (r00 * r21 + r20 * r01) * (m00 * m02 + m10 * m12 + m20 * m22)
       + (r10 * r21 + r20 * r11) * (m01 * m02 + m11 * m12 + m21 * m22)); [ring|].
    rewrite G00, G11, G22, G01, G02, G12. lra.
  - transitivity
      (r00 * r02 * (m00 * m00 + m10 * m10 + m20 * m20)
       + r10 * r12 * (m01 * m01 + m11 * m11 + m21 * m21)
       + r20 * r22 * (m02 * m02 + m12 * m12 + m22 * m22)
       + (r00 * r12 + r10 * r02) * (m00 * m01 + m10 * m11 + m20 * m21)
       + (r00 * r22 + r20 * r02) * (m00 * m02 + m10 * m12 + m20 * m22)
       + (r10 * r22 + r20 * r12) * (m01 * m02 + m11 * m12 + m21 * m22)); [ring|].
    rewrite G00, G11, G22, G01, G02, G12. lra.
  - transitivity
      (r01 * r02 * (m00 * m00 + m10 * m10 + m20 * m20)
       + r11 * r12 * (m01 * m01 + m11 * m11 + m21 * m21)
       + r21 * r22 * (m02 * m02 + m12 * m12 + m22 * m22)
       + (r01 * r12 + r11 * r02) * (m00 * m01 + m10 * m11 + m20 * m21)
       + (r01 * r22 + r21 * r02) * (m00 * m02 + m10 * m12 + m20 * m22)
       + (r11 * r22 + r21 * r12) * (m01 * m02 + m11 * m12 + m21 * m22)); [ring|].
    rewrite G00, G11, G22, G01, G02, G12. lra.
Qed.

(** What [move] does when it is handled as a rotation. *)
Lemma move_rotation_inv s e s' :
  button (pressed s) ≠ 1%Z → button (pressed s) ≠ 2%Z →
  e_modifier e ≠ Some Shift → move s e = Some s' →
  axes (camera s')
  = matmul (axes0 (pressed s))
      (drag_rotation (e_x e) (e_y e) (xy (pressed s)).1 (xy (pressed s)).2).
Proof.
  intros H1 H2 Hm. unfold move. destruct (xy (pressed s)) as [x0 y0].
  rewrite !decide_False by done. intros Hmove.
  apply bind_Some in Hmove as (s1 & Hs1 & Hd).
  destruct (draw_inv _ _ _ Hd) as [calls ->].
  apply bind_Some in Hs1 as (com & _ & Hs1). by simplify_eq.
Qed.

Lemma move_total s e :
  numpy_argsort argsort → colors_per_atom → wf_view s →
  is_Some (move s e).
Proof.
  intros Hsort Hcol Hwf. unfold move. destruct (xy (pressed s)) as [x0 y0].
  repeat case_decide; try done.
  - simpl. apply draw_total; [done..|]. by apply wf_set_camera.
  - simpl. apply draw_total; [done..|]. by apply wf_set_camera.
  - destruct (lookup_lt_is_Some_2 (A (images s)) (frame s)) as [cell ->];
      [apply (wf_A s Hwf)|].
    simpl. apply draw_total; [done..|]. by apply wf_set_camera.
Qed.

(** C5. When a pointer move is handled as a rotation (the pressed button is
    neither 1 nor 2 and shift is not held) and the axes recorded by [press]
    are orthonormal, the axes after the move are orthonormal: their columns
    have unit length and are mutually orthogonal (exactly so over the reals,
    which stand for the floats); and on a well-formed view the move does
    return a state. *)
Theorem move_rotation_keeps_orthonormal s e :
  button (pressed s) ≠ 1%Z → button (pressed s) ≠ 2%Z →
  e_modifier e ≠ Some Shift →
  orthonormal (axes0 (pressed s)) →
  (∀ s', move s e = Some s' → orthonormal (axes (camera s')))
  ∧ (numpy_argsort argsort → colors_per_atom → wf_view s →
     ∃ s', move s e = Some s').
Proof.
  intros H1 H2 Hm Horth. split.
  - intros s' Hmove. rewrite (move_rotation_inv s e s' H1 H2 Hm Hmove).
    apply orthonormal_matmul; [done|apply drag_rotation_orthonormal].
  - intros Hsort Hcol Hwf. by apply move_total.
Qed.

(** The guard of [move] for a drag of length zero: the rotation is the
    identity, so the axes after the move are those recorded by [press]. *)
Lemma drag_rotation_zero x y :
  drag_rotation x y x y = ((1, 0, 0), (0, 1, 0), (0, 0, 1)).
Proof.
  unfold drag_rotation.
  replace ((x - x) * (x - x) + (y - y) * (y - y)) with 0 by ring.
  rewrite sqrt_0, decide_False by lra.
  rewrite Rmult_0_r, cos_0, sin_0. repeat f_equal; ring.
Qed.

(** *** Circles and arrows *)

Lemma np_round_eq (x : R) (z : Z) : x = IZR z → np_round x = z.
Proof. intros ->. apply np_round_IZR. Qed.

Lemma diameters_lookup s j rad :
  r (images s) !! j = Some rad →
  diameters s !! j
  = Some (np_round (2 * (rad * (if show_bonds (window s)
                                then 0.65 * scale (camera s)
                                else scale (camera s))))).
Proof.
  intros Hr. unfold diameters, screen_radii.
  destruct (show_bonds (window s)); by rewrite !list_lookup_fmap, Hr.
Qed.

(** The circle branch of [my_arc]. *)
Lemma my_arc_circle s gc fill j Xs rs n A ds sh shape c dj :
  shapes (images s) = Some sh → sh !! j = Some shape →
  get3 0 shape = get3 1 shape → get3 1 shape = get3 2 shape →
  A !! j = Some c → ds !! j = Some dj →
  my_arc s gc fill j Xs rs n A ds = Some (PixArc gc fill c.1 c.2 dj dj 0 23040).
Proof.
  intros Hsh Hshape H01 H12 HA Hd. unfold my_arc.
  rewrite Hsh, Hshape. simpl. rewrite H01, H12.
  rewrite !bool_decide_eq_true_2 by done. simpl.
  by rewrite HA, Hd.
Qed.

(** C7, amended: for an atom whose shape has three equal semi-axes the
    renderer draws a circle, whatever the quaternions are: an arc over the
    full angle whose bounding square has its corner at [A[j]] and the side
    [d[j]], the rounded diameter [2 * r[j] * scale], or
    [2 * r[j] * 0.65 * scale] when bonds are shown (not half the radius). *)
Theorem equal_axes_drawn_as_circle s gc fill j Xs rs n A sh shape rad c q :
  shapes (images s) = Some sh → sh !! j = Some shape →
  get3 0 shape = get3 1 shape → get3 1 shape = get3 2 shape →
  r (images s) !! j = Some rad →
  corners s = Some A → A !! j = Some c →
  my_arc (set_quaternions q s) gc fill j Xs rs n A (diameters s)
  = my_arc s gc fill j Xs rs n A (diameters s)
  ∧ my_arc s gc fill j Xs rs n A (diameters s)
    = Some (PixArc gc fill c.1 c.2
              (np_round (2 * (rad * (if show_bonds (window s)
                                     then 0.65 * scale (camera s)
                                     else scale (camera s)))))
              (np_round (2 * (rad * (if show_bonds (window s)
                                     then 0.65 * scale (camera s)
                                     else scale (camera s)))))
              0 23040).
Proof.
  intros Hsh Hshape H01 H12 Hr HA Hc.
  pose proof (diameters_lookup s j rad Hr) as Hd.
  rewrite (my_arc_circle s gc fill j Xs rs n A (diameters s) sh shape c _
             Hsh Hshape H01 H12 Hc Hd).
  split; [|done].
  by apply (my_arc_circle (set_quaternions q s) gc fill j Xs rs n A
              (diameters s) sh shape c).
Qed.

(** C9, amended: [arrow] draws the shaft in full, from the rounded begin
    point to the rounded end point, and then the two lines of the head,
    which start at the distance [len] from the end point in the directions
    [angle - 0.3] and [angle + 0.3], where [angle] is the direction of the
    shaft turned by pi and [len], the length of the head lines before
    rounding, is exactly the smaller of the screen length of the vector and
    [0.3 * scale]. *)
Theorem arrow_head_capped s (b0 b1 b2 e0 e1 e2 : R) :
  ∃ len angle,
    len = Rmin (sqrt ((e0 - b0)² + (e1 - b1)²)) (0.3 * scale (camera s))
    ∧ len <= 0.3 * scale (camera s)
    ∧ len <= sqrt ((e0 - b0)² + (e1 - b1)²)
    ∧ angle = atan2 (IZR (np_round e1 - np_round b1))
                    (IZR (np_round e0 - np_round b0)) + PI
    ∧ arrow s (b0, b1, b2) (e0, e1, e2)
      = [PixLine (foreground_gc s) (np_round b0) (np_round b1)
           (np_round e0) (np_round e1);
         PixLine (foreground_gc s)
           (np_round (e0 + len * cos (angle - 0.3)))
           (np_round (e1 + len * sin (angle - 0.3)))
           (np_round e0) (np_round e1);
         PixLine (foreground_gc s)
           (np_round (e0 + len * cos (angle + 0.3)))
           (np_round (e1 + len * sin (angle + 0.3)))
           (np_round e0) (np_round e1)].
Proof.
  eexists _, _. split; [reflexivity|].
  split; [apply Rmin_r|]. split; [apply Rmin_l|]. split; reflexivity.
Qed.

(** *** Normalising the orient normal *)

Lemma normalise_zero (p : V3) :
  normalise (sub3 p p) = (NaN, NaN, NaN).
Proof.
  destruct p as [[x y] z]. unfold normalise, sub3, np_div.
  replace ((x - x) * (x - x) + (y - y) * (y - y) + (z - z) * (z - z))
    with 0 by ring.
  rewrite sqrt_0. rewrite !decide_True by (done || ring). done.
Qed.


(** *** More on selecting *)





Lemma length_mask_rows_set (sel : list bool) (k i : nat) (b : bool) :
  sel !! k = Some (negb b) →
  (if b then length (Bonds.mask_rows (<[k:=b]> sel) (seq i (length sel)))
            = S (length (Bonds.mask_rows sel (seq i (length sel))))
   else S (length (Bonds.mask_rows (<[k:=b]> sel) (seq i (length sel))))
        = length (Bonds.mask_rows sel (seq i (length sel)))).
Proof.
  revert k i. induction sel as [|c sel IH]; intros k i Hk; [done|].
  destruct k as [|k]; simpl in *.
  - simplify_eq. rewrite !mask_rows_cons. by destruct b.
  - rewrite !mask_rows_cons, !length_app.
    specialize (IH k (S i) Hk). destruct b; lia.
Qed.

(** X7. Ctrl-tap on an atom that is not selected: the atom is added to the
    selection; it is appended to the ordered selection when that list was as
    long as the selection, and the ordered selection is emptied otherwise. *)
Theorem ctrl_tap_adds_atom s e k :
  numpy_argsort argsort → colors_per_atom → wf_view s →
  e_button e = 1%Z → (e_time e < t0 (pressed s) + 200)%Z →
  e_modifier e = Some Ctrl → front_most_hit s k →
  selected (images s) !! k = Some false →
  ∃ s', release s e = Some s'
    ∧ selected (images s') = <[k := true]> (selected (images s))
    ∧ selected_ordered (images s')
      = (if decide (length (selected_ordered (images s))
                    = length (selected_atoms s))
         then selected_ordered (images s) ++ [k] else []).
Proof.
  intros Hsort Hcol Hwf Hb Ht Hm Hk Hsel.
  assert (Htap : tap s e = Some (<[k:=true]> (selected (images s)),
                                  selected_ordered (images s) ++ [k],
                                  selected_ordered (images s) ++ [k])).
  { unfold tap.
    destruct (hit_circles_total s Hwf) as (hit & -> & Lhit & Hspec). simpl.
    rewrite (first_hit_front s hit k) by (done || lia). simpl.
    rewrite decide_True by done. by rewrite Hsel. }
  destruct (release_result s e (<[k:=true]> (selected (images s)))
              (selected_ordered (images s) ++ [k])
              (selected_ordered (images s) ++ [k]) Hsort Hcol Hwf Hb)
    as (s' & Hr & _ & _ & Hsel' & Hord').
  { by rewrite decide_True. }
  { by rewrite length_insert, (wf_selected s Hwf). }
  exists s'. split; [done|]. split; [done|]. rewrite Hord'.
  pose proof (length_mask_rows_set (selected (images s)) k 0 true Hsel) as Hlen.
  simpl in Hlen. rewrite (wf_selected s Hwf) in Hlen.
  unfold selected_atoms. rewrite Hlen, length_app. simpl.
  clear Hord' Hr Htap Hlen Hsel'.
  repeat match goal with |- context [decide ?Q] => destruct (decide Q) end;
    (done || lia).
Qed.

(** X8. Ctrl-tap on a selected atom: the atom leaves the selection; the ordered
    selection loses its last entry when that entry is the atom and the list
    was as long as the selection, and is emptied otherwise. *)
Theorem ctrl_tap_removes_atom s e k :
  numpy_argsort argsort → colors_per_atom → wf_view s →
  e_button e = 1%Z → (e_time e < t0 (pressed s) + 200)%Z →
  e_modifier e = Some Ctrl → front_most_hit s k →
  selected (images s) !! k = Some true →
  ∃ s', release s e = Some s'
    ∧ selected (images s') = <[k := false]> (selected (images s))
    ∧ selected_ordered (images s')
      = (if decide (last (selected_ordered (images s)) = Some k
                    ∧ length (selected_ordered (images s))
                      = length (selected_atoms s))
         then take (length (selected_ordered (images s)) - 1)
                (selected_ordered (images s))
         else []).
Proof.
  intros Hsort Hcol Hwf Hb Ht Hm Hk Hsel.
  set (ord := selected_ordered (images s)).
  assert (∃ ord1, tap s e = Some (<[k:=false]> (selected (images s)), ord1, ord)
            ∧ ord1 = (if decide (last ord = Some k)
                      then take (length ord - 1) ord else []))
    as (ord1 & Htap & Hord1).
  { unfold tap.
    destruct (hit_circles_total s Hwf) as (hit & -> & Lhit & Hspec). simpl.
    rewrite (first_hit_front s hit k) by (done || lia). simpl.
    rewrite decide_True by done. rewrite Hsel. simpl. fold ord.
    destruct (decide (0 < length ord)%nat) as [Hpos|Hzero].
    - destruct (decide (last ord = Some k)); by eexists.
    - assert (ord = []) as -> by (apply length_zero_iff_nil; lia).
      eexists. split; [done|]. by destruct (decide _). }
  destruct (release_result s e (<[k:=false]> (selected (images s))) ord1 ord
              Hsort Hcol Hwf Hb)
    as (s' & Hr & _ & _ & Hsel' & Hord').
  { by rewrite decide_True. }
  { by rewrite length_insert, (wf_selected s Hwf). }
  exists s'. split; [done|]. split; [done|]. rewrite Hord'.
  pose proof (length_mask_rows_set (selected (images s)) k 0 false Hsel) as Hlen.
  simpl in Hlen. rewrite (wf_selected s Hwf) in Hlen.
  unfold selected_atoms. rewrite <-Hlen, Hord1.
  clear Hord' Hr Htap Hlen Hord1 Hsel'.
  set (c := length (Bonds.mask_rows (<[k:=false]> (selected (images s)))
                      (seq 0 (natoms (images s))))).
  clearbody c.
  destruct (decide (last ord = Some k)) as [Hlast|Hlast].
  - assert (0 < length ord)%nat.
    { destruct ord; [done|simpl; lia]. }
    rewrite length_take.
    repeat match goal with |- context [decide ?Q] => destruct (decide Q) end;
      try done; exfalso; intuition lia.
  - repeat match goal with |- context [decide ?Q] => destruct (decide Q) end;
      try done; exfalso; intuition.
Qed.


Lemma branch_length s e sel ord held :
  wf_view s →
  (if decide (e_time e < t0 (pressed s) + 200)%Z then tap s e else box s e)
    = Some (sel, ord, held) →
  length sel = natoms (images s).
Proof.
  intros Hwf Hbranch. destruct (decide _).
  - destruct (tap_total s e Hwf) as (? & ? & ? & Heq & L).
    rewrite Heq in Hbranch. by simplify_eq.
  - destruct (box_total s e Hwf) as (? & ? & ? & Heq & L).
    rewrite Heq in Hbranch. by simplify_eq.
Qed.

(** X10. The pointer handlers keep the view well formed; in particular there is
    one selected flag per atom after every [press], [move] and [release]
    (the scroll buttons, handled elsewhere, apart). *)
Theorem handlers_keep_well_formed s e :
  wf_view s →
  wf_view (press s e)
  ∧ (∀ s', move s e = Some s' → wf_view s')
  ∧ (∀ s', e_button e ≠ 4%Z → e_button e ≠ 5%Z →
           release s e = Some s' → wf_view s').
Proof.
  intros Hwf. split; [by apply wf_press|]. split.
  - intros s'. unfold move. destruct (xy (pressed s)) as [x0 y0].
    repeat case_decide.
    + intros [= <-]. destruct Hwf. by split.
    + by intros [= <-].
    + simpl. apply wf_draw. by apply wf_set_camera.
    + simpl. apply wf_draw. by apply wf_set_camera.
    + intros Hm. apply bind_Some in Hm as (s1 & Hs1 & Hd).
      apply bind_Some in Hs1 as (com & _ & Hs1). simplify_eq.
      eapply wf_draw; [|done]. by apply wf_set_camera.
  - intros s' H4 H5 Hr.
    destruct (decide (e_button e = 1%Z)) as [Hb|Hb].
    + destruct (release_inv s e s' Hb Hr)
        as (sel & ord & held & s1 & Hbranch & Hd & ->).
      pose proof (branch_length s e sel ord held Hwf Hbranch) as Lsel.
      pose proof (wf_draw _ _ _ (wf_set_selection sel held s Hwf Lsel) Hd) as Hwf1.
      destruct Hwf1. by split.
    + unfold release in Hr. rewrite decide_False in Hr by (by intros []).
      rewrite decide_True in Hr by done. by simplify_eq.
Qed.

(** *** More on dragging *)

Lemma orthonormal_transpose (m : M3) : orthonormal m → orthonormal (transpose m).
Proof.
  destruct m as [[[[m00 m01] m02] [[m10 m11] m12]] [[m20 m21] m22]].
  unfold orthonormal. simpl.
  intros (G00 & G11 & G22 & G01 & G02 & G12). split_and!; nsatz.
Qed.

Lemma matmul_identity_r (m : M3) : matmul m ((1, 0, 0), (0, 1, 0), (0, 0, 1)) = m.
Proof.
  destruct m as [[[[m00 m01] m02] [[m10 m11] m12]] [[m20 m21] m22]].
  unfold matmul, vecmat. simpl. split_m3; ring.
Qed.

Lemma project_pan (s : View) (c0 x : V3) (d0 d1 : R) :
  orthonormal (axes (camera s)) → scale (camera s) ≠ 0 →
  project (set_camera
             (mkCamera (axes (camera s)) (scale (camera s))
                (sub3 c0 (scale3 (/ scale (camera s))
                            (matvec (axes (camera s)) (d0, d1, 0))))) s) x
  = add3 (project (set_camera
                     (mkCamera (axes (camera s)) (scale (camera s)) c0) s) x)
         (d0, - d1, 0).
Proof.
  unfold project, view_offset, view_axes. simpl.
  destruct (axes (camera s))
    as [[[[m00 m01] m02] [[m10 m11] m12]] [[m20 m21] m22]].
  destruct c0 as [[c0 c1] c2]. destruct x as [[x0 x1] x2].
  destruct (size (window s)) as [w h].
  generalize (scale (camera s)) as k. intros k.
  unfold orthonormal. simpl.
  intros (G00 & G11 & G22 & G01 & G02 & G12) Hk.
  assert (Hik : k * / k = 1) by (by apply Rinv_r).
  set (ik := / k) in *. clearbody ik.
  split_v3; nsatz.
Qed.

Lemma project_pivot (s : View) (a0 a1 : M3) (c0 com : V3) :
  orthonormal a1 →
  project (set_camera
             (mkCamera a1 (scale (camera s))
                (sub3 com (vecmat (sub3 com c0)
                             (matmul a0 (transpose a1))))) s) com
  = project (set_camera (mkCamera a0 (scale (camera s)) c0) s) com.
Proof.
  unfold project, view_offset, view_axes. simpl.
  destruct a0 as [[[[m00 m01] m02] [[m10 m11] m12]] [[m20 m21] m22]].
  destruct a1 as [[[[r00 r01] r02] [[r10 r11] r12]] [[r20 r21] r22]].
  destruct c0 as [[c0 c1] c2]. destruct com as [[x0 x1] x2].
  destruct (size (window s)) as [w h].
  generalize (scale (camera s)) as k. intros k.
  unfold orthonormal. simpl.
  intros (G00 & G11 & G22 & G01 & G02 & G12).
  split_v3; nsatz.
Qed.

Lemma center_kept (a0 : M3) (c0 com : V3) :
  orthonormal a0 →
  sub3 com (vecmat (sub3 com c0) (matmul a0 (transpose a0))) = c0.
Proof.
  intros Ha%orthonormal_transpose. revert Ha.
  destruct a0 as [[[[m00 m01] m02] [[m10 m11] m12]] [[m20 m21] m22]].
  destruct c0 as [[c0 c1] c2]. destruct com as [[x0 x1] x2].
  unfold orthonormal. simpl.
  intros (G00 & G11 & G22 & G01 & G02 & G12).
  split_v3; nsatz.
Qed.

(** What [move] does when it is handled as a pan or as a rotation. *)
Lemma move_pan_inv s e s' :
  button (pressed s) ≠ 1%Z → button (pressed s) ≠ 2%Z →
  e_modifier e = Some Shift → move s e = Some s' →
  ∃ ind pos calls,
    s' = set_projection ind pos calls
           (set_camera
              (mkCamera (axes (camera s)) (scale (camera s))
                 (sub3 (center0 (pressed s))
                    (scale3 (/ scale (camera s))
                       (matvec (axes (camera s))
                          (e_x e - (xy (pressed s)).1,
                           (xy (pressed s)).2 - e_y e, 0))))) s).
Proof.
  intros H1 H2 Hm. unfold move. destruct (xy (pressed s)) as [x0 y0].
  destruct (decide (button (pressed s) = 1%Z)); [done|].
  destruct (decide (button (pressed s) = 2%Z)); [done|].
  destruct (decide (e_modifier e = Some Shift)); [|done]. simpl.
  intros Hd. destruct (draw_inv _ _ _ Hd) as [calls ->]. by eexists _, _, _.
Qed.

Lemma move_rotation_camera s e s' com :
  button (pressed s) ≠ 1%Z → button (pressed s) ≠ 2%Z →
  e_modifier e ≠ Some Shift → move s e = Some s' → pivot s = Some com →
  ∃ ind pos calls,
    s' = set_projection ind pos calls
           (set_camera
              (mkCamera (axes (camera s')) (scale (camera s))
                 (sub3 com
                    (vecmat (sub3 com (center0 (pressed s)))
                       (matmul (axes0 (pressed s))
                          (transpose (axes (camera s')))))))
              s).
Proof.
  intros H1 H2 Hm Hmove Hpivot.
  pose proof (move_rotation_inv s e s' H1 H2 Hm Hmove) as Haxes.
  revert Hmove Haxes. unfold move. destruct (xy (pressed s)) as [x0 y0].
  rewrite !decide_False by done. intros Hmove Haxes.
  apply bind_Some in Hmove as (s1 & Hs1 & Hd).
  destruct (draw_inv _ _ _ Hd) as [calls ->].
  apply bind_Some in Hs1 as (com' & Hcom & Hs1).
  assert (com' = com) as ->.
  { unfold pivot in Hpivot. rewrite Hpivot in Hcom. by simplify_eq. }
  simplify_eq. simpl. by eexists _, _, _.
Qed.

(** X11. Pan: while shift is held the axes and the scale stay as they are, and
    every point is projected where the camera with the current axes, the
    scale as it is and the center recorded by [press] projects it, moved by
    the displacement of the pointer since the press.  When the axes are
    still those recorded by [press] (no rotation since the press), that
    camera is the camera of the press: the scene follows the pointer. *)
Theorem pan_follows_pointer s e s' :
  button (pressed s) ≠ 1%Z → button (pressed s) ≠ 2%Z →
  e_modifier e = Some Shift →
  orthonormal (axes (camera s)) → scale (camera s) ≠ 0 →
  move s e = Some s' →
  axes (camera s') = axes (camera s)
  ∧ scale (camera s') = scale (camera s)
  ∧ (∀ x, project s' x
          = add3 (project (at_press (axes (camera s)) s) x)
              (e_x e - (xy (pressed s)).1, e_y e - (xy (pressed s)).2, 0))
  ∧ (axes (camera s) = axes0 (pressed s) →
     ∀ x, project s' x
          = add3 (project (at_press (axes0 (pressed s)) s) x)
              (e_x e - (xy (pressed s)).1, e_y e - (xy (pressed s)).2, 0)).
Proof.
  intros H1 H2 Hm Horth Hk Hmove.
  destruct (move_pan_inv s e s' H1 H2 Hm Hmove) as (ind & pos & calls & ->).
  split; [done|]. split; [done|].
  assert (∀ x, project
                 (set_projection ind pos calls
                    (set_camera
                       (mkCamera (axes (camera s)) (scale (camera s))
                          (sub3 (center0 (pressed s))
                             (scale3 (/ scale (camera s))
                                (matvec (axes (camera s))
                                   (e_x e - (xy (pressed s)).1,
                                    (xy (pressed s)).2 - e_y e, 0))))) s)) x
               = add3 (project (at_press (axes (camera s)) s) x)
                   (e_x e - (xy (pressed s)).1, e_y e - (xy (pressed s)).2, 0))
    as Hpan.
  { intros x.
    change (project (set_projection ind pos calls ?t) x) with (project t x).
    rewrite project_pan by done. unfold at_press. f_equal.
    split_v3; ring. }
  split; [exact Hpan|]. intros <-. exact Hpan.
Qed.

(** X12. Rotation: the pivot (the mean of the atoms) is projected by the camera
    after the drag where the camera recorded by [press] projects it; the
    scene turns about a point that stays put on the screen. *)
Theorem rotation_keeps_pivot s e s' com :
  button (pressed s) ≠ 1%Z → button (pressed s) ≠ 2%Z →
  e_modifier e ≠ Some Shift →
  orthonormal (axes0 (pressed s)) →
  move s e = Some s' → pivot s = Some com →
  project s' com = project (at_press (axes0 (pressed s)) s) com.
Proof.
  intros H1 H2 Hm Horth Hmove Hpivot.
  assert (Horth' : orthonormal (axes (camera s'))).
  { rewrite (move_rotation_inv s e s' H1 H2 Hm Hmove).
    apply orthonormal_matmul; [done|apply drag_rotation_orthonormal]. }
  destruct (move_rotation_camera s e s' com H1 H2 Hm Hmove Hpivot)
    as (ind & pos & calls & Hs').
  rewrite Hs' at 1.
  change (project (set_projection ind pos calls ?t) com) with (project t com).
  by rewrite project_pivot.
Qed.

(** X13. A rotation drag of length zero takes the guarded branch of [move]: the
    axes are those recorded by [press], and so is the center when those axes
    are orthonormal. *)
Theorem zero_drag_keeps_camera s e s' :
  button (pressed s) ≠ 1%Z → button (pressed s) ≠ 2%Z →
  e_modifier e ≠ Some Shift →
  e_x e = (xy (pressed s)).1 → e_y e = (xy (pressed s)).2 →
  move s e = Some s' →
  axes (camera s') = axes0 (pressed s)
  ∧ scale (camera s') = scale (camera s)
  ∧ (orthonormal (axes0 (pressed s)) →
     center (camera s') = center0 (pressed s)).
Proof.
  intros H1 H2 Hm Hx Hy Hmove.
  assert (Haxes : axes (camera s') = axes0 (pressed s)).
  { rewrite (move_rotation_inv s e s' H1 H2 Hm Hmove), Hx, Hy.
    by rewrite drag_rotation_zero, matmul_identity_r. }
  split; [done|].
  assert (∃ com, pivot s = Some com) as [com Hpivot].
  { revert Hmove. unfold move, pivot. destruct (xy (pressed s)) as [x0 y0].
    rewrite !decide_False by done. intros Hmove.
    apply bind_Some in Hmove as (s1 & Hs1 & _).
    apply bind_Some in Hs1 as (com & Hcom & _). eauto. }
  destruct (move_rotation_camera s e s' com H1 H2 Hm Hmove Hpivot)
    as (ind & pos & calls & Hs').
  split; [by rewrite Hs'|]. intros Horth.
  rewrite Hs'. simpl. rewrite Haxes. by apply center_kept.
Qed.

(** *** More on the orient mode *)

(** What [toggle_orient_mode] stores, step by step. *)
Lemma toggle_orient_mode_inv s s' :
  toggle_orient_mode s = Some s' →
  ∃ s1 flags sel_pos,
    (if negb (menu_change s) then toggle_mode Orient s else Some s) = Some s1
    ∧ atoms_to_rotate_0 s1 = Some flags
    ∧ selected_positions s1 flags = Some sel_pos
    ∧ orient_normal s' = Some (normalise (raw_normal sel_pos)).
Proof.
  unfold toggle_orient_mode. intros Ht.
  apply bind_Some in Ht as (s1 & Hs1 & Ht).
  apply bind_Some in Ht as (flags & Hflags & Ht).
  apply bind_Some in Ht as (sel_pos & Hsel & Ht). simplify_eq.
  by eexists _, _, _.
Qed.

Lemma normalise_nonzero (v : V3) :
  v ≠ (0, 0, 0) →
  ∃ u0 u1 u2,
    normalise v = (Finite u0, Finite u1, Finite u2)
    ∧ u0 * u0 + u1 * u1 + u2 * u2 = 1
    ∧ (u0, u1, u2) = scale3 (/ sqrt (dot3 v v)) v.
Proof.
  destruct v as [[x y] z]. intros Hv. unfold normalise, np_div, dot3.
  set (q := x * x + y * y + z * z).
  assert (Hq : 0 < q).
  { destruct (decide (x = 0)) as [->|]; [|unfold q; nra].
    destruct (decide (y = 0)) as [->|]; [|unfold q; nra].
    destruct (decide (z = 0)) as [->|]; [done|unfold q; nra]. }
  assert (Hn : 0 < sqrt q) by (by apply sqrt_lt_R0).
  assert (Hnn : sqrt q * sqrt q = q) by (apply sqrt_sqrt; lra).
  destruct (decide (sqrt q = 0)) as [Hz|_]; [lra|].
  set (n := sqrt q) in *. clearbody n.
  eexists _, _, _. split; [done|]. split.
  - transitivity (q / (n * n)); [unfold q; field; lra|].
    rewrite Hnn. field. lra.
  - simpl. split_v3; field; lra.
Qed.

(** X14. Orient mode with two flagged atoms at different positions: the stored
    normal is finite, of unit length, and it is the difference of the two
    positions divided by its length. *)
Theorem orient_normal_two_atoms s s' s1 flags p0 p1 :
  toggle_orient_mode s = Some s' →
  (if negb (menu_change s) then toggle_mode Orient s else Some s) = Some s1 →
  atoms_to_rotate_0 s1 = Some flags →
  selected_positions s1 flags = Some [p0; p1] →
  p0 ≠ p1 →
  ∃ u0 u1 u2,
    orient_normal s' = Some (Finite u0, Finite u1, Finite u2)
    ∧ u0 * u0 + u1 * u1 + u2 * u2 = 1
    ∧ (u0, u1, u2)
      = scale3 (/ sqrt (dot3 (sub3 p0 p1) (sub3 p0 p1))) (sub3 p0 p1).
Proof.
  intros Ht Hs1 Hflags Hsel Hne.
  destruct (toggle_orient_mode_inv s s' Ht)
    as (s1' & flags' & sel_pos & Hs1' & Hflags' & Hsel' & ->).
  simplify_eq. simpl.
  destruct (normalise_nonzero (sub3 p0 p1)) as (u0 & u1 & u2 & -> & Hu & Hp).
  { destruct p0 as [[a b] c], p1 as [[x y] z]. simpl. intros [= ? ? ?].
    apply Hne. f_equal; [f_equal|]; lra. }
  by exists u0, u1, u2.
Qed.

(** X15. Orient mode with three flagged atoms that are not on one line: the
    stored normal is finite, of unit length and orthogonal to both edges
    [p1 - p0] and [p1 - p2]. *)
Theorem orient_normal_three_atoms s s' s1 flags p0 p1 p2 :
  toggle_orient_mode s = Some s' →
  (if negb (menu_change s) then toggle_mode Orient s else Some s) = Some s1 →
  atoms_to_rotate_0 s1 = Some flags →
  selected_positions s1 flags = Some [p0; p1; p2] →
  cross3 (sub3 p1 p0) (sub3 p1 p2) ≠ (0, 0, 0) →
  ∃ u0 u1 u2,
    orient_normal s' = Some (Finite u0, Finite u1, Finite u2)
    ∧ u0 * u0 + u1 * u1 + u2 * u2 = 1
    ∧ dot3 (u0, u1, u2) (sub3 p1 p0) = 0
    ∧ dot3 (u0, u1, u2) (sub3 p1 p2) = 0.
Proof.
  intros Ht Hs1 Hflags Hsel Hne.
  destruct (toggle_orient_mode_inv s s' Ht)
    as (s1' & flags' & sel_pos & Hs1' & Hflags' & Hsel' & ->).
  simplify_eq. simpl.
  destruct (normalise_nonzero _ Hne) as (u0 & u1 & u2 & -> & Hu & Hp).
  exists u0, u1, u2. split; [done|]. split; [done|].
  set (k := / sqrt _) in Hp. clearbody k. clear Hu Hne Hsel.
  destruct p0 as [[a b] c], p1 as [[x y] z], p2 as [[d e] f]. simpl in *.
  injection Hp as -> -> ->. split; ring.
Qed.

(** X16. Orient mode with any other number of flagged atoms (none, one, four or
    more): the stored normal is the x axis. *)
Theorem orient_normal_default s s' s1 flags sel_pos :
  toggle_orient_mode s = Some s' →
  (if negb (menu_change s) then toggle_mode Orient s else Some s) = Some s1 →
  atoms_to_rotate_0 s1 = Some flags →
  selected_positions s1 flags = Some sel_pos →
  length sel_pos ≠ 2%nat → length sel_pos ≠ 3%nat →
  orient_normal s' = Some (Finite 1, Finite 0, Finite 0).
Proof.
  intros Ht Hs1 Hflags Hsel H2 H3.
  destruct (toggle_orient_mode_inv s s' Ht)
    as (s1' & flags' & sel_pos' & Hs1' & Hflags' & Hsel' & ->).
  simplify_eq.
  assert (raw_normal sel_pos = (1, 0, 0)) as ->.
  { by destruct sel_pos as [|? [|? [|? [|? ?]]]]. }
  destruct (normalise_nonzero (1, 0, 0)) as (u0 & u1 & u2 & -> & _ & Hp).
  { intros [= ?]. lra. }
  simpl in Hp.
  replace (1 * 1 + 0 * 0 + 0 * 0) with 1 in Hp by ring.
  rewrite sqrt_1, Rinv_1 in Hp. simplify_eq.
  do 2 f_equal; [f_equal|]; f_equal; ring.
Qed.

(** *** Fitting the view *)

Lemma foldl_min_le (rows : list V3) (init : V3) (c : nat) :
  get3 c (foldl (pointwise3 Rmin) init rows) <= get3 c init
  ∧ ∀ row, row ∈ rows →
           get3 c (foldl (pointwise3 Rmin) init rows) <= get3 c row.
Proof.
  revert init. induction rows as [|x rows IH]; intros init; simpl.
  - split; [lra|]. intros row Hin. by apply elem_of_nil in Hin.
  - destruct (IH (pointwise3 Rmin init x)) as [H0 H1].
    assert (get3 c (pointwise3 Rmin init x) <= get3 c init
            ∧ get3 c (pointwise3 Rmin init x) <= get3 c x) as [Ha Hb].
    { destruct init as [[a b] d], x as [[x0 x1] x2], c as [|[|c]]; simpl;
        split; (apply Rmin_l || apply Rmin_r). }
    split; [lra|]. intros row [->|Hin]%elem_of_cons; [lra|by apply H1].
Qed.

Lemma foldl_max_ge (rows : list V3) (init : V3) (c : nat) :
  get3 c init <= get3 c (foldl (pointwise3 Rmax) init rows)
  ∧ ∀ row, row ∈ rows →
           get3 c row <= get3 c (foldl (pointwise3 Rmax) init rows).
Proof.
  revert init. induction rows as [|x rows IH]; intros init; simpl.
  - split; [lra|]. intros row Hin. by apply elem_of_nil in Hin.
  - destruct (IH (pointwise3 Rmax init x)) as [H0 H1].
    assert (get3 c init <= get3 c (pointwise3 Rmax init x)
            ∧ get3 c x <= get3 c (pointwise3 Rmax init x)) as [Ha Hb].
    { destruct init as [[a b] d], x as [[x0 x1] x2], c as [|[|c]]; simpl;
        split; (apply Rmax_l || apply Rmax_r). }
    split; [lra|]. intros row [->|Hin]%elem_of_cons; [lra|by apply H1].
Qed.

Lemma reduce0_min (rows : list V3) (m row : V3) (c : nat) :
  reduce0 Rmin rows = Some m → row ∈ rows → get3 c m <= get3 c row.
Proof.
  destruct rows as [|x rows]; [done|]. intros [= <-] [->|Hin]%elem_of_cons.
  - apply (proj1 (foldl_min_le rows x c)).
  - by apply (proj2 (foldl_min_le rows x c)).
Qed.

Lemma reduce0_max (rows : list V3) (m row : V3) (c : nat) :
  reduce0 Rmax rows = Some m → row ∈ rows → get3 c row <= get3 c m.
Proof.
  destruct rows as [|x rows]; [done|]. intros [= <-] [->|Hin]%elem_of_cons.
  - apply (proj1 (foldl_max_ge rows x c)).
  - by apply (proj2 (foldl_max_ge rows x c)).
Qed.

(** The box of [focus] holds every atom with its radius, in each of the
    three directions of the camera. *)
Lemma focus_box_contains s P1 P2 a x rad c :
  wf_view s → focus_box s = Some (P1, P2) →
  (a < natoms (images s))%nat →
  X s !! a = Some x → r (images s) !! a = Some rad →
  get3 c P1 <= get3 c (vecmat x (axes (camera s))) - rad
  ∧ get3 c (vecmat x (axes (camera s))) + rad <= get3 c P2.
Proof.
  intros Hwf Hbox Ha Hx Hrad. unfold focus_box in Hbox.
  set (n := natoms (images s)) in *.
  set (Pr := (λ x, vecmat x (axes (camera s))) <$> X s) in *.
  assert (length (take n Pr) = n) as Ln.
  { unfold Pr. rewrite length_take, length_fmap. pose proof (wf_X s Hwf). lia. }
  rewrite Ln in Hbox. unfold broadcast_radii in Hbox.
  destruct (decide (length (r (images s)) = n)) as [Lr|Hne];
    [|by destruct Hne; apply wf_r].
  simpl in Hbox.
  set (low := zip_with (λ p x, sub3 p (x, x, x)) (take n Pr) (r (images s))) in *.
  assert (length low = n) as Llow.
  { unfold low. rewrite length_zip_with, Ln, Lr. lia. }
  rewrite (take_app_length' low _ n) in Hbox by done.
  apply bind_Some in Hbox as (m1 & Hmin & Hbox).
  apply bind_Some in Hbox as (m2 & Hmax & Hbox). injection Hbox as <- <-.
  set (q := vecmat x (axes (camera s))).
  assert (low !! a = Some (sub3 q (rad, rad, rad))) as Hlow.
  { unfold low. rewrite lookup_zip_with, lookup_take_lt by done. unfold Pr.
    rewrite list_lookup_fmap, Hx. simpl. by rewrite Hrad. }
  split.
  - apply (Rle_trans _ (get3 c (sub3 q (rad, rad, rad)))).
    + apply (reduce0_min _ _ _ c Hmin), elem_of_app. left.
      by eapply list_elem_of_lookup_2.
    + destruct q as [[q0 q1] q2], c as [|[|c]]; simpl; lra.
  - apply (Rle_trans _ (get3 c (add3 (sub3 q (rad, rad, rad))
                                  (2 * rad, 2 * rad, 2 * rad)))).
    + destruct q as [[q0 q1] q2], c as [|[|c]]; simpl; lra.
    + apply (reduce0_max _ _ _ c Hmax), elem_of_app. left.
      apply (list_elem_of_lookup_2 _ a).
      rewrite lookup_zip_with, Hlow. simpl. by rewrite Hrad.
Qed.

Lemma focus_box_total s :
  wf_view s → (0 < natoms (images s))%nat → is_Some (focus_box s).
Proof.
  intros Hwf Hn. unfold focus_box.
  set (n := natoms (images s)) in *.
  set (Pr := (λ x, vecmat x (axes (camera s))) <$> X s) in *.
  assert (length (take n Pr) = n) as Ln.
  { unfold Pr. rewrite length_take, length_fmap. pose proof (wf_X s Hwf). lia. }
  rewrite Ln. unfold broadcast_radii.
  destruct (decide (length (r (images s)) = n)) as [Lr|Hne];
    [|by destruct Hne; apply wf_r].
  simpl.
  set (low := zip_with (λ p x, sub3 p (x, x, x)) (take n Pr) (r (images s))) in *.
  assert (length low = n) as Llow.
  { unfold low. rewrite length_zip_with, Ln, Lr. lia. }
  rewrite (take_app_length' low _ n) by done.
  destruct low as [|l0 low]; [simpl in Llow; lia|]. simpl.
  destruct (r (images s)) as [|r0 rs]; [simpl in Lr; lia|]. by simpl.
Qed.

(** What [focus] stores when there are atoms. *)
Lemma focus_inv s s' :
  focus s = Some s' → (0 < natoms (images s))%nat →
  ∃ P1 P2 ind pos calls,
    focus_box s = Some (P1, P2)
    ∧ s' = set_projection ind pos calls
             (set_camera
                (mkCamera (axes (camera s))
                   (if decide (get3 0 (scale3 1.3 (sub3 P2 P1))
                               * IZR (size (window s)).2
                               < get3 1 (scale3 1.3 (sub3 P2 P1))
                                 * IZR (size (window s)).1)
                    then IZR (size (window s)).2
                         / get3 1 (scale3 1.3 (sub3 P2 P1))
                    else IZR (size (window s)).1
                         / get3 0 (scale3 1.3 (sub3 P2 P1)))
                   (matvec (axes (camera s)) (half3 (add3 P1 P2)))) s).
Proof.
  intros Hf Hn. unfold focus in Hf.
  rewrite bool_decide_eq_false_2 in Hf by lia. simpl in Hf.
  apply bind_Some in Hf as ([P1 P2] & Hbox & Hf).
  destruct (size (window s)) as [w h]. simpl in *.
  apply draw_inv in Hf as [calls ->]. by eexists P1, P2, _, _, calls.
Qed.

Lemma focus_total s :
  numpy_argsort argsort → colors_per_atom → wf_view s →
  (0 < natoms (images s))%nat → is_Some (focus s).
Proof.
  intros Hsort Hcol Hwf Hn. unfold focus.
  rewrite bool_decide_eq_false_2 by lia. simpl.
  destruct (focus_box_total s Hwf Hn) as [[P1 P2] ->]. simpl.
  destruct (size (window s)) as [w h].
  apply draw_total; [done..|]. by apply wf_set_camera.
Qed.

(** The scale chosen for a box of positive width and height. *)
Lemma fit_scale (S0 S1 w h : R) :
  0 < S0 → 0 < S1 → 0 <= w → 0 <= h →
  let k := if decide (S0 * h < S1 * w) then h / S1 else w / S0 in
  0 <= k ∧ k * S0 <= w ∧ k * S1 <= h ∧ (k * S0 = w ∨ k * S1 = h).
Proof.
  intros H0 H1 Hw Hh. simpl.
  assert (0 < / S0) as I0 by (by apply Rinv_0_lt_compat).
  assert (0 < / S1) as I1 by (by apply Rinv_0_lt_compat).
  destruct (decide (S0 * h < S1 * w)) as [Hlt|Hge].
  - assert (h / S1 * S1 = h) as E by (field; lra).
    split_and!; [unfold Rdiv; nra| |lra|right; done].
    apply (Rmult_le_reg_r S1); [done|].
    replace (h / S1 * S0 * S1) with (S0 * h) by (field; lra). lra.
  - assert (w / S0 * S0 = w) as E by (field; lra).
    split_and!; [unfold Rdiv; nra|lra| |left; done].
    apply (Rmult_le_reg_r S0); [done|].
    replace (w / S0 * S1 * S0) with (S1 * w) by (field; lra). lra.
Qed.

(** Where a camera centred on [axes · mid] projects a point. *)
Lemma project_fitted (s : View) (k : R) (mid x : V3) :
  orthonormal (axes (camera s)) →
  project (set_camera
             (mkCamera (axes (camera s)) k (matvec (axes (camera s)) mid)) s) x
  = (k * (get3 0 (vecmat x (axes (camera s))) - get3 0 mid)
     + 0.5 * IZR (size (window s)).1,
     - k * (get3 1 (vecmat x (axes (camera s))) - get3 1 mid)
     + 0.5 * IZR (size (window s)).2,
     k * (get3 2 (vecmat x (axes (camera s))) - get3 2 mid)).
Proof.
  unfold project, view_offset, view_axes. simpl.
  destruct (axes (camera s))
    as [[[[m00 m01] m02] [[m10 m11] m12]] [[m20 m21] m22]].
  destruct mid as [[c0 c1] c2]. destruct x as [[x0 x1] x2].
  destruct (size (window s)) as [w h].
  unfold orthonormal. simpl.
  intros (G00 & G11 & G22 & G01 & G02 & G12).
  split_v3; nsatz.
Qed.

(** X17. [focus] picks the largest scale at which the box around the scene,
    enlarged by the factor 1.3, fits the window in width and in height; the
    axes are kept and the center is the middle of the box. *)
Theorem focus_scale_fits s s' a0 rad0 :
  wf_view s →
  (0 <= (size (window s)).1)%Z → (0 <= (size (window s)).2)%Z →
  (a0 < natoms (images s))%nat → r (images s) !! a0 = Some rad0 → 0 < rad0 →
  focus s = Some s' →
  ∃ P1 P2,
    focus_box s = Some (P1, P2)
    ∧ axes (camera s') = axes (camera s)
    ∧ center (camera s') = matvec (axes (camera s)) (half3 (add3 P1 P2))
    ∧ 0 <= scale (camera s')
    ∧ scale (camera s') * (1.3 * (get3 0 P2 - get3 0 P1))
      <= IZR (size (window s)).1
    ∧ scale (camera s') * (1.3 * (get3 1 P2 - get3 1 P1))
      <= IZR (size (window s)).2
    ∧ (scale (camera s') * (1.3 * (get3 0 P2 - get3 0 P1))
       = IZR (size (window s)).1
       ∨ scale (camera s') * (1.3 * (get3 1 P2 - get3 1 P1))
         = IZR (size (window s)).2).
Proof.
  intros Hwf Hw Hh Ha0 Hrad0 Hpos Hf.
  apply focus_inv in Hf as (P1 & P2 & ind & pos & calls & Hbox & ->); [|lia].
  exists P1, P2. split; [done|]. split; [done|]. split; [done|]. simpl.
  destruct (lookup_lt_is_Some_2 (X s) a0) as [x0 Hx0].
  { pose proof (wf_X s Hwf). lia. }
  pose proof (focus_box_contains s P1 P2 a0 x0 rad0 0 Hwf Hbox Ha0 Hx0 Hrad0)
    as [L0 U0].
  pose proof (focus_box_contains s P1 P2 a0 x0 rad0 1 Hwf Hbox Ha0 Hx0 Hrad0)
    as [L1 U1].
  apply IZR_le in Hw, Hh.
  destruct P1 as [[a1 b1] c1], P2 as [[a2 b2] c2]. simpl in *.
  apply fit_scale; lra.
Qed.

(** X18. After [focus] every atom is drawn inside the window: the circle around
    its screen position with the radius [scale * r] stays between 0 and the
    width, and between 0 and the height. *)
Theorem focus_keeps_atoms_in_window s s' a0 rad0 :
  wf_view s → orthonormal (axes (camera s)) →
  (0 <= (size (window s)).1)%Z → (0 <= (size (window s)).2)%Z →
  (a0 < natoms (images s))%nat → r (images s) !! a0 = Some rad0 → 0 < rad0 →
  focus s = Some s' →
  ∀ a x rad,
    (a < natoms (images s))%nat →
    X s !! a = Some x → r (images s) !! a = Some rad →
    0 <= get3 0 (project s' x) - scale (camera s') * rad
    ∧ get3 0 (project s' x) + scale (camera s') * rad
      <= IZR (size (window s)).1
    ∧ 0 <= get3 1 (project s' x) - scale (camera s') * rad
    ∧ get3 1 (project s' x) + scale (camera s') * rad
      <= IZR (size (window s)).2.
Proof.
  intros Hwf Horth Hw Hh Ha0 Hrad0 Hpos Hf a x rad Ha Hx Hrad.
  apply focus_inv in Hf as (P1 & P2 & ind & pos & calls & Hbox & ->); [|lia].
  destruct (lookup_lt_is_Some_2 (X s) a0) as [x0 Hx0].
  { pose proof (wf_X s Hwf). lia. }
  pose proof (focus_box_contains s P1 P2 a0 x0 rad0 0 Hwf Hbox Ha0 Hx0 Hrad0)
    as [L0 U0].
  pose proof (focus_box_contains s P1 P2 a0 x0 rad0 1 Hwf Hbox Ha0 Hx0 Hrad0)
    as [L1 U1].
  pose proof (focus_box_contains s P1 P2 a x rad 0 Hwf Hbox Ha Hx Hrad)
    as [A0 B0].
  pose proof (focus_box_contains s P1 P2 a x rad 1 Hwf Hbox Ha Hx Hrad)
    as [A1 B1].
  apply IZR_le in Hw, Hh.
  set (k := if decide (_ < _) then _ else _).
  assert (0 <= k
          ∧ k * (1.3 * (get3 0 P2 - get3 0 P1)) <= IZR (size (window s)).1
          ∧ k * (1.3 * (get3 1 P2 - get3 1 P1)) <= IZR (size (window s)).2)
    as (Hk & Kw & Kh).
  { subst k. destruct P1 as [[a1 b1] c1], P2 as [[a2 b2] c2]. simpl in *.
    pose proof (fit_scale (1.3 * (a2 - a1)) (1.3 * (b2 - b1))
                  (IZR (size (window s)).1) (IZR (size (window s)).2))
      as Hfit.
    simpl in Hfit. destruct Hfit as (? & ? & ? & _); [lra..|]. done. }
  clearbody k.
  change (project (set_projection ind pos calls ?t) x) with (project t x).
  change (scale (camera (set_projection ind pos calls ?t))) with (scale (camera t)).
  rewrite project_fitted by done.
  set (q := vecmat x (axes (camera s))) in *. clearbody q.
  set (q0 := vecmat x0 (axes (camera s))) in *. clearbody q0.
  destruct P1 as [[a1 b1] c1], P2 as [[a2 b2] c2], q as [[u0 u1] u2],
    q0 as [[v0 v1] v2]. simpl in *.
  generalize dependent (IZR (size (window s)).1). intros w.
  generalize dependent (IZR (size (window s)).2). intros h. intros.
  assert (0 <= k * (u0 - rad - a1)) by (apply Rmult_le_pos; lra).
  assert (0 <= k * (a2 - (u0 + rad))) by (apply Rmult_le_pos; lra).
  assert (0 <= k * (u1 - rad - b1)) by (apply Rmult_le_pos; lra).
  assert (0 <= k * (b2 - (u1 + rad))) by (apply Rmult_le_pos; lra).
  assert (0 <= k * (a2 - a1)) by (apply Rmult_le_pos; lra).
  assert (0 <= k * (b2 - b1)) by (apply Rmult_le_pos; lra).
  split_and!; lra.
Qed.

(** *** The circles of a picture *)

Lemma elem_of_concat {A : Type} (x : A) (ls : list (list A)) :
  x ∈ concat ls ↔ ∃ l, l ∈ ls ∧ x ∈ l.
Proof.
  induction ls as [|l ls IH]; simpl.
  - split; [by intros ?%elem_of_nil|by intros (l & ?%elem_of_nil & _)].
  - rewrite elem_of_app, IH. split.
    + intros [Hin|(l' & Hl' & Hin)].
      * exists l. split; [by left|done].
      * exists l'. split; [by right|done].
    + intros (l' & [->|Hl']%elem_of_cons & Hin); [by left|].
      right. by exists l'.
Qed.

Lemma paint_atom_circle s colors A V a calls col sel x0 y0 x1 y1 :
  paint_atom s colors A V a = Some calls →
  Circle col sel x0 y0 x1 y1 ∈ calls →
  visible (images s) !! a = Some true
  ∧ colors !! a = Some col ∧ selected (images s) !! a = Some sel.
Proof.
  unfold paint_atom. intros Hp Hin.
  apply bind_Some in Hp as (ra & Hra & Hp).
  apply bind_Some in Hp as (vis & Hvis & Hp).
  apply bind_Some in Hp as (cs & Hcs & Hp).
  apply bind_Some in Hp as (marked & _ & Hp).
  destruct marked; [done|]. injection Hp as <-.
  destruct vis; [|injection Hcs as <-; by apply elem_of_nil in Hin].
  apply bind_Some in Hcs as (col' & Hcol & Hcs).
  apply bind_Some in Hcs as (sel' & Hsel & Hcs).
  apply bind_Some in Hcs as (c & Hc & Hcs).
  apply bind_Some in Hcs as (label & Hlabel & Hcs).
  apply bind_Some in Hcs as (dyn & Hdyn & Hcs).
  apply bind_Some in Hcs as (vector & Hvector & Hcs).
  injection Hcs as <-.
  apply elem_of_cons in Hin as [Heq|Hin]; [by simplify_eq|].
  exfalso. rewrite !elem_of_app in Hin. destruct Hin as [Hin|[Hin|Hin]].
  - destruct (labels s) as [ls|]; simplify_option_eq;
      repeat (apply elem_of_cons in Hin as [Hin|Hin]; [done|]);
      by apply elem_of_nil in Hin.
  - destruct dyn; simpl in Hin;
      repeat (apply elem_of_cons in Hin as [Hin|Hin]; [done|]);
      by apply elem_of_nil in Hin.
  - destruct V as [V'|]; simplify_option_eq; unfold arrow in Hin;
      repeat (apply elem_of_cons in Hin as [Hin|Hin]; [done|]);
      by apply elem_of_nil in Hin.
Qed.

Lemma paint_atom_visible s colors A V a calls :
  paint_atom s colors A V a = Some calls →
  visible (images s) !! a = Some true →
  ∃ col sel x0 y0 x1 y1,
    colors !! a = Some col ∧ selected (images s) !! a = Some sel
    ∧ Circle col sel x0 y0 x1 y1 ∈ calls.
Proof.
  unfold paint_atom. intros Hp Hvis'.
  apply bind_Some in Hp as (ra & Hra & Hp).
  apply bind_Some in Hp as (vis & Hvis & Hp).
  apply bind_Some in Hp as (cs & Hcs & Hp).
  apply bind_Some in Hp as (marked & _ & Hp).
  destruct marked; [done|]. injection Hp as <-.
  rewrite Hvis' in Hvis. injection Hvis as <-.
  apply bind_Some in Hcs as (col & Hcol & Hcs).
  apply bind_Some in Hcs as (sel & Hsel & Hcs).
  apply bind_Some in Hcs as (c & Hc & Hcs).
  apply bind_Some in Hcs as (label & Hlabel & Hcs).
  apply bind_Some in Hcs as (dyn & Hdyn & Hcs).
  apply bind_Some in Hcs as (vector & Hvector & Hcs).
  injection Hcs as <-.
  exists col, sel, c.1, c.2, (c.1 + ra)%Z, (c.2 + ra)%Z.
  split; [done|]. split; [done|]. by left.
Qed.

Lemma draw_axes_no_circle s ax col sel x0 y0 x1 y1 :
  draw_axes s = Some ax → Circle col sel x0 y0 x1 y1 ∉ ax.
Proof.
  unfold draw_axes. intros Hax Hin.
  apply bind_Some in Hax as (calls & Hcalls & Hax). injection Hax as <-.
  apply elem_of_concat in Hin as (l & Hl & Hin).
  apply mapM_Some in Hcalls.
  apply list_elem_of_lookup_1 in Hl as [i Hi].
  destruct (Forall2_lookup_r _ _ _ _ _ Hcalls Hi) as (k & _ & Hk).
  simplify_option_eq.
  repeat (apply elem_of_cons in Hin as [Hin|Hin]; [done|]).
  by apply elem_of_nil in Hin.
Qed.

(** What [draw] appends to the trace, and where its circles come from. *)
Lemma draw_trace st s s' :
  draw st s = Some s' →
  ∃ A V colors disp painted rest,
    get_colors s = Some colors
    ∧ Forall2 (λ a calls,
                 (if decide (a < natoms (images s))%nat
                  then paint_atom s colors A V a
                  else paint_segment s disp (a - natoms (images s)))
                 = Some calls) (draw_order s) painted
    ∧ trace s' = trace s ++ Clear :: concat painted ++ rest
    ∧ ∀ col sel x0 y0 x1 y1, Circle col sel x0 y0 x1 y1 ∉ rest.
Proof.
  unfold draw. intros Hd.
  apply bind_Some in Hd as (A & _ & Hd).
  apply bind_Some in Hd as (disp & _ & Hd).
  apply bind_Some in Hd as (V & _ & Hd).
  apply bind_Some in Hd as (colors & Hcol & Hd).
  apply bind_Some in Hd as (painted & Hp & Hd).
  apply bind_Some in Hd as (ax & Hax & Hd). injection Hd as <-.
  apply mapM_Some in Hp.
  eexists A, V, colors, disp, painted, _. split; [done|]. split; [exact Hp|].
  split; [reflexivity|].
  intros col sel x0 y0 x1 y1 Hin.
  rewrite !elem_of_app in Hin. destruct Hin as [Hin|[Hin|Hin]].
  - destruct (show_axes (window s)).
    + by eapply draw_axes_no_circle.
    + injection Hax as <-. by apply elem_of_nil in Hin.
  - destruct (decide _); unfold draw_frame_number in Hin;
      repeat (apply elem_of_cons in Hin as [Hin|Hin]; [done|]);
      by apply elem_of_nil in Hin.
  - repeat (apply elem_of_cons in Hin as [Hin|Hin]; [done|]).
    by apply elem_of_nil in Hin.
Qed.

Lemma paint_segment_no_circle s disp a calls col sel x0 y0 x1 y1 :
  paint_segment s disp a = Some calls → Circle col sel x0 y0 x1 y1 ∉ calls.
Proof.
  unfold paint_segment. intros Hp Hin.
  simplify_option_eq;
    repeat (apply elem_of_cons in Hin as [Hin|Hin]; [done|]);
    by apply elem_of_nil in Hin.
Qed.

(** Every circle of a picture belongs to a visible atom and carries its
    colour and its selected flag. *)
Lemma draw_circle_sound st s s' :
  draw st s = Some s' →
  ∃ calls colors,
    drawn s s' calls ∧ get_colors s = Some colors
    ∧ ∀ col sel x0 y0 x1 y1,
        Circle col sel x0 y0 x1 y1 ∈ calls →
        ∃ a, (a < natoms (images s))%nat
             ∧ visible (images s) !! a = Some true
             ∧ colors !! a = Some col
             ∧ selected (images s) !! a = Some sel.
Proof.
  intros Hd.
  destruct (draw_trace st s s' Hd)
    as (A & V & colors & disp & painted & rest & Hcol & Hp & Ht & Hrest).
  eexists _, colors. split; [exact Ht|]. split; [done|].
  intros col sel x0 y0 x1 y1 Hin.
  apply elem_of_cons in Hin as [Hin|Hin]; [done|].
  apply elem_of_app in Hin as [Hin|Hin]; [|by apply Hrest in Hin].
  apply elem_of_concat in Hin as (l & Hl & Hin).
  apply list_elem_of_lookup_1 in Hl as [i Hi].
  destruct (Forall2_lookup_r _ _ _ _ _ Hp Hi) as (a & _ & Ha).
  destruct (decide (a < natoms (images s))%nat) as [Hlt|Hge].
  - exists a. split; [done|]. by eapply paint_atom_circle.
  - by apply paint_segment_no_circle with (col := col) (sel := sel)
         (x0 := x0) (y0 := y0) (x1 := x1) (y1 := y1) in Ha.
Qed.

(** Every visible atom has its circle in the picture. *)
Lemma draw_circle_complete st s s' a :
  numpy_argsort argsort → (natoms (images s) ≤ length (X s))%nat →
  draw st s = Some s' →
  (a < natoms (images s))%nat → visible (images s) !! a = Some true →
  ∃ calls colors col sel x0 y0 x1 y1,
    drawn s s' calls ∧ get_colors s = Some colors
    ∧ colors !! a = Some col ∧ selected (images s) !! a = Some sel
    ∧ Circle col sel x0 y0 x1 y1 ∈ calls.
Proof.
  intros Hsort HX Hd Ha Hvis.
  destruct (draw_trace st s s' Hd)
    as (A & V & colors & disp & painted & rest & Hcol & Hp & Ht & Hrest).
  assert (a ∈ draw_order s) as Hin.
  { unfold draw_order. rewrite (argsort_perm _ Hsort (depths s)).
    apply elem_of_seq. unfold depths. rewrite length_fmap, length_projected.
    lia. }
  apply list_elem_of_lookup_1 in Hin as [i Hi].
  destruct (Forall2_lookup_l _ _ _ _ _ Hp Hi) as (calls & Hcalls & Hpa).
  destruct (decide (a < natoms (images s))%nat) as [_|]; [|done].
  destruct (paint_atom_visible _ _ _ _ _ _ Hpa Hvis)
    as (col & sel & x0 & y0 & x1 & y1 & Hc & Hs & Hin).
  eexists _, colors, col, sel, x0, y0, x1, y1.
  split; [exact Ht|]. split_and!; [done..|].
  right. apply elem_of_app. left. apply elem_of_concat.
  exists calls. split; [|done]. by eapply list_elem_of_lookup_2.
Qed.

(** X19. [draw] paints a circle in some colour, selected or not, exactly when a
    visible atom has that colour and that flag: hidden atoms are left out
    and no visible atom is. *)
Theorem draw_circles_are_visible_atoms st s s' :
  numpy_argsort argsort → (natoms (images s) ≤ length (X s))%nat →
  draw st s = Some s' →
  ∃ calls colors,
    drawn s s' calls ∧ get_colors s = Some colors
    ∧ ∀ col sel,
        (∃ x0 y0 x1 y1, Circle col sel x0 y0 x1 y1 ∈ calls)
        ↔ (∃ a, (a < natoms (images s))%nat
                ∧ visible (images s) !! a = Some true
                ∧ colors !! a = Some col
                ∧ selected (images s) !! a = Some sel).
Proof.
  intros Hsort HX Hd.
  destruct (draw_circle_sound st s s' Hd) as (calls & colors & Ht & Hcol & Hs).
  exists calls, colors. split; [done|]. split; [done|].
  intros col sel. split.
  - intros (x0 & y0 & x1 & y1 & Hin). by eapply Hs.
  - intros (a & Ha & Hvis & Hc & Hsel).
    destruct (draw_circle_complete st s s' a Hsort HX Hd Ha Hvis)
      as (calls' & colors' & col' & sel' & x0 & y0 & x1 & y1
          & Ht' & Hcol' & Hc' & Hsel' & Hin).
    unfold drawn in Ht, Ht'. rewrite Ht in Ht'.
    apply app_inv_head in Ht' as <-.
    exists x0, y0, x1, y1. by simplify_eq.
Qed.

(** *** Hiding and showing the selected atoms *)

Lemma mask_fill_lookup (mask : list bool) (v : bool) (arr : list bool) (a : nat) :
  mask_fill mask v arr !! a
  = (λ x, if mask !! a is Some true then v else x) <$> arr !! a.
Proof. unfold mask_fill. by rewrite list_lookup_imap. Qed.

Lemma hide_selected_inv s s' :
  hide_selected s = Some s' →
  draw true
    (set_visible (mask_fill (selected (images s)) false (visible (images s))) s)
  = Some s'.
Proof.
  unfold hide_selected, mask_assign. intros Hd.
  apply bind_Some in Hd as (vis & Hvis & Hd).
  apply bind_Some in Hvis as (? & _ & Hvis). by injection Hvis as <-.
Qed.

Lemma show_selected_inv s s' :
  show_selected s = Some s' →
  draw true
    (set_visible (mask_fill (selected (images s)) true (visible (images s))) s)
  = Some s'.
Proof.
  unfold show_selected, mask_assign. intros Hd.
  apply bind_Some in Hd as (vis & Hvis & Hd).
  apply bind_Some in Hvis as (? & _ & Hvis). by injection Hvis as <-.
Qed.

(** X20. [hide_selected] clears the visible flag of the selected atoms and of no
    other atom, keeps the selection, and the picture it draws has no circle
    of a selected atom. *)
Theorem hide_selected_draws_no_selected_atom s s' :
  hide_selected s = Some s' →
  selected (images s') = selected (images s)
  ∧ (∀ a, visible (images s') !! a
          = (λ x, if selected (images s) !! a is Some true then false else x)
              <$> visible (images s) !! a)
  ∧ ∃ calls, drawn s s' calls
             ∧ ∀ col x0 y0 x1 y1, Circle col true x0 y0 x1 y1 ∉ calls.
Proof.
  intros Hd%hide_selected_inv.
  destruct (draw_circle_sound _ _ _ Hd) as (calls & colors & Ht & _ & Hs).
  apply draw_inv in Hd as [calls' ->]. simpl.
  split; [done|]. split; [intros a; apply mask_fill_lookup|].
  exists calls. split; [exact Ht|].
  intros col x0 y0 x1 y1 Hin.
  apply Hs in Hin as (a & _ & Hvis & _ & Hsel). simpl in *.
  rewrite mask_fill_lookup, Hsel in Hvis.
  destruct (visible (images s) !! a); simplify_eq.
Qed.


(** X22. Hiding the selected atoms and showing them again does not restore the
    picture: the selected atoms end up visible also when they were hidden
    before, and the other atoms are as they were. *)
Theorem hide_then_show_selected s s1 s2 :
  hide_selected s = Some s1 → show_selected s1 = Some s2 →
  selected (images s2) = selected (images s)
  ∧ visible (images s2)
    = mask_fill (selected (images s)) true (visible (images s)).
Proof.
  intros H1%hide_selected_inv H2%show_selected_inv.
  apply draw_inv in H1 as [c1 ->]. apply draw_inv in H2 as [c2 ->]. simpl.
  split; [done|]. apply list_eq. intros a.
  rewrite !mask_fill_lookup.
  destruct (visible (images s) !! a) as [v|]; [|done]. simpl.
  by destruct (selected (images s) !! a) as [[]|].
Qed.

Lemma wf_set_visible vis s :
  wf_view s → length vis = natoms (images s) → wf_view (set_visible vis s).
Proof. intros [] Hlen. by split. Qed.

Lemma length_mask_fill mask v arr : length (mask_fill mask v arr) = length arr.
Proof. unfold mask_fill. by rewrite length_imap. Qed.

Lemma hide_selected_total s :
  numpy_argsort argsort → colors_per_atom → wf_view s →
  is_Some (hide_selected s).
Proof.
  intros Hsort Hcol Hwf. unfold hide_selected, show_selected, mask_assign.
  rewrite option_guard_True
    by (by rewrite (wf_selected s Hwf), (wf_visible s Hwf)).
  simpl. apply draw_total; [done..|].
  apply wf_set_visible; [done|]. rewrite length_mask_fill. apply (wf_visible s Hwf).
Qed.

Lemma show_selected_total s :
  numpy_argsort argsort → colors_per_atom → wf_view s →
  is_Some (show_selected s).
Proof.
  intros Hsort Hcol Hwf. unfold hide_selected, show_selected, mask_assign.
  rewrite option_guard_True
    by (by rewrite (wf_selected s Hwf), (wf_visible s Hwf)).
  simpl. apply draw_total; [done..|].
  apply wf_set_visible; [done|]. rewrite length_mask_fill. apply (wf_visible s Hwf).
Qed.

Lemma wf_hide_selected s s' :
  wf_view s → hide_selected s = Some s' → wf_view s'.
Proof.
  intros Hwf Hd%hide_selected_inv.
  apply (wf_draw _ _ _ (wf_set_visible _ s Hwf
                          (eq_trans (length_mask_fill _ _ _) (wf_visible s Hwf)))
           Hd).
Qed.

(** *** The axis tripod *)

Lemma py_int_bounds (x : R) (lo hi : Z) :
  IZR lo <= x <= IZR hi → (lo ≤ py_int x ≤ hi)%Z.
Proof.
  intros [Hlo Hhi]. unfold py_int. destruct (decide (0 <= x)).
  - split; [by apply Zfloor_lub|].
    pose proof (Zfloor_bound x) as [Hf _]. apply le_IZR. lra.
  - pose proof (Zceil_bound x) as [Hc1 Hc2]. split.
    + apply le_IZR. lra.
    + assert (IZR (Zceil x) < IZR hi + 1) as Hlt by lra.
      rewrite <-plus_IZR in Hlt. apply lt_IZR in Hlt. lia.
Qed.

Lemma row_entries_bounded (m : M3) (i c : nat) :
  orthonormal m → -1 <= get3 c (row3 i m) <= 1.
Proof.
  intros Horth. apply orthonormal_transpose in Horth. revert Horth.
  destruct m as [[[[m00 m01] m02] [[m10 m11] m12]] [[m20 m21] m22]].
  unfold orthonormal. simpl. intros (G00 & G11 & G22 & _).
  destruct i as [|[|i]], c as [|[|c]]; simpl; nra.
Qed.

Lemma length_concat_pairs {A B : Type} (g : A → list B) (l : list A) :
  (∀ x, length (g x) = 2%nat) →
  length (concat (g <$> l)) = (2 * length l)%nat.
Proof.
  intros Hg. induction l as [|x l IH]; [done|].
  change (concat (g <$> x :: l)) with (g x ++ concat (g <$> l)).
  rewrite length_app, Hg, IH. simpl. lia.
Qed.

(** X23. [draw_axes] draws the three axes, each as a line from the anchor
    (20, height - 20) with its letter at the tip; for orthonormal camera axes
    every tip is at most 15 pixels away from the anchor in both screen
    directions. *)
Theorem draw_axes_tripod s :
  numpy_argsort argsort → orthonormal (axes (camera s)) →
  ∃ calls,
    draw_axes s = Some calls
    ∧ length calls = 6%nat
    ∧ (∀ i, (i < 3)%nat →
         ∃ x y,
           Line 20 ((size (window s)).2 - 20) x y None ∈ calls
           ∧ TextAxis x y i ∈ calls
           ∧ (5 ≤ x ≤ 35)%Z
           ∧ ((size (window s)).2 - 35 ≤ y ≤ (size (window s)).2 - 5)%Z)
    ∧ (∀ x y i, TextAxis x y i ∈ calls → (i < 3)%nat).
Proof.
  intros Hsort Horth. unfold draw_axes.
  set (ax := axes (camera s)).
  set (keys := get3 2 <$> [row3 0 ax; row3 1 ax; row3 2 ax]).
  set (b := ((size (window s)).2 - 20)%Z).
  set (g := λ i : nat,
              [Line 20 b (py_int (get3 0 (row3 i ax) * 15 + IZR 20))
                 (py_int (- get3 1 (row3 i ax) * 15 + IZR b)) None;
               TextAxis (py_int (get3 0 (row3 i ax) * 15 + IZR 20))
                 (py_int (- get3 1 (row3 i ax) * 15 + IZR b)) i]).
  pose proof (argsort_perm _ Hsort keys) as Hperm. simpl in Hperm.
  assert (∀ i, i ∈ argsort keys ↔ (i < 3)%nat) as Hin.
  { intros i. rewrite Hperm, !elem_of_cons, elem_of_nil. lia. }
  match goal with |- ∃ calls, mapM ?f ?l ≫= _ = _ ∧ _ =>
    assert (mapM f l = Some (g <$> l)) as -> end.
  { apply mapM_Some_2, Forall2_fmap_r, Forall_Forall2_diag, Forall_forall.
    intros i Hi. apply Hin in Hi. by rewrite option_guard_True. }
  simpl. eexists. split; [reflexivity|]. split.
  { rewrite length_concat_pairs by done.
    by rewrite (Permutation_length Hperm). }
  split.
  - intros i Hi. apply Hin in Hi as Hi'.
    pose proof (row_entries_bounded ax i 0 Horth) as H0.
    pose proof (row_entries_bounded ax i 1 Horth) as H1.
    eexists _, _. split; [|split; [|split]].
    + apply elem_of_concat. exists (g i). split; [by apply list_elem_of_fmap_2|].
      by left.
    + apply elem_of_concat. exists (g i). split; [by apply list_elem_of_fmap_2|].
      right. by left.
    + apply py_int_bounds. lra.
    + apply py_int_bounds. subst b. rewrite !minus_IZR. lra.
  - intros x y i Hi. apply elem_of_concat in Hi as (l & Hl & Hi).
    apply list_elem_of_fmap in Hl as (j & -> & Hj). apply Hin in Hj.
    apply elem_of_cons in Hi as [Hi|Hi]; [done|].
    apply elem_of_cons in Hi as [Hi|Hi]; [by simplify_eq|].
    by apply elem_of_nil in Hi.
Qed.

(** *** Looking along a lattice plane *)

Lemma dot3_pos (x : V3) : x ≠ (0, 0, 0) → 0 < dot3 x x.
Proof.
  destruct x as [[a b] c]. intros Hne. simpl.
  destruct (Req_dec a 0) as [->|Ha]; [|nra].
  destruct (Req_dec b 0) as [->|Hb]; [|nra].
  destruct (Req_dec c 0) as [->|Hc]; [done|nra].
Qed.

Lemma norm3_square (x : V3) : Box.norm3 x * Box.norm3 x = dot3 x x.
Proof.
  unfold Box.norm3. apply sqrt_sqrt. destruct x as [[a b] c]. simpl. nra.
Qed.

Lemma norm3_pos (x : V3) : x ≠ (0, 0, 0) → 0 < Box.norm3 x.
Proof. intros Hne. apply sqrt_lt_R0. by apply dot3_pos. Qed.

(** Two orthogonal unit vectors and their cross product, written as
    columns, form an orthonormal array. *)
Lemma frame_orthonormal (u v : V3) :
  dot3 u u = 1 → dot3 v v = 1 → dot3 u v = 0 →
  orthonormal (transpose (u, v, cross3 u v)).
Proof.
  destruct u as [[u0 u1] u2], v as [[v0 v1] v2]. unfold orthonormal. simpl.
  intros Hu Hv Huv. split_and!; nsatz.
Qed.

Lemma lattice_axes_spec (x1 x2 : V3) :
  cross3 x1 x2 ≠ (0, 0, 0) →
  orthonormal (lattice_axes x1 x2)
  ∧ vecmat x1 (lattice_axes x1 x2) = (Box.norm3 x1, 0, 0)
  ∧ get3 2 (vecmat x2 (lattice_axes x1 x2)) = 0
  ∧ 0 < get3 1 (vecmat x2 (lattice_axes x1 x2)).
Proof.
  intros Hc.
  assert (x1 ≠ (0, 0, 0)) as H1.
  { intros ->. apply Hc. destruct x2 as [[d e] f]. simpl. split_v3; ring. }
  pose proof (norm3_pos x1 H1) as Hn1.
  pose proof (norm3_square x1) as Hq1.
  unfold lattice_axes.
  set (n1 := Box.norm3 x1) in *.
  assert (n1 * / n1 = 1) as Hi1 by (apply Rinv_r; lra).
  set (i1 := / n1) in *.
  set (u := scale3 i1 x1).
  set (w := sub3 x2 (scale3 (dot3 u x2) u)).
  assert (n1 * n1 * dot3 w w = dot3 (cross3 x1 x2) (cross3 x1 x2)) as Hw.
  { subst w u. clearbody i1 n1.
    destruct x1 as [[a b] c], x2 as [[d e] f]. simpl in *. nsatz. }
  assert (w ≠ (0, 0, 0)) as H2.
  { intros E. rewrite E in Hw. pose proof (dot3_pos _ Hc). simpl in Hw. lra. }
  pose proof (norm3_pos w H2) as Hn2.
  pose proof (norm3_square w) as Hq2.
  set (n2 := Box.norm3 w) in *.
  assert (n2 * / n2 = 1) as Hi2 by (apply Rinv_r; lra).
  set (i2 := / n2) in *.
  set (v := scale3 i2 w).
  assert (dot3 u u = 1) as Huu.
  { subst u. clearbody i1 n1. clear -Hq1 Hi1.
    destruct x1 as [[a b] c]. simpl in *. nsatz. }
  assert (dot3 u w = 0) as Huw.
  { subst w. clearbody u. clear -Huu.
    destruct u as [[u0 u1] u2], x2 as [[d e] f]. simpl in *. nsatz. }
  assert (dot3 v v = 1) as Hvv.
  { subst v. clearbody i2 n2 w. clear -Hq2 Hi2.
    destruct w as [[a b] c]. simpl in *. nsatz. }
  assert (dot3 u v = 0) as Huv.
  { subst v. clearbody i2 w u. clear -Huw.
    destruct w as [[a b] c], u as [[u0 u1] u2]. simpl in *. nsatz. }
  assert (x1 = scale3 n1 u) as E1.
  { subst u. clearbody i1 n1. clear -Hi1.
    destruct x1 as [[a b] c]. simpl. split_v3; nsatz. }
  assert (x2 = add3 (scale3 n2 v) (scale3 (dot3 u x2) u)) as E2.
  { subst v w. clearbody i2 n2 u. clear -Hi2.
    destruct x2 as [[d e] f], u as [[u0 u1] u2]. simpl. split_v3; nsatz. }
  split; [by apply frame_orthonormal|].
  set (t := dot3 u x2) in *. clearbody t v u n1 n2.
  clear -Huu Hvv Huv E1 E2 Hn1 Hn2. subst x1.
  destruct u as [[u0 u1] u2], v as [[v0 v1] v2].
  rewrite E2. clear E2.
  unfold vecmat, transpose, col3, cross3, scale3, add3, get3, dot3 in *.
  split; [split_v3; nsatz|].
  split; [nsatz|].
  replace ((n2 * v0 + t * u0) * v0 + (n2 * v1 + t * u1) * v1
           + (n2 * v2 + t * u2) * v2) with n2 by nsatz.
  done.
Qed.

Lemma plane_indices_lattice (name : string) (ij : nat * nat) :
  plane_indices name = Some ij →
  name ≠ "xyPlane"%string ∧ name ≠ "yzPlane"%string
  ∧ name ≠ "zxPlane"%string ∧ name ≠ "yxPlane"%string
  ∧ name ≠ "zyPlane"%string ∧ name ≠ "xzPlane"%string.
Proof.
  unfold plane_indices. intros Hij.
  repeat (destruct (decide _) as [->|?] in Hij; [by split_and!|]). done.
Qed.

(** X24. Choosing a lattice plane from the menu: for lattice vectors [a_i] and
    [a_j] that are not parallel the new axes are orthonormal, [a_i] points
    along the first camera direction, and [a_j] lies in the plane of the
    screen (no depth) on the positive side of the second direction. *)
Theorem lattice_plane_in_screen rotate s name i j cell m :
  plane_indices name = Some (i, j) →
  A (images s) !! frame s = Some cell →
  cross3 (row3 i cell) (row3 j cell) ≠ (0, 0, 0) →
  set_view_axes rotate s name = Some m →
  orthonormal m
  ∧ vecmat (row3 i cell) m = (Box.norm3 (row3 i cell), 0, 0)
  ∧ get3 2 (vecmat (row3 j cell) m) = 0
  ∧ 0 < get3 1 (vecmat (row3 j cell) m).
Proof.
  intros Hij Hcell Hc Hm. unfold set_view_axes in Hm.
  destruct (plane_indices_lattice _ _ Hij) as (N1 & N2 & N3 & N4 & N5 & N6).
  repeat (destruct (decide _) as [?|_] in Hm; [done|]).
  rewrite Hij, Hcell in Hm. simpl in Hm. injection Hm as <-.
  by apply lattice_axes_spec.
Qed.

End GuiFacts.

(** ** The colour of every atom *)

Section ColorFacts.
Import Colors.
Local Open Scope R_scope.
Context {Color : Type}.

Lemma scale_index_range (N : nat) (cmin cmax x : R) :
  (0 < N)%nat → (0 ≤ scale_index N cmin cmax x < Z.of_nat N)%Z.
Proof. unfold scale_index, clip. lia. Qed.

Lemma scale_index_top (N : nat) (cmin cmax x : R) :
  (0 < N)%nat → cmin < cmax → cmax <= x →
  scale_index N cmin cmax x = (Z.of_nat N - 1)%Z.
Proof.
  intros HN Hlt Hx. unfold scale_index, clip.
  set (v := (x - cmin) / (cmax - cmin) * INR N + 0.5).
  assert (IZR (Z.of_nat N) <= v) as Hv.
  { subst v. rewrite <-INR_IZR_INZ.
    assert (1 <= (x - cmin) / (cmax - cmin)) as Hq.
    { apply (Rmult_le_reg_r (cmax - cmin)); [lra|].
      replace ((x - cmin) / (cmax - cmin) * (cmax - cmin)) with (x - cmin)
        by (field; lra). lra. }
    pose proof (pos_INR N). nra. }
  assert (0 <= v) as Hv0.
  { pose proof (IZR_le 0 (Z.of_nat N) ltac:(lia)). lra. }
  unfold py_int. destruct (decide (0 <= v)); [|done].
  pose proof (Zfloor_lub _ _ Hv). lia.
Qed.

Lemma scale_index_bottom (N : nat) (cmin cmax x : R) :
  (0 < N)%nat → cmin < cmax → x <= cmin →
  scale_index N cmin cmax x = 0%Z.
Proof.
  intros HN Hlt Hx. unfold scale_index, clip.
  set (v := (x - cmin) / (cmax - cmin) * INR N + 0.5).
  assert (v <= 0.5) as Hv.
  { subst v.
    assert ((x - cmin) / (cmax - cmin) <= 0) as Hq.
    { apply (Rmult_le_reg_r (cmax - cmin)); [lra|].
      replace ((x - cmin) / (cmax - cmin) * (cmax - cmin)) with (x - cmin)
        by (field; lra). lra. }
    pose proof (pos_INR N). nra. }
  assert (py_int v ≤ 0)%Z as Hp.
  { unfold py_int. destruct (decide (0 <= v)).
    - rewrite (Zfloor_eq 0 v); [done|]. simpl. lra.
    - pose proof (Zceil_bound v) as [Hc _].
      assert (IZR (Zceil v) < 1) as Hlt1 by lra.
      apply lt_IZR in Hlt1. lia. }
  lia.
Qed.

Lemma py_item_nat {A : Type} (l : list A) (i : Z) :
  (0 ≤ i)%Z → py_item l i = l !! Z.to_nat i.
Proof. intros Hi. unfold py_item. by destruct (decide (0 ≤ i)%Z). Qed.

(** X25. In a colour mode other than the default one every atom gets a colour
    of the colour scale: the result has one entry per scalar, all of them
    from the scale; with [cmin < cmax] a scalar at or above [cmax] gets the
    last colour and one at or below [cmin] the first. *)
Theorem scalar_colors_from_scale (p : Palette Color) xs colorscale cmin cmax :
  colormode p ≠ "jmol"%string →
  get_color_scalars p = Some xs →
  colormode_data p = Some (colorscale, cmin, cmax) →
  colorscale ≠ [] →
  ∃ cols,
    get_colors p = Some cols
    ∧ length cols = length xs
    ∧ (∀ c, c ∈ cols → c ∈ colorscale)
    ∧ (cmin < cmax → ∀ i x, xs !! i = Some x →
         (cmax <= x → cols !! i = last colorscale)
         ∧ (x <= cmin → cols !! i = head colorscale)).
Proof.
  intros Hmode Hxs Hdata Hne. unfold get_colors.
  destruct (decide (colormode p = "jmol"%string)) as [|_]; [done|].
  rewrite Hxs, Hdata. simpl.
  assert (0 < length colorscale)%nat as HN.
  { destruct colorscale; [done|simpl; lia]. }
  set (f := λ x, py_item colorscale
                   (scale_index (length colorscale) cmin cmax x)).
  assert (∀ x, f x = colorscale
                     !! Z.to_nat (scale_index (length colorscale) cmin cmax x))
    as Hf.
  { intros x. unfold f. apply py_item_nat.
    by apply scale_index_range. }
  destruct (mapM_is_Some_2 f xs) as [cols Hcols].
  { apply Forall_forall. intros x _. simpl. rewrite Hf.
    apply lookup_lt_is_Some_2.
    pose proof (scale_index_range (length colorscale) cmin cmax x HN). lia. }
  exists cols. split; [done|].
  pose proof (length_mapM _ _ _ Hcols) as Hlen.
  apply mapM_Some in Hcols. split; [done|]. split.
  - intros c Hc. apply list_elem_of_lookup_1 in Hc as [i Hi].
    destruct (Forall2_lookup_r _ _ _ _ _ Hcols Hi) as (x & _ & Hx).
    rewrite Hf in Hx. by eapply list_elem_of_lookup_2.
  - intros Hlt i x Hi.
    destruct (Forall2_lookup_l _ _ _ _ _ Hcols Hi) as (c & Hc & Hx).
    rewrite Hf in Hx. rewrite Hc. split; intros Hbound.
    + rewrite scale_index_top in Hx by done.
      rewrite last_lookup, <-Hx. f_equal. lia.
    + rewrite scale_index_bottom in Hx by done.
      by rewrite head_lookup, <-Hx.
Qed.

End ColorFacts.

Lemma scalar_colors_from_scale_witness :
  ∃ cols,
    Colors.get_colors Colors.charge_palette = Some cols
    ∧ length cols = 3%nat
    ∧ (∀ c, c ∈ cols → c ∈ [10; 11; 12; 13]%nat)
    ∧ ((0 < 1)%R → ∀ i x, ([-1; 0.5; 3]%R : list R) !! i = Some x →
         ((1 <= x)%R → cols !! i = Some 13%nat)
         ∧ ((x <= 0)%R → cols !! i = Some 10%nat)).
Proof.
  apply (scalar_colors_from_scale Colors.charge_palette [-1; 0.5; 3]%R
           [10; 11; 12; 13]%nat 0%R 1%R); done.
Defined.

(** ** The line drawn for a bond *)

Section SegmentFacts.
Import Bonds Segments.
Local Open Scope R_scope.

Lemma np_item_fmap {A B : Type} (f : A → B) (l : list A) (i : Z) :
  np_item (f <$> l) i = f <$> np_item l i.
Proof.
  unfold np_item. rewrite length_fmap.
  repeat destruct (decide _); by rewrite ?list_lookup_fmap.
Qed.

Lemma times3_scale3 (v : V3) (k : R) : times3 v k = scale3 k v.
Proof. destruct v as [[x y] z]. simpl. split_v3; ring. Qed.

(** X26. The line of a bond between two atoms at different places starts on
    the straight line from the first atom to its partner, at 0.65 times the
    radius of the first atom; without a periodic offset it ends 0.65 times
    the radius of the second atom before the partner, and with one it ends
    half way between these two points. *)
Theorem bond_segment_ends P Af rad bond a p2 ra rb :
  np_item P (first bond) = Some a →
  partner P Af bond = Some p2 →
  np_item rad (first bond) = Some ra →
  np_item rad (second bond) = Some rb →
  0 <= ra → 0 <= rb → a ≠ p2 →
  ∃ start stop tip,
    bond_segment P Af rad bond = Some (start, stop)
    ∧ start = add3 a (scale3 (0.65 * ra / Box.norm3 (sub3 p2 a)) (sub3 p2 a))
    ∧ tip = sub3 p2 (scale3 (0.65 * rb / Box.norm3 (sub3 p2 a)) (sub3 p2 a))
    ∧ Box.norm3 (sub3 start a) = 0.65 * ra
    ∧ Box.norm3 (sub3 p2 tip) = 0.65 * rb
    ∧ stop = (if any_nonzero (offset bond)
              then scale3 (1 / 2) (add3 start tip) else tip).
Proof.
  intros Ha Hp Hra Hrb Hra0 Hrb0 Hne.
  unfold partner in Hp. apply bind_Some in Hp as (pb & Hpb & Hp).
  unfold bond_segment.
  set (periodic := any_nonzero (offset bond)). clearbody periodic.
  rewrite Ha, Hpb. simpl.
  destruct (offset bond) as [[o0 o1] o2] eqn:Hoff. injection Hp as Hp.
  rewrite Hp. rewrite !np_item_fmap, Hra, Hrb. simpl.
  set (b := sub3 p2 a).
  assert (b ≠ (0, 0, 0)) as Hb.
  { subst b. intros E. apply Hne.
    destruct p2 as [[x y] z], a as [[u v] w]. simpl in E.
    injection E as E0 E1 E2. split_v3; lra. }
  assert (0 < Box.norm3 b) as Hd.
  { apply sqrt_lt_R0. destruct b as [[x y] z]. simpl.
    destruct (Req_dec x 0) as [->|?]; [|nra].
    destruct (Req_dec y 0) as [->|?]; [|nra].
    destruct (Req_dec z 0) as [->|?]; [done|nra]. }
  change (sqrt (dot3 b b)) with (Box.norm3 b).
  set (d := Box.norm3 b) in *.
  assert (0 <= 0.65 * ra / d) as Hx0.
  { apply Rmult_le_pos; [lra|]. left. by apply Rinv_0_lt_compat. }
  assert (0 <= 0.65 * rb / d) as Hx1.
  { apply Rmult_le_pos; [lra|]. left. by apply Rinv_0_lt_compat. }
  eexists _, _, _. split; [reflexivity|].
  split; [by rewrite times3_scale3|]. split; [reflexivity|].
  split; [|split].
  - replace (sub3 (add3 a (times3 b (0.65 * ra / d))) a)
      with (scale3 (0.65 * ra / d) b).
    2:{ destruct a as [[u v] w], b as [[x y] z]. simpl. split_v3; ring. }
    rewrite norm3_scale by done. fold d. field. lra.
  - replace (sub3 p2 (sub3 p2 (scale3 (0.65 * rb / d) b)))
      with (scale3 (0.65 * rb / d) b).
    2:{ destruct p2 as [[u v] w], b as [[x y] z]. simpl. split_v3; ring. }
    rewrite norm3_scale by done. fold d. field. lra.
  - clearbody d. subst b.
    generalize (0.65 * ra / d) (0.65 * rb / d). intros x0 x1.
    destruct periodic;
      destruct a as [[u v] w], p2 as [[x y] z]; simpl; split_v3.
    all: replace 1.0 with 1 by lra; try replace 0.5 with (/ 2) by lra; field.
Qed.

End SegmentFacts.

(** A bond from the atom at the origin to the image, one cell to the
    right, of the atom at (2, 0, 0). *)
Lemma bond_segment_ends_witness :
  ∃ start stop tip,
    Segments.bond_segment [(0, 0, 0); (2, 0, 0)]%R Gui.identity3 [1; 1]%R
      (Bonds.mkRow 0 1 (1, 0, 0)%Z) = Some (start, stop)
    ∧ Box.norm3 (sub3 start (0, 0, 0)%R) = (0.65 * 1)%R
    ∧ stop = scale3 (1 / 2)%R (add3 start tip).
Proof.
  destruct (bond_segment_ends [(0, 0, 0); (2, 0, 0)]%R Gui.identity3 [1; 1]%R
              (Bonds.mkRow 0 1 (1, 0, 0)%Z) (0, 0, 0)%R
              (add3 (2, 0, 0)%R (vecmat (IZR 1, IZR 0, IZR 0) Gui.identity3))
              1%R 1%R eq_refl eq_refl eq_refl eq_refl)
    as (start & stop & tip & Hseg & _ & _ & Hlen & _ & Hstop); [lra|lra| |].
  { simpl. intros [=]. lra. }
  by exists start, stop, tip.
Defined.

(** ** The demo scene *)

Section DemoFacts.
Import Gui.
Local Open Scope R_scope.



Lemma demo_wf : @wf_view demo_toolkit demo_view.
Proof. split; simpl; (done || lia). Qed.

Lemma coincident_wf : @wf_view demo_toolkit coincident_view.
Proof. split; simpl; (done || lia). Qed.

Lemma demo_colors : @colors_per_atom demo_toolkit demo_collaborators.
Proof.
  intros s. eexists. split; [reflexivity|]. by rewrite length_replicate.
Qed.


(** In a view that shows the demo scene as [draw] projects it, with the
    pointer pressed at the origin, atom 0 is the front-most hit atom. *)
Lemma demo_front_most_hit (s : @View demo_toolkit) :
  indices s = [1; 0]%nat → P s = [(0, 0); (500, 0)] →
  natoms (images s) = 2%nat → r (images s) = [1; 1] →
  scale (camera s) = 100 → xy (pressed s) = (0, 0) →
  front_most_hit s 0.
Proof.
  intros Hind HP Hn Hr Hscale Hxy. exists [1%nat], []. split; [done|]. split.
  - split; [lia|]. exists (0, 0), 1. rewrite HP, Hr, Hscale, Hxy. simpl.
    split_and!; [done..|]. unfold Rsqr. lra.
  - intros a Ha. by apply elem_of_nil in Ha.
Qed.

(** C10 at the demo scene: a release of the middle button. *)
Lemma release_other_button_is_noop_witness :
  ∃ s', @release demo_toolkit demo_collaborators demo_view
          (mkEvent 2 0 0 100 None) = Some s'
    ∧ s' = demo_view
    ∧ selected (images s') = selected (images demo_view)
    ∧ selected_ordered (images s') = selected_ordered (images demo_view)
    ∧ camera s' = camera demo_view
    ∧ trace s' = trace demo_view.
Proof.
  apply (@release_other_button_is_noop demo_toolkit demo_collaborators);
    simpl; lia.
Defined.

(** C4 at the demo scene: a tap with the primary button. *)
Lemma release_ordered_selection_consistent_witness :
  (∀ s', @release demo_toolkit demo_collaborators demo_view
           (mkEvent 1 0 0 100 None) = Some s' →
         length (selected_ordered (images s')) = length (selected_atoms s')
         ∨ selected_ordered (images s') = [])
  ∧ ∃ s', @release demo_toolkit demo_collaborators demo_view
            (mkEvent 1 0 0 100 None) = Some s'.
Proof.
  destruct (@release_ordered_selection_consistent demo_toolkit
              demo_collaborators demo_view (mkEvent 1 0 0 100 None) eq_refl)
    as [Hinv Htotal].
  split; [exact Hinv|].
  exact (Htotal insertion_argsort_contract demo_colors demo_wf).
Defined.





Lemma identity3_orthonormal : orthonormal identity3.
Proof. unfold orthonormal. simpl. split_and!; lra. Qed.

(** C5 at the scene with button 3 pressed: a drag to the right. *)
Lemma move_rotation_keeps_orthonormal_witness :
  ∃ s', @move demo_toolkit demo_collaborators coincident_view
          (mkEvent 3 10 0 100 None) = Some s'
    ∧ orthonormal (axes (camera s')).
Proof.
  destruct (@move_rotation_keeps_orthonormal demo_toolkit demo_collaborators
              coincident_view (mkEvent 3 10 0 100 None))
    as [Horth Htotal]; [done..|apply identity3_orthonormal|].
  destruct (Htotal insertion_argsort_contract demo_colors coincident_wf)
    as [s' Hmove].
  exists s'. split; [done|]. by apply Horth.
Defined.

(** C7, as the specification states it, fails when bonds are shown: atom 0
    of the demo scene has world radius 1 and three equal semi-axes, the
    scale is 100, and the circle drawn for it has the diameter 130, not the
    announced 100 (twice half of [1 * 100]). *)
Lemma circle_with_bonds_not_half_radius :
  show_bonds (window demo_view) = true
  ∧ ∃ A c,
      @corners demo_toolkit demo_view = Some A
      ∧ @my_arc demo_toolkit demo_view (foreground_gc demo_view) true 0 (projected demo_view)
          (screen_radii demo_view) 2 A (diameters demo_view)
        = Some (PixArc (foreground_gc demo_view) true c.1 c.2 130 130 0 23040)
      ∧ IZR 130 ≠ 2 * announced_radius demo_view 1.
Proof.
  split; [done|].
  destruct (@corners_total demo_toolkit demo_view demo_wf) as (A & HA & LA).
  destruct (lookup_lt_is_Some_2 A 0) as [c Hc]; [simpl in LA; lia|].
  exists A, c. split; [done|]. split.
  - erewrite my_arc_circle; [done|done|done|done|done|done|].
    rewrite (diameters_lookup demo_view 0 1) by done. simpl.
    f_equal. apply np_round_eq. lra.
  - unfold announced_radius. simpl. lra.
Qed.

(** C7 at the demo scene. *)
Lemma equal_axes_drawn_as_circle_witness :
  ∃ A c,
    @corners demo_toolkit demo_view = Some A ∧ A !! 0%nat = Some c
    ∧ @my_arc demo_toolkit
        (set_quaternions [[(0, 1, 0, 0); (0, 0, 1, 0)]] demo_view)
        (foreground_gc demo_view) true 0
        (projected demo_view) (screen_radii demo_view) 2 A
        (diameters demo_view)
      = @my_arc demo_toolkit demo_view (foreground_gc demo_view) true 0 (projected demo_view)
          (screen_radii demo_view) 2 A (diameters demo_view)
    ∧ @my_arc demo_toolkit demo_view (foreground_gc demo_view) true 0 (projected demo_view)
        (screen_radii demo_view) 2 A (diameters demo_view)
      = Some (PixArc (foreground_gc demo_view) true c.1 c.2
                (np_round (2 * (1 * (0.65 * 100))))
                (np_round (2 * (1 * (0.65 * 100)))) 0 23040).
Proof.
  destruct (@corners_total demo_toolkit demo_view demo_wf) as (A & HA & LA).
  destruct (lookup_lt_is_Some_2 A 0) as [c Hc]; [simpl in LA; lia|].
  exists A, c. split; [done|]. split; [done|].
  by apply (@equal_axes_drawn_as_circle demo_toolkit demo_view (foreground_gc demo_view) true 0%nat
              (projected demo_view) (screen_radii demo_view) 2%nat A
              [(1, 1, 1); (1, 1, 1)] (1, 1, 1) 1 c).
Defined.

(** C9, as the specification states it, fails: for a vector of screen
    length 100 at scale 100 the shaft is drawn from (0, 0) to (100, 0), which
    is longer than [0.3 * scale = 30]. *)
Lemma arrow_shaft_not_capped :
  ∃ head,
    @arrow demo_toolkit demo_view (0, 0, 0) (100, 0, 0)
    = PixLine (foreground_gc demo_view) 0 0 100 0 :: head
    ∧ ¬ (sqrt ((IZR 100 - IZR 0)² + (IZR 0 - IZR 0)²)
         <= 0.3 * scale (camera demo_view)).
Proof.
  eexists. split.
  - unfold arrow. simpl. rewrite !np_round_IZR. reflexivity.
  - simpl. replace ((100 - 0)² + (0 - 0)²) with (100²) by (unfold Rsqr; lra).
    rewrite sqrt_Rsqr by lra. lra.
Qed.

(** C8 at its failing input: with two coincident atoms flagged, the
    difference of their positions is the zero vector and
    [toggle_orient_mode] divides it by its length 0 without a guard; every
    component of the stored normal is not-a-number. *)
Theorem toggle_orient_mode_coincident_atoms :
  @toggle_orient_mode demo_toolkit demo_collaborators coincident_view
  = Some (set_orient_normal (NaN, NaN, NaN) coincident_view).
Proof.
  transitivity
    (Some (set_orient_normal (normalise (sub3 (2, 3, 4) (2, 3, 4)))
             coincident_view)); [reflexivity|].
  by rewrite normalise_zero.
Qed.


(** A ctrl-tap on atom 0 of the demo scene, where nothing is selected. *)
Lemma ctrl_tap_adds_atom_witness :
  ∃ s', @release demo_toolkit demo_collaborators demo_view
          (mkEvent 1 0 0 100 (Some Ctrl)) = Some s'
    ∧ selected (images s') = [true; false]
    ∧ selected_ordered (images s') = [0%nat].
Proof.
  apply (@ctrl_tap_adds_atom demo_toolkit demo_collaborators demo_view
           (mkEvent 1 0 0 100 (Some Ctrl)) 0%nat insertion_argsort_contract
           demo_colors demo_wf eq_refl).
  - simpl. lia.
  - reflexivity.
  - by apply demo_front_most_hit.
  - reflexivity.
Defined.

Lemma selected_wf :
  @wf_view demo_toolkit (set_selection [true; false] [0%nat] demo_view).
Proof. split; simpl; (done || lia). Qed.

(** A ctrl-tap on atom 0 of the demo scene when it is the selection. *)
Lemma ctrl_tap_removes_atom_witness :
  ∃ s', @release demo_toolkit demo_collaborators
          (set_selection [true; false] [0%nat] demo_view)
          (mkEvent 1 0 0 100 (Some Ctrl)) = Some s'
    ∧ selected (images s') = [false; false]
    ∧ selected_ordered (images s') = [].
Proof.
  apply (@ctrl_tap_removes_atom demo_toolkit demo_collaborators
           (set_selection [true; false] [0%nat] demo_view)
           (mkEvent 1 0 0 100 (Some Ctrl)) 0%nat insertion_argsort_contract
           demo_colors selected_wf eq_refl).
  - simpl. lia.
  - reflexivity.
  - by apply demo_front_most_hit.
  - reflexivity.
Defined.




Lemma handlers_keep_well_formed_witness :
  wf_view (press demo_view (mkEvent 1 3 4 100 None))
  ∧ (∀ s', @move demo_toolkit demo_collaborators demo_view
             (mkEvent 1 3 4 100 None) = Some s' → wf_view s')
  ∧ (∀ s', (1 ≠ 4)%Z → (1 ≠ 5)%Z →
           @release demo_toolkit demo_collaborators demo_view
             (mkEvent 1 3 4 100 None) = Some s' → wf_view s').
Proof.
  apply (@handlers_keep_well_formed demo_toolkit demo_collaborators demo_view
           (mkEvent 1 3 4 100 None) demo_wf).
Defined.

(** A pan with button 3 and shift, ten pixels right and five down. *)
Lemma pan_follows_pointer_witness :
  ∃ s', @move demo_toolkit demo_collaborators coincident_view
          (mkEvent 3 10 5 100 (Some Shift)) = Some s'
    ∧ axes (camera s') = identity3
    ∧ scale (camera s') = 1
    ∧ ∀ x, project s' x
           = add3 (project (at_press identity3 coincident_view) x)
               (10 - 0, 5 - 0, 0).
Proof.
  destruct (@move_total demo_toolkit demo_collaborators coincident_view
              (mkEvent 3 10 5 100 (Some Shift)) insertion_argsort_contract
              demo_colors coincident_wf) as [s' Hmove].
  exists s'. split; [exact Hmove|].
  destruct (@pan_follows_pointer demo_toolkit demo_collaborators coincident_view
              (mkEvent 3 10 5 100 (Some Shift)) s')
    as (Haxes & Hscale & _ & Hpress); simpl;
    [lia|lia|reflexivity|apply identity3_orthonormal|lra|exact Hmove|].
  split; [exact Haxes|]. split; [exact Hscale|]. exact (Hpress eq_refl).
Defined.

(** A rotation drag with button 3 about the two coincident atoms. *)
Lemma rotation_keeps_pivot_witness :
  ∃ s', @move demo_toolkit demo_collaborators coincident_view
          (mkEvent 3 10 0 100 None) = Some s'
    ∧ project s' (mean3 [(2, 3, 4); (2, 3, 4)])
      = project (at_press identity3 coincident_view)
          (mean3 [(2, 3, 4); (2, 3, 4)]).
Proof.
  destruct (@move_total demo_toolkit demo_collaborators coincident_view
              (mkEvent 3 10 0 100 None) insertion_argsort_contract
              demo_colors coincident_wf) as [s' Hmove].
  exists s'. split; [exact Hmove|].
  apply (@rotation_keeps_pivot demo_toolkit demo_collaborators coincident_view
           (mkEvent 3 10 0 100 None) s'); simpl;
    [lia|lia|discriminate|apply identity3_orthonormal|exact Hmove|reflexivity].
Defined.

(** A drag with button 3 that ends where it began. *)
Lemma zero_drag_keeps_camera_witness :
  ∃ s', @move demo_toolkit demo_collaborators coincident_view
          (mkEvent 3 0 0 100 None) = Some s'
    ∧ axes (camera s') = identity3
    ∧ scale (camera s') = 1
    ∧ (orthonormal identity3 → center (camera s') = zero3).
Proof.
  destruct (@move_total demo_toolkit demo_collaborators coincident_view
              (mkEvent 3 0 0 100 None) insertion_argsort_contract
              demo_colors coincident_wf) as [s' Hmove].
  exists s'. split; [exact Hmove|].
  apply (@zero_drag_keeps_camera demo_toolkit demo_collaborators coincident_view
           (mkEvent 3 0 0 100 None) s'); simpl;
    [lia|lia|discriminate|reflexivity|reflexivity|exact Hmove].
Defined.

(** Orient mode with two flagged atoms five units apart along x. *)
Lemma orient_normal_two_atoms_witness :
  ∃ s' u0 u1 u2,
    @toggle_orient_mode demo_toolkit demo_collaborators
      (orient_scene [(0, 0, 0); (5, 0, 0)] [true; true]) = Some s'
    ∧ orient_normal s' = Some (Finite u0, Finite u1, Finite u2)
    ∧ u0 * u0 + u1 * u1 + u2 * u2 = 1
    ∧ (u0, u1, u2)
      = scale3 (/ sqrt (dot3 (sub3 (0, 0, 0) (5, 0, 0)) (sub3 (0, 0, 0) (5, 0, 0))))
          (sub3 (0, 0, 0) (5, 0, 0)).
Proof.
  eexists.
  destruct (@orient_normal_two_atoms demo_toolkit demo_collaborators
              (orient_scene [(0, 0, 0); (5, 0, 0)] [true; true]) _
              (orient_scene [(0, 0, 0); (5, 0, 0)] [true; true])
              [true; true] (0, 0, 0) (5, 0, 0) eq_refl eq_refl eq_refl eq_refl)
    as (u0 & u1 & u2 & Hu).
  { intros [=]. lra. }
  exists u0, u1, u2. split; [reflexivity|exact Hu].
Defined.

(** Orient mode with three flagged atoms at the corners of a right
    triangle in the xy plane. *)
Lemma orient_normal_three_atoms_witness :
  ∃ s' u0 u1 u2,
    @toggle_orient_mode demo_toolkit demo_collaborators
      (orient_scene [(0, 0, 0); (1, 0, 0); (0, 1, 0)] [true; true; true])
      = Some s'
    ∧ orient_normal s' = Some (Finite u0, Finite u1, Finite u2)
    ∧ u0 * u0 + u1 * u1 + u2 * u2 = 1
    ∧ dot3 (u0, u1, u2) (sub3 (1, 0, 0) (0, 0, 0)) = 0
    ∧ dot3 (u0, u1, u2) (sub3 (1, 0, 0) (0, 1, 0)) = 0.
Proof.
  eexists.
  destruct (@orient_normal_three_atoms demo_toolkit demo_collaborators
              (orient_scene [(0, 0, 0); (1, 0, 0); (0, 1, 0)] [true; true; true])
              _
              (orient_scene [(0, 0, 0); (1, 0, 0); (0, 1, 0)] [true; true; true])
              [true; true; true] (0, 0, 0) (1, 0, 0) (0, 1, 0)
              eq_refl eq_refl eq_refl eq_refl)
    as (u0 & u1 & u2 & Hu).
  { simpl. intros [=]. lra. }
  exists u0, u1, u2. split; [reflexivity|exact Hu].
Defined.

(** Orient mode with a single flagged atom. *)
Lemma orient_normal_default_witness :
  ∃ s',
    @toggle_orient_mode demo_toolkit demo_collaborators
      (orient_scene [(0, 0, 0)] [true]) = Some s'
    ∧ orient_normal s' = Some (Finite 1, Finite 0, Finite 0).
Proof.
  eexists. split; [reflexivity|].
  apply (@orient_normal_default demo_toolkit demo_collaborators
           (orient_scene [(0, 0, 0)] [true]) _
           (orient_scene [(0, 0, 0)] [true]) [true] [(0, 0, 0)]
           eq_refl eq_refl eq_refl eq_refl); simpl; lia.
Defined.

Lemma wide_wf : @wf_view demo_toolkit wide_view.
Proof. split; simpl; (done || lia). Qed.

(** [focus] on the demo scene in a window of 800 by 600 pixels. *)
Lemma focus_scale_fits_witness :
  ∃ s' P1 P2,
    @focus demo_toolkit demo_collaborators wide_view = Some s'
    ∧ focus_box wide_view = Some (P1, P2)
    ∧ 0 <= scale (camera s')
    ∧ scale (camera s') * (1.3 * (get3 0 P2 - get3 0 P1)) <= 800
    ∧ scale (camera s') * (1.3 * (get3 1 P2 - get3 1 P1)) <= 600.
Proof.
  destruct (@focus_total demo_toolkit demo_collaborators wide_view
              insertion_argsort_contract demo_colors wide_wf)
    as [s' Hfocus]; [simpl; lia|].
  destruct (@focus_scale_fits demo_toolkit demo_collaborators wide_view s'
              0%nat 1 wide_wf)
    as (P1 & P2 & Hbox & _ & _ & Hk & Hw & Hh & _);
    [simpl; lia|simpl; lia|simpl; lia|reflexivity|lra|exact Hfocus|].
  by exists s', P1, P2.
Defined.

Lemma focus_keeps_atoms_in_window_witness :
  ∃ s',
    @focus demo_toolkit demo_collaborators wide_view = Some s'
    ∧ ∀ a x rad,
        (a < 2)%nat → X wide_view !! a = Some x →
        r (images wide_view) !! a = Some rad →
        0 <= get3 0 (project s' x) - scale (camera s') * rad
        ∧ get3 0 (project s' x) + scale (camera s') * rad <= 800
        ∧ 0 <= get3 1 (project s' x) - scale (camera s') * rad
        ∧ get3 1 (project s' x) + scale (camera s') * rad <= 600.
Proof.
  destruct (@focus_total demo_toolkit demo_collaborators wide_view
              insertion_argsort_contract demo_colors wide_wf)
    as [s' Hfocus]; [simpl; lia|].
  exists s'. split; [exact Hfocus|].
  apply (@focus_keeps_atoms_in_window demo_toolkit demo_collaborators
           wide_view s' 0%nat 1 wide_wf identity3_orthonormal);
    [simpl; lia|simpl; lia|simpl; lia|reflexivity|lra|exact Hfocus].
Defined.

(** The picture of the demo scene. *)
Lemma draw_circles_are_visible_atoms_witness :
  ∃ s' calls colors,
    @draw demo_toolkit demo_collaborators true demo_view = Some s'
    ∧ drawn demo_view s' calls
    ∧ @get_colors demo_toolkit demo_collaborators demo_view = Some colors
    ∧ ∀ col sel,
        (∃ x0 y0 x1 y1, Circle col sel x0 y0 x1 y1 ∈ calls)
        ↔ (∃ a, (a < 2)%nat
                ∧ visible (images demo_view) !! a = Some true
                ∧ colors !! a = Some col
                ∧ selected (images demo_view) !! a = Some sel).
Proof.
  destruct (@draw_total demo_toolkit demo_collaborators true demo_view
              insertion_argsort_contract demo_colors demo_wf) as [s' Hdraw].
  destruct (@draw_circles_are_visible_atoms demo_toolkit demo_collaborators
              true demo_view s' insertion_argsort_contract)
    as (calls & colors & Hcalls); [simpl; lia|exact Hdraw|].
  by exists s', calls, colors.
Defined.

(** Hiding atom 0 of the demo scene, which is the selection. *)
Lemma hide_selected_draws_no_selected_atom_witness :
  ∃ s' calls,
    @hide_selected demo_toolkit demo_collaborators
      (set_selection [true; false] [0%nat] demo_view) = Some s'
    ∧ selected (images s') = [true; false]
    ∧ drawn (set_selection [true; false] [0%nat] demo_view) s' calls
    ∧ ∀ col x0 y0 x1 y1, Circle col true x0 y0 x1 y1 ∉ calls.
Proof.
  destruct (@hide_selected_total demo_toolkit demo_collaborators
              (set_selection [true; false] [0%nat] demo_view)
              insertion_argsort_contract demo_colors selected_wf)
    as [s' Hhide].
  destruct (@hide_selected_draws_no_selected_atom demo_toolkit
              demo_collaborators
              (set_selection [true; false] [0%nat] demo_view) s' Hhide)
    as (Hsel & _ & calls & Hcalls & Hnone).
  by exists s', calls.
Defined.


Lemma hide_then_show_selected_witness :
  ∃ s1 s2,
    @hide_selected demo_toolkit demo_collaborators
      (set_selection [true; false] [0%nat] demo_view) = Some s1
    ∧ @show_selected demo_toolkit demo_collaborators s1 = Some s2
    ∧ selected (images s2) = [true; false]
    ∧ visible (images s2) = [true; true].
Proof.
  destruct (@hide_selected_total demo_toolkit demo_collaborators
              (set_selection [true; false] [0%nat] demo_view)
              insertion_argsort_contract demo_colors selected_wf)
    as [s1 Hhide].
  destruct (@show_selected_total demo_toolkit demo_collaborators s1
              insertion_argsort_contract demo_colors
              (wf_hide_selected _ _ selected_wf Hhide))
    as [s2 Hshow].
  exists s1, s2. split; [exact Hhide|]. split; [exact Hshow|].
  apply (@hide_then_show_selected demo_toolkit demo_collaborators
           (set_selection [true; false] [0%nat] demo_view) s1 s2 Hhide Hshow).
Defined.

(** The plane of the first two lattice vectors of a cubic cell. *)
Lemma lattice_plane_in_screen_witness :
  ∃ m,
    set_view_axes (λ _, identity3) demo_view "a1a2Plane" = Some m
    ∧ orthonormal m
    ∧ vecmat (1, 0, 0) m = (Box.norm3 (1, 0, 0), 0, 0)
    ∧ get3 2 (vecmat (0, 1, 0) m) = 0
    ∧ 0 < get3 1 (vecmat (0, 1, 0) m).
Proof.
  eexists. split; [reflexivity|].
  apply (@lattice_plane_in_screen demo_toolkit (λ _, identity3) demo_view
           "a1a2Plane" 0%nat 1%nat identity3 _ eq_refl eq_refl);
    [|reflexivity].
  simpl. intros [=]. lra.
Defined.

(** The tripod of the demo scene, seen along the z axis. *)
Lemma draw_axes_tripod_witness :
  ∃ calls,
    @draw_axes demo_toolkit demo_view = Some calls
    ∧ length calls = 6%nat
    ∧ ∀ x y i, TextAxis x y i ∈ calls → (i < 3)%nat.
Proof.
  destruct (@draw_axes_tripod demo_toolkit demo_view
              insertion_argsort_contract identity3_orthonormal)
    as (calls & Hcalls & Hlen & _ & Hletters).
  by exists calls.
Defined.

End DemoFacts.
